(** * NeoDB catalog core: site registry, resource resolution, fetch
      admission and search-result deduplication.

    A shallow embedding of
      - catalog/search/models.py  (query_index, get_fetch_lock, enqueue_fetch)
      - catalog/search/views.py   (fetch)
      - catalog/common/sites.py   (AbstractSite, SiteManager,
                                   crawl_related_resources_task)
      - catalog/sites/douban_book.py (DoubanBook, DoubanBook_Work)

    Python objects that are mutated and shared are kept in explicit stores,
    the Django cache is a finite map from keys to values with an expiry
    instant, the ORM tables are lists in primary-key order, and code that may
    raise runs in a state-and-exception monad. *)

From Stdlib Require Import ZArith List Bool Ascii String Lia.
From stdpp Require Import base option list gmap strings pretty.

Import ListNotations.
Local Open Scope Z_scope.

(** ** Python values kept in the cache, and their truth value *)

Inductive pyval : Type :=
| VInt (z : Z)
| VStr (s : string)
| VList (l : list string).

(** [bool(v)] of Python: zero, the empty string and the empty list are false. *)
Definition truthy (v : pyval) : bool :=
  match v with
  | VInt z => negb (z =? 0)
  | VStr s => negb (String.eqb s "")
  | VList l => match l with [] => false | _ => true end
  end.

Definition opt_truthy (o : option pyval) : bool :=
  match o with Some v => truthy v | None => false end.

(** ** django.core.cache: a key/value store whose entries expire *)

Module Cache.

Record entry : Type := Entry { value : pyval; expiry : Z }.

Abbreviation t := (gmap string entry).

(** [cache.get(k)] at instant [now]: an entry is visible strictly before
    its expiry instant. *)
Definition get (c : t) (now : Z) (k : string) : option pyval :=
  match c !! k with
  | Some e => if now <? expiry e then Some (value e) else None
  | None => None
  end.

(** [cache.set(k, v, timeout=ttl)] at instant [now]. *)
Definition set (c : t) (now : Z) (k : string) (v : pyval) (ttl : Z) : t :=
  <[k := Entry v (now + ttl)]> c.

(** [if cache.get(k):] *)
Definition locked (c : t) (now : Z) (k : string) : bool :=
  opt_truthy (get c now k).

Lemma get_set_eq c now now' k v ttl :
  get (set c now k v ttl) now' k = if now' <? now + ttl then Some v else None.
Proof. unfold get, set. by rewrite lookup_insert_eq. Qed.

Lemma get_set_ne c now now' k k' v ttl :
  k ≠ k' -> get (set c now k v ttl) now' k' = get c now' k'.
Proof. intros Hne. unfold get, set. by rewrite lookup_insert_ne. Qed.

Lemma locked_set_eq c now now' k ttl :
  now' < now + ttl -> locked (set c now k (VInt 1) ttl) now' k = true.
Proof.
  intros Hlt. unfold locked. rewrite get_set_eq.
  destruct (Z.ltb_spec now' (now + ttl)); [reflexivity | lia].
Qed.

End Cache.

(** ** Fetch admission controller (catalog/search/models.py, views.py) *)

Module FetchAdmission.

(** [request.user]: the fields the admission code reads. *)
Record User : Type := { id : Z; is_authenticated : bool }.

(** [user and user.is_authenticated] *)
Definition authenticated (user : option User) : option User :=
  match user with
  | Some u => if is_authenticated u then Some u else None
  | None => None
  end.

Definition actor_key (user : option User) : string :=
  match authenticated user with
  | Some u => "_fetch_lock:" +:+ pretty (id u)
  | None => "_fetch_lock"
  end.

Definition actor_ttl (DEBUG : bool) (user : option User) : Z :=
  match authenticated user with
  | Some _ => if DEBUG then 1 else 3
  | None => if DEBUG then 1 else 15
  end.

Definition url_key (url : string) : string := "_fetch_lock:" +:+ url.

Definition url_ttl (DEBUG : bool) : Z := if DEBUG then 1 else 7200.

(** [get_fetch_lock(user, url)] run at instant [now] on cache [c]. *)
Definition get_fetch_lock (DEBUG : bool) (user : option User) (url : string)
    (now : Z) (c : Cache.t) : bool * Cache.t :=
  if Cache.locked c now (actor_key user) then (false, c)
  else
    let c1 := Cache.set c now (actor_key user) (VInt 1) (actor_ttl DEBUG user) in
    if Cache.locked c1 now (url_key url) then (false, c1)
    else (true, Cache.set c1 now (url_key url) (VInt 1) (url_ttl DEBUG)).

(** *** The rq queue named "fetch" *)

Inductive job_status : Type := queued | started | finished | failed.

Record fetch_args : Type :=
  FetchArgs { a_url : string; a_is_refetch : bool; a_user_pk : option Z }.

Record Queue : Type := {
  jobs : gmap string job_status;            (* Job.fetch(id).get_status() *)
  enqueued : list (string * fetch_args)     (* every enqueue call, oldest first *)
}.

Definition empty_queue : Queue := {| jobs := ∅; enqueued := [] |}.

Definition in_progress (q : Queue) (job_id : string) : bool :=
  match jobs q !! job_id with
  | Some queued | Some started => true
  | _ => false                               (* other status, or Job.fetch raised *)
  end.

Definition enqueue (q : Queue) (job_id : string) (a : fetch_args) : Queue :=
  {| jobs := <[job_id := queued]> (jobs q);
     enqueued := enqueued q ++ [(job_id, a)] |}.

(** A worker taking a job to its end. *)
Definition worker_finish (q : Queue) (job_id : string) : Queue :=
  {| jobs := <[job_id := finished]> (jobs q); enqueued := enqueued q |}.

Section WithHash.

(** [hashlib.md5(s.encode()).hexdigest()] *)
Variable md5_hexdigest : string -> string.
Variable DEBUG : bool.

Definition job_id_of (url : string) : string := "fetch_" +:+ md5_hexdigest url.

(** [enqueue_fetch(url, is_refetch, user)] *)
Definition enqueue_fetch (url : string) (is_refetch : bool)
    (user : option User) (q : Queue) : string * Queue :=
  let job_id := job_id_of url in
  if in_progress q job_id then (job_id, q)
  else
    let u := match authenticated user with Some x => Some (id x) | None => None end in
    (job_id, enqueue q job_id (FetchArgs url is_refetch u)).

(** State the view works on. [audit] collects [item.log_action] calls. *)
Record St : Type := {
  cache : Cache.t;
  queue : Queue;
  audit : list string
}.

Inductive response : Type :=
| Redirect (item_url : string)
| FetchPending (job_id : option string).

(** An exception that leaves the view. *)
Inductive raised : Type := TypeError (msg : string).

(** The adapter objects the view is handed. *)
Variable Site : Type.

(** [site.get_item(allow_rematch=False)], giving the url of the Item. The
    method is [def get_item(self)] (catalog/common/sites.py, line 212) and no
    class under src overrides it: the keyword is refused when the call binds
    its arguments, before the body of the method runs, whatever the site. *)
Definition get_item_allow_rematch (site : Site) : raised + option string :=
  inl (TypeError "get_item() got an unexpected keyword argument 'allow_rematch'").

(** [fetch(request, url, site, is_refetch)] at instant [now]; [user] is
    [request.user]. *)
Definition fetch (user : option User) (url : string) (site : option Site)
    (is_refetch : bool) (now : Z) (s : St) : (raised + response) * St :=
  let item :=
    match site with
    | Some st => get_item_allow_rematch st
    | None => inr None
    end in
  match item with
  | inl e => (inl e, s)
  | inr item =>
    match item, is_refetch with
    | Some item_url, false => (inr (Redirect item_url), s)
    | _, _ =>
      let au := match item with
                | Some _ => audit s ++ [url]         (* {"!refetch": [url, None]} *)
                | None => audit s
                end in
      let '(admitted, c) :=
        if is_refetch then (true, cache s)
        else get_fetch_lock DEBUG user url now (cache s) in
      if admitted then
        let '(job_id, q) := enqueue_fetch url is_refetch user (queue s) in
        (inr (FetchPending (Some job_id)), {| cache := c; queue := q; audit := au |})
      else
        (inr (FetchPending None), {| cache := c; queue := queue s; audit := au |})
    end
  end.

(** Number of enqueue calls made for [url] so far. *)
Definition jobs_enqueued_for (url : string) (q : Queue) : nat :=
  length (filter (fun p => a_url (snd p) = url) (enqueued q)).

End WithHash.

End FetchAdmission.

(** ** Properties of the fetch admission controller *)

Module FetchAdmissionProofs.
Import FetchAdmission.

Lemma actor_ttl_pos DEBUG user : 0 < actor_ttl DEBUG user.
Proof. unfold actor_ttl. destruct (authenticated user), DEBUG; lia. Qed.

Lemma url_ttl_pos DEBUG : 0 < url_ttl DEBUG.
Proof. unfold url_ttl. destruct DEBUG; lia. Qed.

(** The three ways [get_fetch_lock] can end. *)
Inductive lock_outcome (DEBUG : bool) (user : option User) (url : string)
    (now : Z) (c : Cache.t) : bool * Cache.t -> Prop :=
| actor_denied :
    Cache.locked c now (actor_key user) = true ->
    lock_outcome DEBUG user url now c (false, c)
| url_denied :
    Cache.locked c now (actor_key user) = false ->
    Cache.locked
      (Cache.set c now (actor_key user) (VInt 1) (actor_ttl DEBUG user))
      now (url_key url) = true ->
    lock_outcome DEBUG user url now c
      (false, Cache.set c now (actor_key user) (VInt 1) (actor_ttl DEBUG user))
| admitted :
    Cache.locked c now (actor_key user) = false ->
    Cache.locked c now (url_key url) = false ->
    actor_key user ≠ url_key url ->
    lock_outcome DEBUG user url now c
      (true,
       Cache.set
         (Cache.set c now (actor_key user) (VInt 1) (actor_ttl DEBUG user))
         now (url_key url) (VInt 1) (url_ttl DEBUG)).

Lemma get_fetch_lock_outcome DEBUG user url now c :
  lock_outcome DEBUG user url now c (get_fetch_lock DEBUG user url now c).
Proof.
  unfold get_fetch_lock.
  destruct (Cache.locked c now (actor_key user)) eqn:Ha.
  - by constructor.
  - destruct (Cache.locked (Cache.set _ _ _ _ _) now (url_key url)) eqn:Hu.
    + by constructor.
    + assert (Hne : actor_key user ≠ url_key url).
      { intros Heq. rewrite <- Heq in Hu.
        rewrite Cache.locked_set_eq in Hu; [discriminate |].
        pose proof (actor_ttl_pos DEBUG user). lia. }
      constructor; [done | | done].
      unfold Cache.locked in *. by rewrite Cache.get_set_ne in Hu.
Qed.


Lemma actor_locked_denies DEBUG user url now c :
  Cache.locked c now (actor_key user) = true ->
  get_fetch_lock DEBUG user url now c = (false, c).
Proof. intros Ha. unfold get_fetch_lock. by rewrite Ha. Qed.

Section WithHash.
Variable md5_hexdigest : string -> string.
Variable DEBUG : bool.

Variable Site : Type.

Local Abbreviation fetch := (fetch md5_hexdigest DEBUG Site).
Local Abbreviation job_id_of := (job_id_of md5_hexdigest).







End WithHash.

Definition alice : option User := Some {| id := 7; is_authenticated := true |}.
Definition bob : option User := Some {| id := 8; is_authenticated := true |}.
Definition book_url : string := "https://book.douban.com/subject/1/".
Definition state0 : St := {| cache := ∅; queue := empty_queue; audit := [] |}.

(** Stand-in for md5 in concrete runs; only used as a job identifier. *)
Definition hash0 (s : string) : string := s.


(** The same with a second plain fetch by Bob, which is denied. *)
Example second_fetch_denied :
  let s1 := (fetch hash0 false unit alice book_url None false 0 state0).2 in
  (fetch hash0 false unit alice book_url None false 0 state0).1
  = inr (FetchPending (Some (job_id_of hash0 book_url))) /\
  (fetch hash0 false unit bob book_url None false 60 s1).1 = inr (FetchPending None) /\
  jobs_enqueued_for book_url
    (queue (fetch hash0 false unit bob book_url None false 60 s1).2) = 1%nat.
Proof. vm_compute. repeat split. Qed.

(** C10. When the actor gate is open and the URL gate is closed,
    [get_fetch_lock] answers False and has set the actor lock with its full
    TTL; a further attempt of the same actor, for any URL, within that TTL
    is denied too. *)
Theorem denied_admission_consumes_actor_budget DEBUG user url now c :
  Cache.locked c now (actor_key user) = false ->
  Cache.locked c now (url_key url) = true ->
  let r := get_fetch_lock DEBUG user url now c in
  r.1 = false ∧
  r.2 !! actor_key user = Some (Cache.Entry (VInt 1) (now + actor_ttl DEBUG user)) ∧
  (∀ k, k ≠ actor_key user -> r.2 !! k = c !! k) ∧
  (∀ url' now', now' < now + actor_ttl DEBUG user ->
      get_fetch_lock DEBUG user url' now' r.2 = (false, r.2)).
Proof.
  intros Ha Hu r. subst r.
  destruct (get_fetch_lock_outcome DEBUG user url now c) as [Ha'|Ha' Hu'|Ha' Hu' Hne];
    try congruence.
  simpl. split; [done |]. split; [apply lookup_insert_eq |]. split.
  - intros k Hk. unfold Cache.set. by rewrite lookup_insert_ne.
  - intros url' now' Hlt. apply actor_locked_denies. by apply Cache.locked_set_eq.
Qed.

Definition cache1 : Cache.t :=
  Cache.set ∅ 0 (url_key book_url) (VInt 1) 7200.

Lemma denied_admission_consumes_actor_budget_witness :
  (get_fetch_lock false bob book_url 10 cache1).1 = false ∧
  get_fetch_lock false bob "https://book.douban.com/subject/2/" 12
    (get_fetch_lock false bob book_url 10 cache1).2
  = (false, (get_fetch_lock false bob book_url 10 cache1).2).
Proof.
  refine (match denied_admission_consumes_actor_budget false bob book_url 10 cache1 _ _
          with conj H1 (conj _ (conj _ H4)) => conj H1 (H4 _ 12 _) end);
    reflexivity.
Defined.

End FetchAdmissionProofs.

(** ** Search and the result deduplicator (catalog/search/models.py) *)

Module Search.

(** An attribute an object may lack: [getattr(o, name, default)]. *)
Inductive attr (A : Type) : Type :=
| Missing
| Present (v : option A).
Arguments Missing {A}.
Arguments Present {A} v.

Definition getattr {A : Type} (a : attr A) (default : option A) : option A :=
  match a with
  | Missing => default
  | Present v => v
  end.

(** The fields of a catalog Item that [query_index] reads. [get_work] is
    [None] when the class has no such method, else the id of the work it
    returns, if any. [show] is the parent show a TVSeason points to. *)
#[local] Unset Elimination Schemes.
Inductive Item : Type := mkItem {
  pk : Z;
  class_name : string;
  isbn : attr string;
  imdb_code : attr string;
  barcode : attr string;
  get_work : option (option Z);
  show : option Item;
  external_resources : list string
}.
#[local] Set Elimination Schemes.

Definition TVSeason : string := "TVSeason".
Definition TVShow : string := "TVShow".

(** [a == b] on model instances: same concrete model and same primary key. *)
Definition item_eqb (a b : Item) : bool :=
  String.eqb (class_name a) (class_name b) && (pk a =? pk b).

(** Keys of the [keys] dict: identifier strings and work ids. *)
Definition dkey : Type := string + Z.

(** An object of [r.items]: its position in the result list is its identity,
    the [Item] its (unchanging) fields. The [dupe_to] attribute, which the
    pass sets on shared objects, lives in a store indexed by identity. *)
Definition obj : Type := nat * Item.

Abbreviation dupes := (gmap nat (list Item)).

(** [getattr(o, "dupe_to", [])] *)
Definition dupe_to (h : dupes) (r : nat) : list Item := default [] (h !! r).

(** [setattr(o, "dupe_to", getattr(o, "dupe_to", []) + [i])] *)
Definition add_dupe (h : dupes) (r : nat) (i : Item) : dupes :=
  <[r := dupe_to h r ++ [i]]> h.

(** [my_key]: the keys an item claims, in insertion order. *)
Definition my_key (i : Item) : list dkey :=
  let key := getattr (isbn i) (getattr (imdb_code i) (getattr (barcode i) None)) in
  let k1 := match key with
            | Some s => if String.eqb s "" then [] else [inl s]
            | None => []
            end in
  let k2 := match get_work i with
            | Some (Some work_id) => [inr work_id]
            | _ => []
            end in
  k1 ++ k2.

Record pass_state : Type := {
  keys : gmap dkey nat;
  items : list obj;
  dupe : dupes;
  urls : list string
}.

Definition pass_init : pass_state :=
  {| keys := ∅; items := []; dupe := ∅; urls := [] |}.

(** First claimed key of [ks], in order: the [for k in my_key] loop with
    its [break]. *)
Fixpoint find_dup_by (keys : gmap dkey nat) (ks : list dkey) : option nat :=
  match ks with
  | [] => None
  | k :: ks' =>
    match keys !! k with
    | Some r => Some r
    | None => find_dup_by keys ks'
    end
  end.

Definition claim_keys (keys : gmap dkey nat) (ks : list dkey) (r : nat) : gmap dkey nat :=
  foldl (fun m k => <[k := r]> m) keys ks.

(** Body of [for i in r.items]. *)
Definition dedup_step (st : pass_state) (o : obj) : pass_state :=
  let '(n, i) := o in
  let mk := my_key i in
  let st' :=
    match mk with
    | [] => {| keys := keys st; items := items st ++ [o];
               dupe := dupe st; urls := urls st |}
    | _ =>
      match find_dup_by (keys st) mk with
      | Some dup_by =>
        {| keys := claim_keys (keys st) mk dup_by; items := items st;
           dupe := add_dupe (dupe st) dup_by i; urls := urls st |}
      | None =>
        {| keys := claim_keys (keys st) mk n; items := items st ++ [o];
           dupe := dupe st; urls := urls st |}
      end
    end in
  {| keys := keys st'; items := items st'; dupe := dupe st';
     urls := urls st' ++ external_resources i |}.

Definition enumerate (l : list Item) : list obj := imap (fun n i => (n, i)) l.

Definition dedup_pass (r_items : list Item) : pass_state :=
  foldl dedup_step pass_init (enumerate r_items).

(** [x in items] and [items.remove(x)] *)
Definition py_in (x : Item) (l : list obj) : bool :=
  existsb (fun o => item_eqb (snd o) x) l.

Fixpoint py_remove (x : Item) (l : list obj) : list obj :=
  match l with
  | [] => []
  | o :: l' => if item_eqb (snd o) x then l' else o :: py_remove x l'
  end.

Definition is_season (o : obj) : bool := String.eqb (class_name (snd o)) TVSeason.

(** Body of [for season in seasons]. *)
Definition hide_step (st : list obj * dupes) (season : obj) : list obj * dupes :=
  match show (snd season) with
  | Some sh =>
    if py_in sh (fst st)
    then (py_remove sh (fst st), add_dupe (snd st) (fst season) sh)
    else st
  | None => st
  end.

Definition hide_shows (its : list obj) (h : dupes) : list obj * dupes :=
  let seasons := List.filter is_season its in
  foldl hide_step (its, h) seasons.

(** [keywords] is a [str], or some other sized value. *)
Inductive Keywords : Type :=
| KwStr (s : string)
| KwSeq (l : list string).

Definition isinstance_str (k : Keywords) : bool :=
  match k with KwStr _ => true | KwSeq _ => false end.

(** A [str] is held as its UTF-8 encoding. A byte of the form 10xxxxxx
    continues a character; every other byte starts one. *)
Definition is_continuation (a : ascii) : bool :=
  let n := N_of_ascii a in ((128 <=? n) && (n <? 192))%N.

(** [len(s)] of a [str]: the number of characters (code points), not of
    bytes. *)
Fixpoint str_len (s : string) : nat :=
  match s with
  | EmptyString => 0
  | String a s' => (if is_continuation a then 0 else 1) + str_len s'
  end.

Definition len (k : Keywords) : Z :=
  match k with
  | KwStr s => Z.of_nat (str_len s)
  | KwSeq l => Z.of_nat (length l)
  end.

Record QueryArgs : Type := {
  filter_categories : option (list string);
  exclude_categories : option (list string);
  page_size : option Z
}.

Record SearchResult : Type := {
  r_items : list Item;
  r_pages : Z;
  r_total : Z;
  r_facet_by_category : gmap string Z
}.

(** What the caller receives: the emitted objects with their [dupe_to]
    attribute ([None] when it was never set), and the rest of the tuple. *)
Record Output : Type := {
  o_items : list (Item * option (list Item));
  o_pages : Z;
  o_total : Z;
  o_facets : gmap string Z;
  o_keywords : Keywords
}.

Definition empty_output (keywords : Keywords) : Output :=
  {| o_items := []; o_pages := 0; o_total := 0; o_facets := ∅;
     o_keywords := keywords |}.

Definition emit (its : list obj) (h : dupes) : list (Item * option (list Item)) :=
  map (fun o => (snd o, h !! fst o)) its.

Definition nonempty (c : option (list string)) : option (list string) :=
  match c with
  | Some (x :: l) => Some (x :: l)
  | _ => None
  end.

Definition join (sep : string) (l : list string) : string :=
  match l with
  | [] => ""
  | x :: l' => foldl (fun acc y => acc +:+ sep +:+ y) x l'
  end.

(** The keyword arguments [query_index] passes to the parser. *)
Definition query_args (categories exclude : option (list string)) (per_page : Z)
    : QueryArgs :=
  {| filter_categories := nonempty categories;
     exclude_categories := nonempty exclude;
     page_size := if per_page =? 0 then None else Some per_page |}.

Section WithIndex.

(** catalog.index: the query parser and the index are collaborators. *)
Variable Query : Type.
Variable CatalogQueryParser : Keywords -> Z -> QueryArgs -> Query.
Variable query_bool : Query -> bool.           (* truth value of the parsed query *)
Variable query_q : Query -> Keywords.          (* q.q *)
Variable index_search : Query -> SearchResult.
Variable format_keywords : Keywords -> string. (* the keywords in an f-string *)

(** The cache, and every call made to [index.search], oldest first. *)
Record World : Type := {
  cache : Cache.t;
  searches : list Query
}.

Definition invalid_input (keywords : Keywords) (page : Z) : bool :=
  (page <? 1) || (99 <? page)
  || (isinstance_str keywords && (len keywords <? 2))
  || (100 <? len keywords).

Definition query_index (keywords : Keywords) (categories : option (list string))
    (page : Z) (prepare_external : bool) (exclude : option (list string))
    (per_page : Z) (now : Z) (w : World) : Output * World :=
  if invalid_input keywords page then (empty_output keywords, w)
  else
    let q := CatalogQueryParser keywords page (query_args categories exclude per_page) in
    if negb (query_bool q) then (empty_output keywords, w)
    else
      let r := index_search q in
      let w1 := {| cache := cache w; searches := searches w ++ [q] |} in
      let st := dedup_pass (r_items r) in
      let '(its, h) := hide_shows (items st) (dupe st) in
      let w2 :=
        if prepare_external then
          let cache_key :=
            "search_" +:+ join "," (default [] categories) +:+ "_"
            +:+ format_keywords keywords in
          let cached := match Cache.get (cache w1) now cache_key with
                        | Some (VList l) => l
                        | _ => []
                        end in
          {| cache := Cache.set (cache w1) now cache_key
                        (VList (remove_dups (cached ++ urls st))) 300;
             searches := searches w1 |}
        else w1 in
      ({| o_items := emit its h; o_pages := r_pages r; o_total := r_total r;
          o_facets := r_facet_by_category r; o_keywords := query_q q |}, w2).

End WithIndex.

End Search.

(** ** Properties of the search pass *)

Module SearchProofs.
Import Search.

Lemma item_eqb_refl a : item_eqb a a = true.
Proof. unfold item_eqb. by rewrite String.eqb_refl, Z.eqb_refl. Qed.

Lemma item_eqb_spec a b :
  item_eqb a b = true <-> class_name a = class_name b /\ pk a = pk b.
Proof.
  unfold item_eqb. rewrite andb_true_iff, String.eqb_eq, Z.eqb_eq. tauto.
Qed.

Lemma item_eqb_sym a b : item_eqb a b = item_eqb b a.
Proof. unfold item_eqb. by rewrite String.eqb_sym, Z.eqb_sym. Qed.

Lemma item_eqb_trans a b c :
  item_eqb a b = true -> item_eqb b c = true -> item_eqb a c = true.
Proof. rewrite !item_eqb_spec. intros [-> ->] [-> ->]. done. Qed.

(** Equal targets select the same elements. *)
Lemma item_eqb_congr a x y :
  item_eqb x y = true -> item_eqb a x = item_eqb a y.
Proof.
  intros Hxy. destruct (item_eqb a y) eqn:Hay.
  - apply item_eqb_trans with y; [done |]. by rewrite item_eqb_sym.
  - destruct (item_eqb a x) eqn:Hax; [| done].
    rewrite <- Hay. symmetry. by apply item_eqb_trans with x.
Qed.

(** Number of elements of [l] that compare equal to [x]. *)
Definition count (x : Item) (l : list obj) : nat :=
  length (List.filter (fun o => item_eqb (snd o) x) l).

Lemma count_congr x y l : item_eqb x y = true -> count x l = count y l.
Proof.
  intros Hxy. unfold count. f_equal. apply List.filter_ext.
  intros o. by apply item_eqb_congr.
Qed.

Lemma py_in_congr x y l : item_eqb x y = true -> py_in x l = py_in y l.
Proof.
  intros Hxy. unfold py_in. induction l as [|o l IH]; [done |].
  simpl. by rewrite IH, (item_eqb_congr (snd o) x y).
Qed.

Lemma py_in_count x l : py_in x l = true <-> (0 < count x l)%nat.
Proof.
  unfold py_in, count. induction l as [|o l IH]; simpl; [split; [done | lia] |].
  destruct (item_eqb (snd o) x); simpl; [split; [lia | done] | done].
Qed.

Lemma count_remove_same x l :
  py_in x l = true -> S (count x (py_remove x l)) = count x l.
Proof.
  unfold py_in, count. induction l as [|o l IH]; simpl; [done |].
  destruct (item_eqb (snd o) x) eqn:Ho; simpl; [done |].
  rewrite Ho. intros Hin. by apply IH.
Qed.

Lemma count_remove_other x y l :
  item_eqb x y = false -> count x (py_remove y l) = count x l.
Proof.
  intros Hxy. unfold count. induction l as [|o l IH]; simpl; [done |].
  destruct (item_eqb (snd o) y) eqn:Hoy.
  - destruct (item_eqb (snd o) x) eqn:Hox; [| done].
    rewrite item_eqb_sym in Hox.
    assert (item_eqb x y = true) by (by apply item_eqb_trans with (snd o)).
    congruence.
  - simpl. destruct (item_eqb (snd o) x); simpl; by rewrite IH.
Qed.

Lemma count_remove_le x y l : (count x (py_remove y l) <= count x l)%nat.
Proof.
  destruct (item_eqb x y) eqn:Hxy.
  - rewrite !(count_congr x y) by done.
    destruct (py_in y l) eqn:Hin.
    + pose proof (count_remove_same y l Hin). lia.
    + assert (Hid : py_remove y l = l); [| by rewrite Hid].
      unfold py_in in Hin. induction l as [|o l IH]; [done |].
      simpl in *. destruct (item_eqb (snd o) y); [done |].
      simpl in Hin. by rewrite IH.
  - by rewrite count_remove_other.
Qed.

(** Removing something that is not a season keeps the seasons. *)
Lemma filter_season_remove x l :
  class_name x <> TVSeason ->
  List.filter is_season (py_remove x l) = List.filter is_season l.
Proof.
  intros Hx. induction l as [|o l IH]; [done |].
  simpl. destruct (item_eqb (snd o) x) eqn:Ho.
  - apply item_eqb_spec in Ho as [Hc _].
    unfold is_season. rewrite Hc.
    destruct (String.eqb_spec (class_name x) TVSeason); [done | done].
  - simpl. by rewrite IH.
Qed.

Lemma dupe_to_add_same h r i : dupe_to (add_dupe h r i) r = dupe_to h r ++ [i].
Proof. unfold dupe_to at 1, add_dupe. by rewrite lookup_insert_eq. Qed.

Lemma dupe_to_add_mono h r r' i x :
  In x (dupe_to h r') -> In x (dupe_to (add_dupe h r i) r').
Proof.
  intros Hin. destruct (decide (r = r')) as [->|Hne].
  - rewrite dupe_to_add_same. apply in_or_app. by left.
  - unfold dupe_to at 1, add_dupe. by rewrite lookup_insert_ne.
Qed.

(** Shows are shows: what a season points to is never itself a season. *)
Definition shows_wf (l : list obj) : Prop :=
  forall o sh, In o l -> show (snd o) = Some sh -> class_name sh = TVShow.

Lemma TVShow_not_season sh : class_name sh = TVShow -> class_name sh <> TVSeason.
Proof. intros ->. discriminate. Qed.

Lemma hide_fold_seasons ss its h :
  shows_wf ss ->
  List.filter is_season (fst (foldl hide_step (its, h) ss)) = List.filter is_season its.
Proof.
  revert its h. induction ss as [|s ss IH]; intros its h Hwf; [done |].
  simpl. unfold hide_step at 2. simpl.
  assert (Hwf' : shows_wf ss) by (intros o sh Ho; apply Hwf; by right).
  destruct (show (snd s)) as [sh|] eqn:Hsh; [| by apply IH].
  destruct (py_in sh its); [| by apply IH].
  rewrite IH by done. apply filter_season_remove, TVShow_not_season.
  apply (Hwf s); [by left | done].
Qed.

Lemma hide_fold_count_le ss its h x :
  (count x (fst (foldl hide_step (its, h) ss)) <= count x its)%nat.
Proof.
  revert its h. induction ss as [|s ss IH]; intros its h; [done |].
  simpl. unfold hide_step at 2. simpl.
  destruct (show (snd s)) as [sh|]; [| apply IH].
  destruct (py_in sh its); [| apply IH].
  etransitivity; [apply IH | apply count_remove_le].
Qed.

Lemma hide_fold_dupe_mono ss its h r x :
  In x (dupe_to h r) -> In x (dupe_to (snd (foldl hide_step (its, h) ss)) r).
Proof.
  revert its h. induction ss as [|s ss IH]; intros its h Hin; [done |].
  simpl. unfold hide_step at 2. simpl.
  destruct (show (snd s)) as [sh|]; [| by apply IH].
  destruct (py_in sh its); [| by apply IH].
  apply IH. by apply dupe_to_add_mono.
Qed.

(** The first season of a show that is still listed takes the show as its
    duplicate, and the show leaves the list. *)
Lemma hide_fold_show ss its h s sh :
  In s ss -> show (snd s) = Some sh -> py_in sh its = true ->
  (count sh (fst (foldl hide_step (its, h) ss)) < count sh its)%nat /\
  exists s' sh', In s' ss /\ show (snd s') = Some sh' /\ item_eqb sh' sh = true /\
    In sh' (dupe_to (snd (foldl hide_step (its, h) ss)) (fst s')).
Proof.
  revert its h. induction ss as [|s0 ss IH]; intros its h Hs Hsh Hin; [done |].
  simpl. unfold hide_step at 2 4. simpl.
  destruct (show (snd s0)) as [sh0|] eqn:Hsh0.
  - destruct (item_eqb sh0 sh) eqn:Heq.
    + rewrite (py_in_congr sh0 sh) by done. rewrite Hin. split.
      * pose proof (hide_fold_count_le ss (py_remove sh0 its)
                      (add_dupe h (fst s0) sh0) sh) as Hle.
        rewrite (count_congr sh sh0 (py_remove sh0 its)) in Hle
          by (by rewrite item_eqb_sym).
        rewrite (py_in_congr sh sh0) in Hin by (by rewrite item_eqb_sym).
        pose proof (count_remove_same sh0 its Hin) as Hrm.
        rewrite (count_congr sh sh0 its) by (by rewrite item_eqb_sym). lia.
      * exists s0, sh0. split; [by left |]. split; [done |]. split; [done |].
        apply hide_fold_dupe_mono. rewrite dupe_to_add_same.
        apply in_or_app. right. by left.
    + assert (Hs' : In s ss).
      { destruct Hs as [->|]; [| done]. rewrite Hsh in Hsh0.
        injection Hsh0 as ->. by rewrite item_eqb_refl in Heq. }
      assert (Hne : item_eqb sh sh0 = false) by (by rewrite item_eqb_sym).
      destruct (py_in sh0 its) eqn:Hin0.
      * destruct (IH (py_remove sh0 its) (add_dupe h (fst s0) sh0) Hs' Hsh)
          as (Hc & s' & sh' & Hs'' & H1 & H2 & H3).
        { apply py_in_count. rewrite count_remove_other by done.
          by apply py_in_count. }
        rewrite count_remove_other in Hc by done.
        split; [done |]. exists s', sh'. split; [by right | done].
      * destruct (IH its h Hs' Hsh Hin) as (Hc & s' & sh' & Hs'' & H1 & H2 & H3).
        split; [done |]. exists s', sh'. split; [by right | done].
  - assert (Hs' : In s ss).
    { destruct Hs as [->|]; [| done]. congruence. }
    destruct (IH its h Hs' Hsh Hin) as (Hc & s' & sh' & Hs'' & H1 & H2 & H3).
    split; [done |]. exists s', sh'. split; [by right | done].
Qed.

Lemma shows_wf_filter l : shows_wf l -> shows_wf (List.filter is_season l).
Proof. intros Hwf o sh Ho. apply Hwf. by apply List.filter_In in Ho as [? _]. Qed.

(** The same count on what the caller receives. *)
Definition ocount (x : Item) (l : list (Item * option (list Item))) : nat :=
  length (List.filter (fun p => item_eqb (fst p) x) l).

Lemma ocount_emit x its h : ocount x (emit its h) = count x its.
Proof.
  unfold ocount, count, emit. induction its as [|o its IH]; [done |].
  simpl. destruct (item_eqb (snd o) x); simpl; by rewrite IH.
Qed.

Lemma ocount_zero x l y d :
  ocount x l = 0%nat -> In (y, d) l -> item_eqb y x = false.
Proof.
  unfold ocount. intros Hz Hin. destruct (item_eqb y x) eqn:Hy; [| done].
  assert (Hf : In (y, d) (List.filter (fun p => item_eqb (fst p) x) l)).
  { apply List.filter_In. by split. }
  destruct (List.filter _ l); [done | discriminate].
Qed.

Section WithIndex.

Variable Query : Type.
Variable CatalogQueryParser : Keywords -> Z -> QueryArgs -> Query.
Variable query_bool : Query -> bool.
Variable query_q : Query -> Keywords.
Variable index_search : Query -> SearchResult.
Variable format_keywords : Keywords -> string.

Local Abbreviation query_index :=
  (query_index Query CatalogQueryParser query_bool query_q index_search format_keywords).

(** C5. A page below 1 or above 99, a string keyword shorter than 2, or a
    keyword longer than 100 gives the empty tuple [([], 0, 0, {}, keywords)]
    and leaves the world as it was: nothing is added to the calls made to the
    index, and the cache is not touched. *)
Theorem query_index_rejects_invalid_input keywords categories page
    prepare_external exclude per_page now (w : World Query) :
  page < 1 \/ page > 99 \/
  (isinstance_str keywords = true /\ len keywords < 2) \/
  len keywords > 100 ->
  query_index keywords categories page prepare_external exclude per_page now w
  = ({| o_items := []; o_pages := 0; o_total := 0; o_facets := ∅;
        o_keywords := keywords |}, w).
Proof.
  intros Hbad. unfold Search.query_index.
  assert (Hinv : invalid_input keywords page = true); [| by rewrite Hinv].
  unfold invalid_input. rewrite !orb_true_iff, andb_true_iff, !Z.ltb_lt.
  destruct Hbad as [H|[H|[[H1 H2]|H]]]; [| | | right; lia].
  - left; left; left; lia.
  - left; left; right; lia.
  - left; right; split; [done | lia].
Qed.

(** C1, as amended. When a TV season and its parent show both come out of
    the key-deduplication pass, the season stays in the emitted list, the
    show is appended to the [dupe_to] of an emitted season of that show, and
    one occurrence of the show is removed from the emitted list; a show that
    was listed once is no longer emitted. *)
Theorem show_folded_into_season keywords categories page prepare_external
    exclude per_page now (w : World Query) (o : obj) (sh : Item) :
  invalid_input keywords page = false ->
  let q := CatalogQueryParser keywords page (query_args categories exclude per_page) in
  query_bool q = true ->
  let st := dedup_pass (r_items (index_search q)) in
  shows_wf (items st) ->
  In o (items st) -> is_season o = true -> show (snd o) = Some sh ->
  py_in sh (items st) = true ->
  let out := fst (query_index keywords categories page prepare_external
                    exclude per_page now w) in
  (exists d, In (snd o, d) (o_items out)) /\
  (exists s' sh' d, In (s', Some d) (o_items out) /\ class_name s' = TVSeason /\
      show s' = Some sh' /\ item_eqb sh' sh = true /\ In sh' d) /\
  (ocount sh (o_items out) < count sh (items st))%nat /\
  (count sh (items st) = 1%nat ->
   forall x d, In (x, d) (o_items out) -> item_eqb x sh = false).
Proof.
  intros Hvalid q Hq st Hwf Ho Hseason Hshow Hin out.
  subst out. unfold Search.query_index. rewrite Hvalid. fold q. rewrite Hq. simpl.
  fold st. unfold hide_shows.
  set (ss := List.filter is_season (items st)).
  pose proof (hide_fold_seasons ss (items st) (dupe st)
                (shows_wf_filter _ Hwf)) as Hkeep.
  assert (Hoss : In o ss) by (apply List.filter_In; by split).
  destruct (hide_fold_show ss (items st) (dupe st) o sh Hoss Hshow Hin)
    as (Hcount & s' & sh' & Hs' & Hsh' & Heq & Hdup).
  destruct (foldl hide_step (items st, dupe st) ss) as [its h] eqn:Hfold.
  simpl in *.
  assert (Hmem : forall s0, In s0 ss -> In s0 its).
  { intros s0 Hs0. unfold ss in Hs0. rewrite <- Hkeep in Hs0.
    by apply List.filter_In in Hs0 as [? _]. }
  destruct prepare_external; simpl.
  all: (split; [| split; [| split]]).
  all: try (exists (h !! fst o); unfold emit; apply in_map_iff; exists o;
            split; [done | by apply Hmem]).
  all: try (rewrite ocount_emit; exact Hcount).
  all: try (intros Hone x d Hx; apply (ocount_zero sh (emit its h) x d);
            [rewrite ocount_emit; lia | done]).
  all: unfold dupe_to in Hdup;
    destruct (h !! fst s') as [d|] eqn:Hd; [| done];
    exists (snd s'), sh', d; (split; [| split; [| done]]);
    [ unfold emit; apply in_map_iff; exists s'; split; [by rewrite Hd | by apply Hmem]
    | apply List.filter_In in Hs' as [_ Hs'];
      unfold is_season in Hs'; by apply String.eqb_eq in Hs' ].
Qed.

End WithIndex.

(** *** Concrete runs *)

Definition show1 : Item :=
  {| pk := 1; class_name := TVShow; isbn := Missing;
     imdb_code := Present (Some "tt0903747"); barcode := Missing;
     get_work := None; show := None;
     external_resources := ["https://www.imdb.com/title/tt0903747/"] |}.

Definition season1 : Item :=
  {| pk := 2; class_name := TVSeason; isbn := Missing;
     imdb_code := Present None; barcode := Missing;
     get_work := None; show := Some show1;
     external_resources := [] |}.

(** An index that answers every query with the show followed by its season. *)
Definition index1 (q : Keywords * Z) : SearchResult :=
  {| r_items := [show1; season1]; r_pages := 1; r_total := 2;
     r_facet_by_category := ∅ |}.

Definition parser1 (k : Keywords) (page : Z) (a : QueryArgs) : Keywords * Z := (k, page).

Definition format1 (k : Keywords) : string :=
  match k with KwStr s => s | KwSeq l => join "," l end.

Definition query_index1 :=
  query_index (Keywords * Z) parser1 (fun _ => true) fst index1 format1.

Definition world0 : World (Keywords * Z) := {| cache := ∅; searches := [] |}.

Lemma query_index_rejects_invalid_input_witness :
  query_index1 (KwStr "q") None 100 true None 0 0 world0
  = (empty_output (KwStr "q"), world0).
Proof.
  apply (query_index_rejects_invalid_input (Keywords * Z) parser1 (fun _ => true)
           fst index1 format1 (KwStr "q") None 100 true None 0 0 world0).
  right; left. lia.
Defined.

(** Lengths are counted in characters: a keyword of one Chinese character
    (three bytes) is too short, and one of thirty-four of them (102 bytes) is
    searched for. *)
Example one_character_keyword_rejected :
  len (KwStr "书") = 1 /\
  query_index1 (KwStr "书") None 1 true None 0 0 world0
  = (empty_output (KwStr "书"), world0).
Proof. split; reflexivity. Qed.

Definition kw34 : string :=
  "书书书书书书书书书书书书书书书书书书书书书书书书书书书书书书书书书书".

Example long_in_bytes_keyword_searched :
  String.length kw34 = 102%nat /\ len (KwStr kw34) = 34 /\
  invalid_input (KwStr kw34) 1 = false /\
  searches _ (query_index1 (KwStr kw34) None 1 true None 0 0 world0).2
  = [(KwStr kw34, 1)].
Proof. repeat split; vm_compute; reflexivity. Qed.

Lemma shows_wf1 : shows_wf (items (dedup_pass [show1; season1])).
Proof. intros o sh [<-|[<-|[]]]; simpl; [discriminate |]. by intros [= <-]. Qed.

Lemma show_folded_into_season_witness :
  (ocount show1
     (o_items (fst (query_index1 (KwStr "breaking") None 1 false None 0 0 world0)))
   < count show1 (items (dedup_pass [show1; season1])))%nat.
Proof.
  refine (proj1 (proj2 (proj2
    (show_folded_into_season (Keywords * Z) parser1 (fun _ => true)
       fst index1 format1 (KwStr "breaking") None 1 false None 0 0 world0
       (1%nat, season1) show1 eq_refl eq_refl shows_wf1 _ eq_refl eq_refl eq_refl)))).
  right. left. reflexivity.
Defined.

(** C1 as stated fails: for a result set made of a show followed by its
    season, what is emitted is the season alone, carrying the show as its
    duplicate; the show does not remain in the list. *)
Lemma show_does_not_remain :
  o_items (fst (query_index1 (KwStr "breaking") None 1 false None 0 0 world0))
  = [(season1, Some [show1])].
Proof. vm_compute. reflexivity. Qed.

End SearchProofs.

(** ** Regular expressions of the URL patterns

    [re.match(p, url)] for the fragment of Python's syntax that the
    adapters' [URL_PATTERNS] are written in: literal characters, escapes,
    [.], the classes [\w] and [\d], the quantifiers [+] and [{0,1}] on one
    character, and capturing groups. Matching is anchored at the start of
    the string only, quantifiers are greedy and give back on failure.
    Strings are ASCII ([is_ascii]): there [\w] is a letter, a digit or an
    underscore, [\d] is one of 0 to 9 and [.] is any character but a newline,
    as in Python. On other text Python's classes also take the digits and
    letters of other scripts, which the matcher below does not; what is
    proved about arbitrary text says so. *)

Module Regex.

Inductive cclass : Type :=
| CLit (c : ascii)
| CAny
| CWord
| CDigit.

Inductive quant : Type := Once | OneOrMore | ZeroOrOne.

Record piece : Type := Piece { p_class : cclass; p_quant : quant }.

Inductive node : Type :=
| Atom (p : piece)
| Group (g : list piece).

Definition regex : Type := list node.

(** *** Reading a pattern *)

Inductive mode : Type :=
| Normal
| Escaped
| Braces (seen : string).

(** [out] and [grp] are kept last-first while reading. *)
Record pstate : Type := {
  p_mode : mode;
  out : list node;
  grp : option (list piece)
}.

Definition push (st : pstate) (c : cclass) : pstate :=
  match grp st with
  | Some g => {| p_mode := Normal; out := out st; grp := Some (Piece c Once :: g) |}
  | None => {| p_mode := Normal; out := Atom (Piece c Once) :: out st; grp := None |}
  end.

Definition set_quant (st : pstate) (q : quant) : option pstate :=
  match grp st with
  | Some (Piece c Once :: g) =>
    Some {| p_mode := Normal; out := out st; grp := Some (Piece c q :: g) |}
  | Some _ => None
  | None =>
    match out st with
    | Atom (Piece c Once) :: o =>
      Some {| p_mode := Normal; out := Atom (Piece c q) :: o; grp := None |}
    | _ => None
    end
  end.

Definition escape_class (c : ascii) : cclass :=
  if Ascii.eqb c "w" then CWord
  else if Ascii.eqb c "d" then CDigit
  else CLit c.

Definition parse_step (st : pstate) (c : ascii) : option pstate :=
  match p_mode st with
  | Escaped => Some (push st (escape_class c))
  | Braces seen =>
    if Ascii.eqb c "}" then
      if String.eqb seen "0,1" then set_quant st ZeroOrOne else None
    else Some {| p_mode := Braces (seen +:+ String c EmptyString);
                 out := out st; grp := grp st |}
  | Normal =>
    if Ascii.eqb c "\" then
      Some {| p_mode := Escaped; out := out st; grp := grp st |}
    else if Ascii.eqb c "." then Some (push st CAny)
    else if Ascii.eqb c "+" then set_quant st OneOrMore
    else if Ascii.eqb c "{" then
      Some {| p_mode := Braces ""; out := out st; grp := grp st |}
    else if Ascii.eqb c "(" then
      match grp st with
      | None => Some {| p_mode := Normal; out := out st; grp := Some [] |}
      | Some _ => None
      end
    else if Ascii.eqb c ")" then
      match grp st with
      | Some g => Some {| p_mode := Normal; out := Group (rev g) :: out st; grp := None |}
      | None => None
      end
    else if existsb (Ascii.eqb c) ["*"; "?"; "["; "]"; "|"; "^"; "$"; "}"]%char
    then None
    else Some (push st (CLit c))
  end.

Fixpoint parse_from (st : pstate) (p : string) : option regex :=
  match p with
  | EmptyString =>
    match p_mode st, grp st with
    | Normal, None => Some (rev (out st))
    | _, _ => None
    end
  | String c p' =>
    match parse_step st c with
    | Some st' => parse_from st' p'
    | None => None
    end
  end.

(** [None] outside the fragment. *)
Definition parse (p : string) : option regex :=
  parse_from {| p_mode := Normal; out := []; grp := None |} p.

(** *** Matching *)

Definition in_range (lo hi : nat) (a : ascii) : bool :=
  (lo <=? nat_of_ascii a)%nat && (nat_of_ascii a <=? hi)%nat.

Definition is_digit (a : ascii) : bool := in_range 48 57 a.

Definition is_word (a : ascii) : bool :=
  is_digit a || in_range 65 90 a || in_range 97 122 a || Ascii.eqb a "_".

Definition accepts (c : cclass) (a : ascii) : bool :=
  match c with
  | CLit x => Ascii.eqb x a
  | CAny => negb (Ascii.eqb a "010")
  | CWord => is_word a
  | CDigit => is_digit a
  end.

(** One or more characters of a class, the longest run first. *)
Fixpoint m_plus {R : Type} (p : ascii -> bool) (s : string)
    (k : string -> option R) : option R :=
  match s with
  | EmptyString => None
  | String a s' =>
    if p a then
      match m_plus p s' k with
      | Some r => Some r
      | None => k s'
      end
    else None
  end.

Definition m_piece {R : Type} (p : piece) (s : string)
    (k : string -> option R) : option R :=
  match p_quant p with
  | Once =>
    match s with
    | String a s' => if accepts (p_class p) a then k s' else None
    | EmptyString => None
    end
  | OneOrMore => m_plus (accepts (p_class p)) s k
  | ZeroOrOne =>
    match s with
    | String a s' =>
      if accepts (p_class p) a then
        match k s' with
        | Some r => Some r
        | None => k s
        end
      else k s
    | EmptyString => k s
    end
  end.

Fixpoint m_pieces {R : Type} (ps : list piece) (s : string)
    (k : string -> option R) : option R :=
  match ps with
  | [] => k s
  | p :: ps' => m_piece p s (fun s' => m_pieces ps' s' k)
  end.

(** The text between the start [s] of a group and what is left, [s']. *)
Definition consumed (s s' : string) : string :=
  substring 0 (String.length s - String.length s') s.

Fixpoint m_nodes (r : regex) (s : string) (groups : list string)
    : option (list string) :=
  match r with
  | [] => Some groups
  | Atom p :: r' => m_piece p s (fun s' => m_nodes r' s' groups)
  | Group g :: r' =>
    m_pieces g s (fun s' => m_nodes r' s' (groups ++ [consumed s s']))
  end.

(** [re.match(pattern, s)]: the captured groups of the match, if any. *)
Definition re_match (pattern s : string) : option (list string) :=
  match parse pattern with
  | Some r => m_nodes r s []
  | None => None
  end.

Example parse_works_pattern :
  parse "\w+://book\.douban\.com/works/(\d+)"
  = Some (Atom (Piece CWord OneOrMore)
          :: map (fun c => Atom (Piece (CLit c) Once))
               (list_ascii_of_string "://book.douban.com/works/")
          ++ [Group [Piece CDigit OneOrMore]]).
Proof. reflexivity. Qed.

Example match_subject :
  re_match "\w+://book\.douban\.com/subject/(\d+)/{0,1}"
    "https://book.douban.com/subject/1234/comments" = Some ["1234"%string].
Proof. reflexivity. Qed.

Example match_needs_scheme :
  re_match "\w+://book\.douban\.com/subject/(\d+)/{0,1}"
    "book.douban.com/subject/1234/" = None.
Proof. reflexivity. Qed.

(** The text the matcher is meant for: every character below 128. *)
Fixpoint is_ascii (s : string) : bool :=
  match s with
  | EmptyString => true
  | String a s' => (nat_of_ascii a <? 128)%nat && is_ascii s'
  end.

End Regex.

(** ** Sites and the site manager (catalog/common/sites.py) *)

Module Sites.

(** [bool(s)] of an optional string: [None] and the empty string are false. *)
Definition truthy_str (o : option string) : option string :=
  match o with
  | Some s => if String.eqb s "" then None else Some s
  | None => None
  end.

Definition Metadata : Type := list (string * pyval).

Record ResourceContent : Type := {
  lookup_ids : list (string * string);
  rc_metadata : Metadata;
  cover_image : option string;
  cover_image_extention : option string
}.

(** A dict given where a ResourceContent is expected: the keyword arguments
    of the ResourceContent constructor, absent ones taking the dataclass
    defaults. *)
Record ContentDict : Type := {
  d_lookup_ids : option (list (string * string));
  d_metadata : option Metadata;
  d_cover_image : option string;
  d_cover_image_extention : option string
}.

Definition ResourceContent_of_dict (d : ContentDict) : ResourceContent :=
  {| lookup_ids := default [] (d_lookup_ids d);
     rc_metadata := default [] (d_metadata d);
     cover_image := d_cover_image d;
     cover_image_extention := d_cover_image_extention d |}.

(** [preloaded_content]: a ResourceContent, a dict, or anything else. *)
Inductive Preloaded : Type :=
| IsContent (rc : ResourceContent)
| IsDict (d : ContentDict)
| NoContent.

(** A link descriptor, a dict with optional keys. *)
Record Link : Type := {
  l_url : option string;
  l_id_type : option string;
  l_id_value : option string;
  l_content : option ContentDict
}.

(** The fields of catalog.common.models.ExternalResource that sites.py
    reads and writes. [pk] is [None] until the row is saved. *)
Record ExternalResource : Type := {
  pk : option Z;
  id_type : option string;
  id_value : option string;
  url : option string;
  item_id : option Z;
  metadata : Metadata;
  other_lookup_ids : list (string * string);
  related_resources : list Link;
  prematched_resources : list Link;
  required_resources : list Link
}.

(** The fields of catalog.common.models.Item that sites.py reads and writes. *)
Record Item : Type := {
  i_pk : Z;
  class_name : string;
  primary_lookup_id_type : option string;
  primary_lookup_id_value : option string;
  merged_to_item : option Z;
  i_metadata : Metadata
}.

(** An instance of a subclass of Python's [Exception]: what
    [except Exception] catches. *)
Inductive exn : Type := Exception (name msg : string).

Inductive LogEvent : Type :=
| UnableToGetReady (url : option string)       (* error *)
| UnableToGetSite (linked_url : string)        (* error *)
| HeadTimeout (url : string)                   (* warning *)
| CrawlResourceNotFound (resource_pk : option Z) (* warning *)
| Crawled (w : Link) (item : Item)             (* info *)
| CrawlFailed (w : Link)                       (* warning *)
| CrawlError (w : Link) (e : exn).             (* warning *)

(** Audit actions of [Item.log_action]: the item, the key, the two strings. *)
Record Action : Type := {
  act_item : Z;
  act_name : string;
  act_old : string;
  act_new : string
}.

Record World : Type := {
  resources : list ExternalResource;   (* table, in primary-key order *)
  items : list Item;                   (* table, in primary-key order *)
  cache : Cache.t;
  now : Z;
  log : list LogEvent;                 (* oldest first *)
  crawl_queue : list (option Z);       (* jobs enqueued on the "crawl" queue *)
  actions : list Action
}.

(** *** State and exceptions *)

Inductive result (A : Type) : Type :=
| Ok (a : A)
| Raise (e : exn).
Arguments Ok {A} a.
Arguments Raise {A} e.

Definition M (A : Type) : Type := World -> result A * World.

Definition ret {A : Type} (a : A) : M A := fun w => (Ok a, w).

Definition raise {A : Type} (e : exn) : M A := fun w => (Raise e, w).

Definition bind {A B : Type} (m : M A) (k : A -> M B) : M B :=
  fun w =>
    match m w with
    | (Ok a, w') => k a w'
    | (Raise e, w') => (Raise e, w')
    end.

(** [try: m except Exception as e: h(e)] *)
Definition try_except {A : Type} (m : M A) (h : exn -> M A) : M A :=
  fun w =>
    match m w with
    | (Ok a, w') => (Ok a, w')
    | (Raise e, w') => h e w'
    end.

Definition lift {A : Type} (r : result A) : M A := fun w => (r, w).

Definition gets {A : Type} (f : World -> A) : M A := fun w => (Ok (f w), w).

Definition modify (f : World -> World) : M unit := fun w => (Ok tt, f w).

Declare Scope m_scope.
Delimit Scope m_scope with M.
Notation "'let*' x := m 'in' k" := (bind m (fun x => k))
  (at level 10, x pattern, m at level 100, k at level 200) : m_scope.
Notation "'exec' m 'in' k" := (bind m (fun _ => k))
  (at level 10, m at level 100, k at level 200) : m_scope.
Local Open Scope m_scope.

Definition set_resources (l : list ExternalResource) (w : World) : World :=
  {| resources := l; items := items w; cache := cache w; now := now w;
     log := log w; crawl_queue := crawl_queue w; actions := actions w |}.

Definition set_items (l : list Item) (w : World) : World :=
  {| resources := resources w; items := l; cache := cache w; now := now w;
     log := log w; crawl_queue := crawl_queue w; actions := actions w |}.

Definition set_cache (c : Cache.t) (w : World) : World :=
  {| resources := resources w; items := items w; cache := c; now := now w;
     log := log w; crawl_queue := crawl_queue w; actions := actions w |}.

Definition logger (e : LogEvent) : M unit :=
  modify (fun w =>
    {| resources := resources w; items := items w; cache := cache w; now := now w;
       log := log w ++ [e]; crawl_queue := crawl_queue w; actions := actions w |}).

Definition enqueue_crawl (resource_pk : option Z) : M unit :=
  modify (fun w =>
    {| resources := resources w; items := items w; cache := cache w; now := now w;
       log := log w; crawl_queue := crawl_queue w ++ [resource_pk];
       actions := actions w |}).

Definition log_action (a : Action) : M unit :=
  modify (fun w =>
    {| resources := resources w; items := items w; cache := cache w; now := now w;
       log := log w; crawl_queue := crawl_queue w; actions := actions w ++ [a] |}).

(** *** Site classes

    A subclass of AbstractSite: its class attributes and the class methods
    it may override. [scrape] and [scrape_additional_data] stand for the
    per-site network code. *)
Record SiteClass : Type := MkSiteClass {
  cls_name : string;
  ID_TYPE : option string;
  URL_PATTERNS : list string;
  DEFAULT_MODEL : option string;
  validate_url : string -> bool;
  validate_url_fallback : string -> bool;
  id_to_url : string -> string;
  url_to_id : string -> option string;
  scrape : option string -> option string -> result ResourceContent;
  scrape_additional_data :
    option string -> option string -> list Item -> result (bool * list Item)
}.

(** [next(iter([re.match(p, url) for p in URL_PATTERNS if re.match(p, url)]), None)] *)
Fixpoint first_match (patterns : list string) (url : string) : option (list string) :=
  match patterns with
  | [] => None
  | p :: ps =>
    match Regex.re_match p url with
    | Some u => Some u
    | None => first_match ps url
    end
  end.

Module AbstractSite.

Definition URL_PATTERNS : list string := ["\w+://undefined/(\d+)"].

Definition validate_url (patterns : list string) (url : string) : bool :=
  match first_match patterns url with
  | Some _ => true
  | None => false
  end.

Definition validate_url_fallback (url : string) : bool := false.

Definition id_to_url (id_value : string) : string := "https://undefined/" +:+ id_value.

(** [u[1] if u else None]; every pattern of an adapter has a group. *)
Definition url_to_id (patterns : list string) (url : string) : option string :=
  match first_match patterns url with
  | Some (g :: _) => Some g
  | _ => None
  end.

Definition scrape (url id_value : option string) : result ResourceContent :=
  Ok {| lookup_ids := []; rc_metadata := []; cover_image := None;
        cover_image_extention := None |}.

Definition scrape_additional_data (url id_value : option string) (tbl : list Item)
    : result (bool * list Item) := Ok (false, tbl).

End AbstractSite.

(** An adapter instance. [resource] caches the ExternalResource object. *)
Record Site : Type := {
  cls : SiteClass;
  s_id_value : option string;
  s_url : option string;
  resource : option ExternalResource
}.

(** [cls(url=url, id_value=id_value)] *)
Definition new_site (c : SiteClass) (url id_value : option string) : Site :=
  let idv :=
    match truthy_str id_value with
    | Some v => Some v
    | None =>
      match truthy_str url with
      | Some u => url_to_id c u
      | None => None
      end
    end in
  {| cls := c;
     s_id_value := idv;
     s_url := match truthy_str idv with
              | Some v => Some (id_to_url c v)
              | None => None
              end;
     resource := None |}.

(** *** catalog/sites/douban_book.py

    The two adapters of the file; the strings given for [ID_TYPE] stand for
    the members IdType.DoubanBook and IdType.DoubanBook_Work. *)

Module DoubanBook.

Definition URL_PATTERNS : list string :=
  [ "\w+://book\.douban\.com/subject/(\d+)/{0,1}";
    "\w+://m.douban.com/book/subject/(\d+)/{0,1}";
    "\w+://www.douban.com/doubanapp/dispatch\?uri=/book/(\d+)/";
    "\w+://www.douban.com/doubanapp/dispatch/book/(\d+)" ].

Definition id_to_url (id_value : string) : string :=
  "https://book.douban.com/subject/" +:+ id_value +:+ "/".

Definition url_to_id : string -> option string := AbstractSite.url_to_id URL_PATTERNS.

Definition validate_url : string -> bool := AbstractSite.validate_url URL_PATTERNS.

(** The class, for a given scraper. *)
Definition class (scrape : option string -> option string -> result ResourceContent)
    : SiteClass :=
  MkSiteClass "DoubanBook"            (* __name__ *)
    (Some "doubanbook")               (* ID_TYPE = IdType.DoubanBook *)
    URL_PATTERNS
    (Some "Edition")                  (* DEFAULT_MODEL *)
    validate_url
    AbstractSite.validate_url_fallback
    id_to_url
    url_to_id
    scrape
    AbstractSite.scrape_additional_data.

End DoubanBook.

Module DoubanBook_Work.

Definition URL_PATTERNS : list string := ["\w+://book\.douban\.com/works/(\d+)"].

Definition id_to_url (id_value : string) : string :=
  "https://book.douban.com/works/" +:+ id_value +:+ "/".

Definition class (scrape : option string -> option string -> result ResourceContent)
    : SiteClass :=
  MkSiteClass "DoubanBook_Work"
    (Some "doubanbook_work")          (* ID_TYPE = IdType.DoubanBook_Work *)
    URL_PATTERNS
    (Some "Work")                     (* DEFAULT_MODEL *)
    (AbstractSite.validate_url URL_PATTERNS)
    AbstractSite.validate_url_fallback
    id_to_url
    (AbstractSite.url_to_id URL_PATTERNS)
    scrape
    AbstractSite.scrape_additional_data.

End DoubanBook_Work.

(** *** Collaborators

    What sites.py calls and does not define: the methods of
    ExternalResource and Item (catalog.common.models), the constant
    IdealIdTypes, md5, the URL validator and the HTTP HEAD request. Methods
    that mutate an object return the new object; those that may touch a table
    take and return it; those that may raise return a [result]. *)
Record Env : Type := {
  md5_hexdigest : string -> string;
  url_validate : string -> bool;
  requests_head : string -> option string;   (* final url; None: RequestException *)
  IdealIdTypes : list string;
  ready : ExternalResource -> bool;
  update_content :
    ExternalResource -> ResourceContent -> list ExternalResource ->
    result (ExternalResource * list ExternalResource);
  get_item_model : ExternalResource -> option string -> option string;
  get_lookup_ids : ExternalResource -> option string -> list (string * string);
  get_all_lookup_ids : ExternalResource -> list (string * string);
  get_best_lookup_id :
    string -> list (string * string) -> option string * option string;
  copy_metadata : string -> Metadata -> Metadata;
  merge_data_from_external_resources :
    Item -> bool -> list ExternalResource -> result Item;
  ap_object : Item -> result unit;
  normalize_language : Item -> Item;
  update_linked_items_from_external_resource :
    Item -> ExternalResource -> list Item -> result Item;
  merge_data_from_external_resource :
    Item -> ExternalResource -> list Item -> result (list Item);
  str_resource : ExternalResource -> string
}.

(** *** The two tables *)

Definition opt_eqb (a b : option string) : bool :=
  match a, b with
  | Some x, Some y => String.eqb x y
  | None, None => true
  | _, _ => false
  end.

Definition optZ_eqb (a b : option Z) : bool :=
  match a, b with
  | Some x, Some y => x =? y
  | None, None => true
  | _, _ => false
  end.

(** [ExternalResource.objects.filter(url=url).first()] *)
Definition resource_by_url (tbl : list ExternalResource) (u : option string)
    : option ExternalResource :=
  List.find (fun r => opt_eqb (url r) u) tbl.

(** [ExternalResource.objects.filter(id_type=t, id_value=v).first()] *)
Definition resource_by_id (tbl : list ExternalResource) (t v : option string)
    : option ExternalResource :=
  List.find (fun r => opt_eqb (id_type r) t && opt_eqb (id_value r) v) tbl.

(** [ExternalResource.objects.filter(pk=pk).first()] *)
Definition resource_by_pk (tbl : list ExternalResource) (k : option Z)
    : option ExternalResource :=
  match k with
  | Some _ => List.find (fun r => optZ_eqb (pk r) k) tbl
  | None => None
  end.

(** [model.objects.filter(primary_lookup_id_type=t, primary_lookup_id_value=v).first()] *)
Definition item_by_primary_id (tbl : list Item) (model : string) (t v : option string)
    : option Item :=
  List.find (fun i => String.eqb (class_name i) model
                      && opt_eqb (primary_lookup_id_type i) t
                      && opt_eqb (primary_lookup_id_value i) v) tbl.

Definition item_by_pk (tbl : list Item) (k : Z) : option Item :=
  List.find (fun i => i_pk i =? k) tbl.

Definition DoesNotExist : exn := Exception "DoesNotExist" "Item matching query does not exist.".

(** Following a foreign key to an Item: [None] when the key is null. *)
Definition deref_item (k : option Z) : M (option Item) :=
  match k with
  | None => ret None
  | Some key =>
    let* found := gets (fun w => item_by_pk (items w) key) in
    match found with
    | Some i => ret (Some i)
    | None => raise DoesNotExist
    end
  end.

Definition replace_item (i : Item) (tbl : list Item) : list Item :=
  map (fun j => if i_pk j =? i_pk i then i else j) tbl.

(** [item.save()] of a stored item. *)
Definition save_item (i : Item) : M unit :=
  modify (fun w => set_items (replace_item i (items w)) w).

Definition next_item_pk (tbl : list Item) : Z :=
  1 + foldr (fun i m => Z.max (i_pk i) m) 0 tbl.

(** [model.objects.create] with the copied metadata and the primary id. *)
Definition create_item (model : string) (t v : option string) (md : Metadata) : M Item :=
  let* k := gets (fun w => next_item_pk (items w)) in
  let i := {| i_pk := k; class_name := model;
              primary_lookup_id_type := t; primary_lookup_id_value := v;
              merged_to_item := None; i_metadata := md |} in
  exec modify (fun w => set_items (items w ++ [i]) w) in
  ret i.

Definition next_resource_pk (tbl : list ExternalResource) : Z :=
  1 + foldr (fun r m => Z.max (default 0 (pk r)) m) 0 tbl.

Definition with_pk (r : ExternalResource) (k : Z) : ExternalResource :=
  {| pk := Some k; id_type := id_type r; id_value := id_value r; url := url r;
     item_id := item_id r; metadata := metadata r;
     other_lookup_ids := other_lookup_ids r;
     related_resources := related_resources r;
     prematched_resources := prematched_resources r;
     required_resources := required_resources r |}.

Definition with_item (r : ExternalResource) (i : option Z) : ExternalResource :=
  {| pk := pk r; id_type := id_type r; id_value := id_value r; url := url r;
     item_id := i; metadata := metadata r;
     other_lookup_ids := other_lookup_ids r;
     related_resources := related_resources r;
     prematched_resources := prematched_resources r;
     required_resources := required_resources r |}.

(** [resource.save()]: an insert when the object has no primary key yet. *)
Definition save_resource (r : ExternalResource) : M ExternalResource :=
  match pk r with
  | Some k =>
    exec modify (fun w =>
      set_resources (map (fun x => if optZ_eqb (pk x) (Some k) then r else x)
                       (resources w)) w) in
    ret r
  | None =>
    let* k := gets (fun w => next_resource_pk (resources w)) in
    let r' := with_pk r k in
    exec modify (fun w => set_resources (resources w ++ [r']) w) in
    ret r'
  end.

(** [resource.save(update_fields=["item"])] *)
Definition save_resource_item (r : ExternalResource) : M unit :=
  match pk r with
  | Some k =>
    modify (fun w =>
      set_resources
        (map (fun x => if optZ_eqb (pk x) (Some k) then with_item x (item_id r) else x)
           (resources w)) w)
  | None =>
    raise (Exception "ValueError" "Cannot force an update in save() with no primary key.")
  end.

Definition new_resource (t v u : option string) : ExternalResource :=
  {| pk := None; id_type := t; id_value := v; url := u; item_id := None;
     metadata := []; other_lookup_ids := [];
     related_resources := []; prematched_resources := [];
     required_resources := [] |}.

Definition set_primary_lookup_id (i : Item) (t v : string) : Item :=
  {| i_pk := i_pk i; class_name := class_name i;
     primary_lookup_id_type := Some t; primary_lookup_id_value := Some v;
     merged_to_item := merged_to_item i; i_metadata := i_metadata i |}.

(** *** AbstractSite: instance and class methods *)

Definition with_resource (s : Site) (r : ExternalResource) : Site :=
  {| cls := cls s; s_id_value := s_id_value s; s_url := s_url s;
     resource := Some r |}.

(** [self.get_resource()]: the object, and [self] with its cache filled. *)
Definition get_resource (s : Site) : M (ExternalResource * Site) :=
  match resource s with
  | Some r => ret (r, s)
  | None =>
    let* tbl := gets resources in
    let r :=
      match resource_by_url tbl (s_url s) with
      | Some r => r
      | None =>
        match resource_by_id tbl (ID_TYPE (cls s)) (s_id_value s) with
        | Some r => r
        | None => new_resource (ID_TYPE (cls s)) (s_id_value s) (s_url s)
        end
      end in
    ret (r, with_resource s r)
  end.

Section WithEnv.

Variable E : Env.

Definition in_ideal (t : option string) : bool :=
  match t with
  | Some x => existsb (String.eqb x) (IdealIdTypes E)
  | None => false
  end.

(** [matched_resource and matched_resource.item] *)
Definition owner_of (matched_resource : option ExternalResource) : M (option Item) :=
  match matched_resource with
  | Some r => deref_item (item_id r)
  | None => ret None
  end.

(** The loop over [resource.prematched_resources]; [Some] is its [return]. *)
Fixpoint match_prematched (links : list Link) : M (option Item) :=
  match links with
  | [] => ret None
  | resource_link :: rest =>
    let* found :=
      match truthy_str (l_url resource_link) with
      | Some u =>
        let* tbl := gets resources in
        owner_of (resource_by_url tbl (Some u))
      | None =>
        match truthy_str (l_id_type resource_link),
              truthy_str (l_id_value resource_link) with
        | Some t, Some v =>
          let* tbl := gets resources in
          owner_of (resource_by_id tbl (Some t) (Some v))
        | _, _ => ret None
        end
      end in
    match found with
    | Some i => ret (Some i)
    | None => match_prematched rest
    end
  end.

(** The loop [for t, v in ids]. *)
Fixpoint match_lookup_ids (model : string) (r : ExternalResource)
    (ids : list (string * string)) : M (option Item) :=
  match ids with
  | [] => ret None
  | (t, v) :: rest =>
    let* tbl := gets items in
    let first :=
      match item_by_primary_id tbl model (Some t) (Some v) with
      | Some i => Some i
      | None => item_by_primary_id tbl model (id_type r) (id_value r)
      end in
    let* matched :=
      match first with
      | Some i =>
        let* target := deref_item (merged_to_item i) in
        ret (Some (default i target))
      | None => ret None
      end in
    match matched with
    | Some m =>
      if negb (in_ideal (primary_lookup_id_type m)) && in_ideal (Some t) then
        let m' := set_primary_lookup_id m t v in
        exec save_item m' in
        ret (Some m')
      else ret (Some m)
    | None => match_lookup_ids model r rest
    end
  end.

Definition match_existing_item_for_resource (c : SiteClass) (r : ExternalResource)
    : M (option Item) :=
  let* pre := match_prematched (prematched_resources r) in
  match pre with
  | Some i => ret (Some i)
  | None =>
    match get_item_model E r (DEFAULT_MODEL c) with
    | None => ret None
    | Some model => match_lookup_ids model r (get_lookup_ids E r (DEFAULT_MODEL c))
    end
  end.

(** [a != b] on optional items. *)
Definition item_differs (a b : option Item) : bool :=
  match a, b with
  | Some x, Some y => negb (String.eqb (class_name x) (class_name y) && (i_pk x =? i_pk y))
  | None, None => false
  | _, _ => true
  end.

(** Returns the item and the resource object with its [item] set. *)
Definition match_or_create_item_for_resource (c : SiteClass) (r : ExternalResource)
    : M (option Item * ExternalResource) :=
  let* previous_item :=
    try_except (deref_item (item_id r)) (fun _ => ret None) in
  let* matched := match_existing_item_for_resource c r in
  let found := match matched with Some i => Some i | None => previous_item end in
  let finish (it : Item) :=
    let r' := with_item r (Some (i_pk it)) in
    if item_differs previous_item (Some it) then
      exec match previous_item with
           | Some prev =>
             log_action {| act_item := i_pk prev; act_name := "unmatch";
                           act_old := str_resource E r'; act_new := "" |}
           | None => ret tt
           end in
      exec log_action {| act_item := i_pk it; act_name := "!match";
                         act_old := ""; act_new := str_resource E r' |} in
      exec save_resource_item r' in
      ret (Some it, r')
    else ret (Some it, r') in
  match found with
  | Some it => finish it
  | None =>
    match get_item_model E r (DEFAULT_MODEL c) with
    | None => ret (None, with_item r None)
    | Some model =>
      let '(t, v) := get_best_lookup_id E model (get_all_lookup_ids E r) in
      let* it := create_item model t v (copy_metadata E model (metadata r)) in
      finish it
    end
  end.

(** [self.get_item()] *)
Definition get_item (s : Site) : M (option Item * Site) :=
  let* (p, s1) := get_resource s in
  if negb (ready E p) then ret (None, s1)
  else
    let* (it, p') := match_or_create_item_for_resource (cls s1) p in
    ret (it, with_resource s1 p').

(** *** SiteManager *)

(** [SiteManager.registry]: id type to class, in registration order. *)
Definition Registry : Type := list (option string * SiteClass).

Definition registry_get (reg : Registry) (t : option string) : option SiteClass :=
  match List.find (fun e => opt_eqb (fst e) t) reg with
  | Some e => Some (snd e)
  | None => None
  end.

Definition register (target : SiteClass) (reg : Registry) : result Registry :=
  match registry_get reg (ID_TYPE target) with
  | Some _ => Raise (Exception "ValueError" "Site already exists")
  | None => Ok (reg ++ [(ID_TYPE target, target)])
  end.

(** [SiteManager.registry.values()] *)
Definition values (reg : Registry) : list SiteClass := map snd reg.

Definition redirect_key (url : string) : string := "_redir_" +:+ md5_hexdigest E url.

(** [get_redirected_url(url, allow_head)]. Values under these keys are
    strings. *)
Definition get_redirected_url (url : string) (allow_head : bool) : M string :=
  let k := redirect_key url in
  let* u := gets (fun w => Cache.get (cache w) (now w) k) in
  match u with
  | Some (VStr cached) => if String.eqb cached "" then ret url else ret cached
  | _ =>
    if negb allow_head then ret url
    else
      let* u :=
        match requests_head E url with
        | Some final => ret final
        | None => exec logger (HeadTimeout url) in ret url
        end in
      exec modify (fun w =>
        set_cache (Cache.set (cache w) (now w) k
                     (VStr (if String.eqb u url then "" else u)) 3600) w) in
      ret u
  end.

Definition get_class_by_url (reg : Registry) (url : string) : option SiteClass :=
  List.find (fun c => validate_url c url) (values reg).

Definition get_fallback_class_by_url (reg : Registry) (url : string) : option SiteClass :=
  List.find (fun c => validate_url_fallback c url) (values reg).

Definition or_else {A : Type} (a b : option A) : option A :=
  match a with
  | Some x => Some x
  | None => b
  end.

Definition get_site_by_url (reg : Registry) (url : string) (detect_redirection : bool)
    : M (option Site) :=
  if String.eqb url "" || negb (url_validate E url) then ret None
  else
    let* u := get_redirected_url url detect_redirection in
    let c := or_else (get_class_by_url reg u) (get_fallback_class_by_url reg u) in
    match c with
    | Some c => ret (Some (new_site c (Some u) None))
    | None =>
      if negb (String.eqb u url) then
        match or_else (get_class_by_url reg url) (get_fallback_class_by_url reg url) with
        | Some c => ret (Some (new_site c (Some url) None))
        | None => ret None
        end
      else ret None
    end.

Definition get_site_by_id (reg : Registry) (id_type id_value : string) : option Site :=
  match registry_get reg (Some id_type) with
  | Some c => Some (new_site c None (Some id_value))
  | None => None
  end.

(** *** get_resource_ready *)

(** The scrape or preloaded-content step: lines 258 to 266. *)
Definition update_step (s : Site) (p : ExternalResource) (preloaded_content : Preloaded)
    (ignore_existing_content : bool) : M ExternalResource :=
  if negb (ready E p) || ignore_existing_content then
    let* resource_content :=
      match preloaded_content with
      | IsContent rc => ret rc
      | IsDict d => ret (ResourceContent_of_dict d)
      | NoContent => lift (scrape (cls s) (s_url s) (s_id_value s))
      end in
    let* tbl := gets resources in
    let* (p', tbl') := lift (update_content E p resource_content tbl) in
    exec modify (set_resources tbl') in
    ret p'
  else ret p.

Definition preloaded_of (l : Link) : Preloaded :=
  match l_content l with
  | Some d => IsDict d
  | None => NoContent
  end.

Section Body.

(** The call of the method on a linked site, with [auto_link=False]. *)
Variable linked_get_resource_ready : Site -> Preloaded -> M unit.
Variable reg : Registry.

(** The loop over [p.required_resources]. *)
Fixpoint link_required (links : list Link) : M unit :=
  match links with
  | [] => ret tt
  | linked_resource :: rest =>
    exec match truthy_str (l_url linked_resource) with
         | Some linked_url =>
           let* linked_site := get_site_by_url reg linked_url true in
           match linked_site with
           | Some ls => linked_get_resource_ready ls (preloaded_of linked_resource)
           | None => logger (UnableToGetSite linked_url)
           end
         | None => ret tt
         end in
    link_required rest
  end.

(** The part under [if auto_save:]; gives the stored resource and the item
    object it carries. *)
Definition save_step (s : Site) (p : ExternalResource) (held : M (option Item))
    (ignore_existing_content : bool) : M (ExternalResource * option Item) :=
  let* p' := save_resource p in
  let* it := held in
  match it with
  | Some i =>
    let* tbl := gets resources in
    let* i1 := lift (merge_data_from_external_resources E i ignore_existing_content tbl) in
    exec lift (ap_object E i1) in
    let i2 := normalize_language E i1 in
    exec save_item i2 in
    let* itbl := gets items in
    let* (_, itbl') := lift (scrape_additional_data (cls s) (s_url s) (s_id_value s) itbl) in
    exec modify (set_items itbl') in
    ret (p', Some i2)
  | None => ret (p', None)
  end.

(** The part under [if auto_link:]. *)
Definition link_step (p : ExternalResource) (it : option Item) : M unit :=
  exec link_required (required_resources p) in
  exec match related_resources p, prematched_resources p with
       | [], [] => ret tt
       | _, _ => enqueue_crawl (pk p)
       end in
  match it with
  | Some i =>
    let* itbl := gets items in
    let* i' := lift (update_linked_items_from_external_resource E i p itbl) in
    save_item i'
  | None => ret tt
  end.

(** The method. A model instance is always true, so the early
    [if not self.resource: return None] is never taken once [get_resource]
    has filled the cache. The Item object that [p.item] denotes is carried
    along: it is the one [get_item] attached when [auto_create] is set, and
    the one the foreign key loads otherwise. *)
Definition get_resource_ready_body (s : Site)
    (auto_save auto_create auto_link : bool) (preloaded_content : Preloaded)
    (ignore_existing_content : bool) : M (option ExternalResource * Site) :=
  let auto_create := auto_link || auto_create in
  let auto_save := auto_create || auto_save in
  let* (p, s) := get_resource s in
  let* p := update_step s p preloaded_content ignore_existing_content in
  let s := with_resource s p in
  if negb (ready E p) then
    exec logger (UnableToGetReady (s_url s)) in
    ret (None, s)
  else
    let* (created, s) :=
      if auto_create then get_item s else ret (None, s) in
    let* (p, s) := get_resource s in
    let* (p, it) :=
      if auto_save then
        save_step s p (if auto_create then ret created else deref_item (item_id p))
          ignore_existing_content
      else ret (p, None) in
    let s := with_resource s p in
    exec (if auto_link then link_step p it else ret tt) in
    ret (Some p, s).

End Body.

(** With [auto_link=False] the method never calls itself. *)
Definition get_resource_ready_unlinked (reg : Registry) (s : Site)
    (auto_save auto_create : bool) (preloaded_content : Preloaded)
    (ignore_existing_content : bool) : M (option ExternalResource * Site) :=
  get_resource_ready_body (fun _ _ => ret tt) reg s auto_save auto_create false
    preloaded_content ignore_existing_content.

(** [site.get_resource_ready(auto_save, auto_create, auto_link,
    preloaded_content, ignore_existing_content)] *)
Definition get_resource_ready (reg : Registry) (s : Site)
    (auto_save auto_create auto_link : bool) (preloaded_content : Preloaded)
    (ignore_existing_content : bool) : M (option ExternalResource * Site) :=
  get_resource_ready_body
    (fun ls pre =>
       exec get_resource_ready_unlinked reg ls true true pre false in ret tt)
    reg s auto_save auto_create auto_link preloaded_content ignore_existing_content.

(** *** crawl_related_resources_task *)

#[local] Instance pyval_eq_dec : EqDecision pyval.
Proof. solve_decision. Defined.

#[local] Instance ContentDict_eq_dec : EqDecision ContentDict.
Proof. solve_decision. Defined.

#[local] Instance Link_eq_dec : EqDecision Link.
Proof. solve_decision. Defined.

(** [w in resource.prematched_resources] *)
Definition link_in (w : Link) (l : list Link) : bool := bool_decide (w ∈ l).

(** The body of [try:] for one link [w]. *)
Definition crawl_link (reg : Registry) (r : ExternalResource) (w : Link) : M unit :=
  let by_id :=
    match truthy_str (l_id_value w), truthy_str (l_id_type w) with
    | Some v, Some t => get_site_by_id reg t v
    | _, _ => None
    end in
  let* site :=
    match by_id, truthy_str (l_url w) with
    | None, Some u => get_site_by_url reg u true
    | _, _ => ret by_id
    end in
  let* item :=
    match site with
    | Some st =>
      let* (res, st) := get_resource_ready reg st true true true NoContent false in
      let* (item, st) := get_item st in
      exec match item, res with
           | Some i, Some rs =>
             if link_in w (prematched_resources r) then
               let* itbl := gets items in
               let* itbl' := lift (merge_data_from_external_resource E i rs itbl) in
               modify (set_items itbl')
             else ret tt
           | _, _ => ret tt
           end in
      ret item
    | None => ret None
    end in
  match item with
  | Some i => logger (Crawled w i)
  | None => logger (CrawlFailed w)
  end.

(** The loop [for w in links] with its [try] and [except Exception]. *)
Fixpoint crawl_links (reg : Registry) (r : ExternalResource) (links : list Link) : M unit :=
  match links with
  | [] => ret tt
  | w :: rest =>
    exec try_except (crawl_link reg r w) (fun e => logger (CrawlError w e)) in
    crawl_links reg r rest
  end.

Definition crawl_related_resources_task (reg : Registry) (resource_pk : option Z) : M unit :=
  let* found := gets (fun w => resource_by_pk (resources w) resource_pk) in
  match found with
  | None => logger (CrawlResourceNotFound resource_pk)
  | Some r =>
    crawl_links reg r (related_resources r ++ prematched_resources r)
  end.

End WithEnv.

End Sites.

(** ** DoubanBook: identifiers and URLs *)

Module DoubanBookProofs.
Import Regex Sites.

Fixpoint all_digits (s : string) : bool :=
  match s with
  | EmptyString => true
  | String a s' => is_digit a && all_digits s'
  end.

Fixpoint all_chars (p : ascii -> bool) (s : string) : bool :=
  match s with
  | EmptyString => true
  | String a s' => p a && all_chars p s'
  end.

Lemma all_digits_chars v : all_digits v = all_chars is_digit v.
Proof. induction v as [|a v IH]; simpl; [done | by rewrite IH]. Qed.

(** Where a run of [p] ends: at the end of the string or at a character
    that [p] rejects. *)
Definition stops (p : ascii -> bool) (rest : string) : Prop :=
  match rest with
  | EmptyString => True
  | String a _ => p a = false
  end.

Lemma m_plus_stop {R : Type} p (rest : string) (k : string -> option R) :
  stops p rest -> m_plus p rest k = None.
Proof. destruct rest as [|a rest]; simpl; [done |]. by intros ->. Qed.

(** A greedy [c+] takes the whole run when what follows accepts the rest. *)
Lemma m_plus_run {R : Type} p (v rest : string) (k : string -> option R) (r : R) :
  v <> EmptyString -> all_chars p v = true -> stops p rest ->
  k rest = Some r ->
  m_plus p (v +:+ rest) k = Some r.
Proof.
  induction v as [|a v IH]; [done |].
  intros _ Hd Hstop Hk. simpl in Hd. apply andb_true_iff in Hd as [Ha Hv].
  change (String a v +:+ rest) with (String a (v +:+ rest)).
  simpl. rewrite Ha. destruct v as [|b v].
  - change ("" +:+ rest) with rest. by rewrite m_plus_stop.
  - by rewrite IH.
Qed.

Definition literal (l : string) : regex :=
  map (fun c => Atom (Piece (CLit c) Once)) (list_ascii_of_string l).

(** Literal text matches itself and nothing is captured. *)
Lemma m_nodes_literal (l : string) (r : regex) (s : string) (g : list string) :
  m_nodes (literal l ++ r) (l +:+ s) g = m_nodes r s g.
Proof.
  induction l as [|a l IH]; [done |].
  change (String a l +:+ s) with (String a (l +:+ s)).
  unfold literal. simpl. unfold m_piece. simpl.
  rewrite Ascii.eqb_refl. apply IH.
Qed.

Lemma substring_prefix (v rest : string) :
  substring 0 (String.length v) (v +:+ rest) = v.
Proof.
  induction v as [|a v IH].
  - by destruct rest.
  - change (String a v +:+ rest) with (String a (v +:+ rest)).
    simpl. by rewrite IH.
Qed.

Lemma length_app_string (v rest : string) :
  String.length (v +:+ rest) = (String.length v + String.length rest)%nat.
Proof.
  induction v as [|a v IH]; [done |].
  change (String a v +:+ rest) with (String a (v +:+ rest)).
  simpl. by rewrite IH.
Qed.

Lemma consumed_prefix (v rest : string) : consumed (v +:+ rest) rest = v.
Proof.
  unfold consumed. rewrite length_app_string.
  replace (String.length v + String.length rest - String.length rest)%nat
    with (String.length v) by lia.
  apply substring_prefix.
Qed.

(** The first pattern on the canonical URL of an identifier. *)
Lemma subject_pattern_match (v : string) :
  v <> EmptyString -> all_digits v = true ->
  re_match "\w+://book\.douban\.com/subject/(\d+)/{0,1}" (DoubanBook.id_to_url v)
  = Some [v].
Proof.
  intros Hne Hd. rewrite all_digits_chars in Hd. unfold re_match.
  replace (parse "\w+://book\.douban\.com/subject/(\d+)/{0,1}")
    with (Some (Atom (Piece CWord OneOrMore)
                :: literal "://book.douban.com/subject/"
                ++ [Group [Piece CDigit OneOrMore];
                    Atom (Piece (CLit "/") ZeroOrOne)]))
    by (vm_compute; reflexivity).
  change (DoubanBook.id_to_url v)
    with ("https" +:+ ("://book.douban.com/subject/" +:+ (v +:+ "/"))).
  change (m_nodes (Atom (Piece CWord OneOrMore) :: ?r) ?s [])
    with (m_plus is_word s (fun s' => m_nodes r s' [])).
  apply m_plus_run; [done | reflexivity | reflexivity |].
  rewrite m_nodes_literal.
  change (m_nodes (Group [Piece CDigit OneOrMore] :: ?r) ?s [])
    with (m_plus is_digit s (fun s' => m_nodes r s' ([] ++ [consumed s s']))).
  apply m_plus_run; [done | done | reflexivity |].
  rewrite consumed_prefix. reflexivity.
Qed.

(** C9. For a non-empty string of decimal digits [v], the URL that
    DoubanBook builds from [v] is one its own patterns accept, and
    [url_to_id] gives back exactly [v]; an adapter built from the identifier
    and one built from that URL carry the same identifier and URL. *)
Theorem douban_book_id_url_roundtrip scrape (v : string) :
  v <> EmptyString -> all_digits v = true ->
  let DoubanBook := DoubanBook.class scrape in
  url_to_id DoubanBook (id_to_url DoubanBook v) = Some v /\
  validate_url DoubanBook (id_to_url DoubanBook v) = true /\
  new_site DoubanBook (Some (id_to_url DoubanBook v)) None
  = new_site DoubanBook None (Some v).
Proof.
  intros Hne Hd DoubanBook.
  pose proof (subject_pattern_match v Hne Hd) as Hm.
  assert (Hid : DoubanBook.url_to_id (DoubanBook.id_to_url v) = Some v).
  { unfold DoubanBook.url_to_id, AbstractSite.url_to_id, DoubanBook.URL_PATTERNS.
    simpl. by rewrite Hm. }
  split; [exact Hid |]. split.
  - simpl. unfold DoubanBook.validate_url, AbstractSite.validate_url,
      DoubanBook.URL_PATTERNS. simpl. by rewrite Hm.
  - assert (Hv : truthy_str (Some v) = Some v).
    { simpl. destruct (String.eqb_spec v ""); [done | done]. }
    assert (Hu : truthy_str (Some (DoubanBook.id_to_url v))
                 = Some (DoubanBook.id_to_url v)) by reflexivity.
    change (url_to_id DoubanBook) with DoubanBook.url_to_id in *.
    change (id_to_url DoubanBook) with DoubanBook.id_to_url in *.
    unfold new_site.
    change (url_to_id DoubanBook) with DoubanBook.url_to_id.
    change (id_to_url DoubanBook) with DoubanBook.id_to_url.
    change (truthy_str None) with (@None string).
    rewrite Hu, Hv. cbn iota. by rewrite Hid, Hv.
Qed.

Lemma douban_book_id_url_roundtrip_witness :
  url_to_id (DoubanBook.class AbstractSite.scrape)
    (id_to_url (DoubanBook.class AbstractSite.scrape) "1084336") = Some "1084336"%string.
Proof.
  refine (proj1 (douban_book_id_url_roundtrip AbstractSite.scrape "1084336" _ _));
    [discriminate | reflexivity].
Defined.

End DoubanBookProofs.

(** ** Properties of the site manager and of item matching *)

Module SitesProofs.
Import Sites.
Local Open Scope m_scope.

(** *** First match in registration order *)

Definition first_accepting {A : Type} (p : A -> bool) (l : list A) (c : A) : Prop :=
  exists l1 l2, l = l1 ++ c :: l2 /\ Forall (fun x => p x = false) l1 /\ p c = true.

Definition none_accepting {A : Type} (p : A -> bool) (l : list A) : Prop :=
  Forall (fun x => p x = false) l.

Lemma find_first_accepting {A : Type} (p : A -> bool) (l : list A) (c : A) :
  List.find p l = Some c <-> first_accepting p l c.
Proof.
  induction l as [|x l IH]; simpl.
  - split; [done |]. intros (l1 & l2 & Heq & _). by destruct l1.
  - destruct (p x) eqn:Hx.
    + split.
      * intros [= ->]. exists [], l. by repeat split.
      * intros (l1 & l2 & Heq & Hall & Hc). destruct l1 as [|y l1].
        -- by injection Heq as -> _.
        -- injection Heq as -> _. inversion Hall; congruence.
    + rewrite IH. split.
      * intros (l1 & l2 & -> & Hall & Hc). exists (x :: l1), l2.
        repeat split; [| done]. by constructor.
      * intros (l1 & l2 & Heq & Hall & Hc). destruct l1 as [|y l1].
        -- injection Heq as -> _. congruence.
        -- injection Heq as -> ->. exists l1, l2. inversion Hall. by repeat split.
Qed.

Lemma find_none_accepting {A : Type} (p : A -> bool) (l : list A) :
  List.find p l = None <-> none_accepting p l.
Proof.
  unfold none_accepting. induction l as [|x l IH]; simpl.
  - split; [by constructor | done].
  - destruct (p x) eqn:Hx.
    + split; [done |]. inversion 1; congruence.
    + rewrite IH. split; [by constructor | by inversion 1].
Qed.

Section WithEnv.

Variable E : Env.

(** The redirect lookup always answers. *)
Lemma get_redirected_url_total url allow_head w :
  exists u w', get_redirected_url E url allow_head w = (Ok u, w').
Proof.
  unfold get_redirected_url, bind, gets. simpl.
  destruct (Cache.get (cache w) (now w) (redirect_key E url)) as [[z|cached|l]|];
    try destruct (String.eqb cached ""); unfold ret; eauto;
    destruct allow_head; simpl; eauto;
    destruct (requests_head E url); simpl; unfold ret; simpl; eauto.
Qed.

(** What [get_site_by_url] is to answer for the canonical URL [u] of [url]:
    the class and the URL the adapter is built from. *)
Inductive resolves (reg : Registry) (url u : string)
    : option (SiteClass * string) -> Prop :=
| by_pattern c :
    first_accepting (fun c => validate_url c u) (values reg) c ->
    resolves reg url u (Some (c, u))
| by_fallback c :
    none_accepting (fun c => validate_url c u) (values reg) ->
    first_accepting (fun c => validate_url_fallback c u) (values reg) c ->
    resolves reg url u (Some (c, u))
| by_original_pattern c :
    none_accepting (fun c => validate_url c u) (values reg) ->
    none_accepting (fun c => validate_url_fallback c u) (values reg) ->
    u <> url ->
    first_accepting (fun c => validate_url c url) (values reg) c ->
    resolves reg url u (Some (c, url))
| by_original_fallback c :
    none_accepting (fun c => validate_url c u) (values reg) ->
    none_accepting (fun c => validate_url_fallback c u) (values reg) ->
    u <> url ->
    none_accepting (fun c => validate_url c url) (values reg) ->
    first_accepting (fun c => validate_url_fallback c url) (values reg) c ->
    resolves reg url u (Some (c, url))
| no_adapter :
    none_accepting (fun c => validate_url c u) (values reg) ->
    none_accepting (fun c => validate_url_fallback c u) (values reg) ->
    (u <> url ->
     none_accepting (fun c => validate_url c url) (values reg) /\
     none_accepting (fun c => validate_url_fallback c url) (values reg)) ->
    resolves reg url u None.

(** The order leaves no choice. *)
Lemma resolves_functional reg url u o1 o2 :
  resolves reg url u o1 -> resolves reg url u o2 -> o1 = o2.
Proof.
  intros H1 H2. destruct H1; destruct H2;
    repeat match goal with
           | H : ?a <> ?b -> _, H' : ?a <> ?b |- _ => destruct (H H'); clear H
           end;
    repeat match goal with
           | H : first_accepting _ _ _ |- _ => apply find_first_accepting in H
           | H : none_accepting _ _ |- _ => apply find_none_accepting in H
           end;
    congruence.
Qed.

(** The redirect cache: an empty string stands for no redirect, any other
    cached string is the canonical URL, and neither touches the world. *)
Lemma get_redirected_url_cached url allow_head w cached :
  Cache.get (cache w) (now w) (redirect_key E url) = Some (VStr cached) ->
  get_redirected_url E url allow_head w
  = (Ok (if String.eqb cached "" then url else cached), w).
Proof.
  intros Hc. unfold get_redirected_url, bind, gets. rewrite Hc.
  by destruct (String.eqb cached "").
Qed.

(** Without a cached answer and without leave to ask, the URL stands. *)
Lemma get_redirected_url_no_head url w :
  Cache.get (cache w) (now w) (redirect_key E url) = None ->
  get_redirected_url E url false w = (Ok url, w).
Proof. intros Hc. unfold get_redirected_url, bind, gets. by rewrite Hc. Qed.

(** A HEAD request caches its answer for 3600 seconds. *)
Lemma get_redirected_url_head url w final :
  Cache.get (cache w) (now w) (redirect_key E url) = None ->
  requests_head E url = Some final ->
  get_redirected_url E url true w
  = (Ok final,
     set_cache (Cache.set (cache w) (now w) (redirect_key E url)
                  (VStr (if String.eqb final url then "" else final)) 3600) w).
Proof.
  intros Hc Hh. unfold get_redirected_url, bind, gets. rewrite Hc. simpl.
  by rewrite Hh.
Qed.

(** What the redirect lookup of [url] is to answer in world [w], and the
    world it is to leave: a cached string decides, the empty one standing
    for the URL itself; without one the URL stands unless a HEAD request is
    allowed; the answer of a HEAD request, or the URL itself when the request
    fails (which is logged), is cached for 3600 seconds. *)
Inductive canonical (url : string) (allow_head : bool) (w : World)
    : string -> World -> Prop :=
| cached_no_redirect :
    Cache.get (cache w) (now w) (redirect_key E url) = Some (VStr "") ->
    canonical url allow_head w url w
| cached_redirect c :
    Cache.get (cache w) (now w) (redirect_key E url) = Some (VStr c) ->
    c <> EmptyString ->
    canonical url allow_head w c w
| not_asked :
    (forall c, Cache.get (cache w) (now w) (redirect_key E url) <> Some (VStr c)) ->
    allow_head = false ->
    canonical url allow_head w url w
| head_answered final :
    (forall c, Cache.get (cache w) (now w) (redirect_key E url) <> Some (VStr c)) ->
    allow_head = true ->
    requests_head E url = Some final ->
    canonical url allow_head w final
      (set_cache (Cache.set (cache w) (now w) (redirect_key E url)
                    (VStr (if String.eqb final url then "" else final)) 3600) w)
| head_failed :
    (forall c, Cache.get (cache w) (now w) (redirect_key E url) <> Some (VStr c)) ->
    allow_head = true ->
    requests_head E url = None ->
    canonical url allow_head w url
      (set_cache (Cache.set (cache w) (now w) (redirect_key E url) (VStr "") 3600)
         (logger (HeadTimeout url) w).2).

(** The lookup leaves no choice either. *)
Lemma canonical_functional url allow_head w u1 w1 u2 w2 :
  canonical url allow_head w u1 w1 -> canonical url allow_head w u2 w2 ->
  u1 = u2 /\ w1 = w2.
Proof.
  intros H1 H2. destruct H1; destruct H2;
    try match goal with
        | H : forall c, _ <> Some (VStr c), H' : _ = Some (VStr _) |- _ =>
          destruct (H _ H')
        end;
    try congruence; try done.
  - assert (c = c0) by congruence. by subst.
  - assert (final = final0) by congruence. by subst.
Qed.

Lemma get_redirected_url_uncached url allow_head w :
  (forall c, Cache.get (cache w) (now w) (redirect_key E url) <> Some (VStr c)) ->
  get_redirected_url E url allow_head w
  = if allow_head then
      match requests_head E url with
      | Some final =>
        (Ok final,
         set_cache (Cache.set (cache w) (now w) (redirect_key E url)
                      (VStr (if String.eqb final url then "" else final)) 3600) w)
      | None =>
        (Ok url,
         set_cache (Cache.set (cache w) (now w) (redirect_key E url) (VStr "") 3600)
           (logger (HeadTimeout url) w).2)
      end
    else (Ok url, w).
Proof.
  intros Hmiss. unfold get_redirected_url, bind, gets.
  destruct (Cache.get (cache w) (now w) (redirect_key E url)) as [[z|c|l]|];
    try (by destruct (Hmiss c));
    destruct allow_head; simpl; try done;
    destruct (requests_head E url); simpl; try done;
    unfold logger, modify, ret; simpl; by rewrite String.eqb_refl.
Qed.

Lemma get_redirected_url_canonical url allow_head w :
  exists u w',
    get_redirected_url E url allow_head w = (Ok u, w') /\
    canonical url allow_head w u w'.
Proof.
  destruct (Cache.get (cache w) (now w) (redirect_key E url)) as [[z|c|l]|] eqn:Hc.
  2:{ rewrite (get_redirected_url_cached url allow_head w c Hc).
      destruct (String.eqb_spec c "") as [->|Hne].
      - exists url, w. split; [done |]. by apply cached_no_redirect.
      - exists c, w. split; [done |]. by apply cached_redirect. }
  all: assert (Hmiss : forall c, Cache.get (cache w) (now w) (redirect_key E url)
                                  <> Some (VStr c)) by (rewrite Hc; congruence);
    rewrite (get_redirected_url_uncached url allow_head w Hmiss);
    destruct allow_head;
    [ destruct (requests_head E url) as [final|] eqn:Hh;
      [ eexists _, _; split; [done |]; by apply head_answered
      | eexists _, _; split; [done |]; by apply head_failed ]
    | eexists _, _; split; [done |]; by apply not_asked ].
Qed.

Definition site_of (o : option (SiteClass * string)) : option Site :=
  match o with
  | Some (c, x) => Some (new_site c (Some x) None)
  | None => None
  end.

(** C8. An empty or invalid URL gives none and touches nothing. Otherwise
    the URL is first canonicalized by the cached redirect lookup (a cached
    answer is used as it is; without one the URL stands, or, when redirection
    is detected, a HEAD request is made and its answer cached for 3600
    seconds), and the answer follows the order: [validate_url] on the
    canonical URL in registration order, then [validate_url_fallback] on it,
    then, when the canonical URL differs from the original, [validate_url] and
    [validate_url_fallback] on the original, the adapter being built from the
    original URL in that case; none when no predicate accepts. The world is
    the one the redirect lookup leaves. *)
Theorem get_site_by_url_resolution_order (reg : Registry) (url : string)
    (detect_redirection : bool) (w : World) :
  (url = EmptyString \/ url_validate E url = false ->
   get_site_by_url E reg url detect_redirection w = (Ok None, w)) /\
  (url <> EmptyString /\ url_validate E url = true ->
   exists u w' o,
     canonical url detect_redirection w u w' /\
     resolves reg url u o /\
     get_site_by_url E reg url detect_redirection w = (Ok (site_of o), w')).
Proof.
  split.
  - intros Hbad. unfold get_site_by_url.
    assert (Hg : String.eqb url "" || negb (url_validate E url) = true);
      [| by rewrite Hg].
    destruct Hbad as [->| ->]; [done | by rewrite orb_true_r].
  - intros [Hne Hok]. unfold get_site_by_url.
    apply String.eqb_neq in Hne. rewrite Hne, Hok. simpl.
    destruct (get_redirected_url_canonical url detect_redirection w)
      as (u & w' & Hu & Hcan).
    exists u, w'. unfold bind. rewrite Hu. unfold or_else.
    destruct (get_class_by_url reg u) as [c|] eqn:H1.
    { exists (Some (c, u)). split; [done |]. split; [| done].
      apply by_pattern. by apply find_first_accepting. }
    apply find_none_accepting in H1.
    destruct (get_fallback_class_by_url reg u) as [c|] eqn:H2.
    { exists (Some (c, u)). split; [done |]. split; [| done].
      apply by_fallback; [done |]. by apply find_first_accepting. }
    apply find_none_accepting in H2.
    destruct (String.eqb_spec u url) as [->|Hdiff]; simpl.
    { exists None. split; [done |]. split; [| done]. by apply no_adapter. }
    destruct (get_class_by_url reg url) as [c|] eqn:H3.
    { exists (Some (c, url)). split; [done |]. split; [| done].
      apply by_original_pattern; try done. by apply find_first_accepting. }
    apply find_none_accepting in H3.
    destruct (get_fallback_class_by_url reg url) as [c|] eqn:H4.
    { exists (Some (c, url)). split; [done |]. split; [| done].
      apply by_original_fallback; try done. by apply find_first_accepting. }
    apply find_none_accepting in H4.
    exists None. split; [done |]. split; [| done]. by apply no_adapter.
Qed.

(** *** Prematched links *)

(** Referential integrity of the resources table: an [item] key that is
    set refers to a stored Item. *)
Definition fk_ok (w : World) : Prop :=
  forall r k, In r (resources w) -> item_id r = Some k ->
    item_by_pk (items w) k <> None.

(** The resource a descriptor resolves to: by its url when it has one, else
    by its id type and value. *)
Definition link_resource (tbl : list ExternalResource) (l : Link)
    : option ExternalResource :=
  match truthy_str (l_url l) with
  | Some u => resource_by_url tbl (Some u)
  | None =>
    match truthy_str (l_id_type l), truthy_str (l_id_value l) with
    | Some t, Some v => resource_by_id tbl (Some t) (Some v)
    | _, _ => None
    end
  end.

(** The Item owned by the resource a descriptor resolves to. *)
Definition link_owner (w : World) (l : Link) : option Item :=
  match link_resource (resources w) l with
  | Some r =>
    match item_id r with
    | Some k => item_by_pk (items w) k
    | None => None
    end
  | None => None
  end.

Fixpoint first_owner (w : World) (links : list Link) : option Item :=
  match links with
  | [] => None
  | l :: rest =>
    match link_owner w l with
    | Some i => Some i
    | None => first_owner w rest
    end
  end.

Lemma link_resource_In tbl l r : link_resource tbl l = Some r -> In r tbl.
Proof.
  unfold link_resource, resource_by_url, resource_by_id.
  destruct (truthy_str (l_url l)).
  - intros H. by apply List.find_some in H as [? _].
  - destruct (truthy_str (l_id_type l)), (truthy_str (l_id_value l)); try done.
    intros H. by apply List.find_some in H as [? _].
Qed.

Lemma deref_item_found w k i :
  item_by_pk (items w) k = Some i -> deref_item (Some k) w = (Ok (Some i), w).
Proof. intros H. unfold deref_item, bind, gets. by rewrite H. Qed.

Lemma deref_item_null w : deref_item None w = (Ok None, w).
Proof. done. Qed.

Lemma owner_of_link w l :
  fk_ok w ->
  owner_of (link_resource (resources w) l) w = (Ok (link_owner w l), w).
Proof.
  intros Hfk. unfold link_owner.
  destruct (link_resource (resources w) l) as [r|] eqn:Hr; [| done].
  simpl. destruct (item_id r) as [k|] eqn:Hk; [| done].
  destruct (item_by_pk (items w) k) as [i|] eqn:Hi.
  - by apply deref_item_found.
  - exfalso. apply (Hfk r k); [by apply (link_resource_In _ l) | done | done].
Qed.

Lemma match_prematched_first_owner w links :
  fk_ok w -> match_prematched links w = (Ok (first_owner w links), w).
Proof.
  intros Hfk. induction links as [|l rest IH]; [done |].
  pose proof (owner_of_link w l Hfk) as Ho. unfold link_resource in Ho.
  cbn [match_prematched first_owner]. unfold bind at 1.
  destruct (truthy_str (l_url l)) as [u|].
  - unfold bind at 1, gets. rewrite Ho.
    destruct (link_owner w l); [done | exact IH].
  - destruct (truthy_str (l_id_type l)) as [t|], (truthy_str (l_id_value l)) as [v|];
      try (unfold bind at 1, gets; rewrite Ho);
      try (assert (Hn : link_owner w l = None)
             by (injection Ho as Ho; by rewrite <- Ho); rewrite Hn);
      try (destruct (link_owner w l); [done | exact IH]); exact IH.
Qed.

Lemma first_owner_none w links :
  (forall l, In l links -> link_owner w l = None) -> first_owner w links = None.
Proof.
  induction links as [|l rest IH]; [done |]. intros H. simpl.
  rewrite (H l) by (by left). apply IH. intros l' Hl'. apply H. by right.
Qed.

Lemma first_owner_at w l1 l l2 i :
  (forall l', In l' l1 -> link_owner w l' = None) ->
  link_owner w l = Some i ->
  first_owner w (l1 ++ l :: l2) = Some i.
Proof.
  induction l1 as [|x l1 IH]; intros Hnone Hl; simpl.
  - by rewrite Hl.
  - rewrite (Hnone x) by (by left). apply IH; [| done].
    intros l' Hl'. apply Hnone. by right.
Qed.

(** What [match_or_create_item_for_resource] records when the item of a
    stored resource changes. *)
Definition rematch_actions (previous : option Item) (i : Item) (r : ExternalResource)
    : list Action :=
  match previous with
  | Some prev =>
    [ {| act_item := i_pk prev; act_name := "unmatch";
         act_old := str_resource E r; act_new := "" |} ]
  | None => []
  end
  ++ [ {| act_item := i_pk i; act_name := "!match";
          act_old := ""; act_new := str_resource E r |} ].

(** C2. When the descriptors of [prematched_resources], walked in order and
    looked up by url when present and else by id type and value, reach one
    whose resource owns an Item, [match_existing_item_for_resource] returns
    that Item at once and changes nothing; [match_or_create_item_for_resource]
    on a stored resource returns it as well, points the resource at it and
    creates no Item. *)
Theorem prematched_short_circuit (c : SiteClass) (r : ExternalResource) (w : World)
    (l1 l2 : list Link) (l : Link) (i : Item) :
  fk_ok w ->
  prematched_resources r = l1 ++ l :: l2 ->
  (forall l', In l' l1 -> link_owner w l' = None) ->
  link_owner w l = Some i ->
  match_existing_item_for_resource E c r w = (Ok (Some i), w) /\
  (forall k, pk r = Some k ->
     exists w',
       match_or_create_item_for_resource E c r w
       = (Ok (Some i, with_item r (Some (i_pk i))), w') /\
       items w' = items w /\
       log w' = log w /\
       (actions w' = actions w \/
        exists previous,
          actions w' = actions w
                       ++ rematch_actions previous i (with_item r (Some (i_pk i))))).
Proof.
  intros Hfk Hpre Hnone Hown.
  assert (Hex : match_existing_item_for_resource E c r w = (Ok (Some i), w)).
  { unfold match_existing_item_for_resource, bind.
    rewrite match_prematched_first_owner by done.
    rewrite Hpre, (first_owner_at w l1 l l2 i) by done. done. }
  split; [exact Hex |].
  intros k Hk. unfold match_or_create_item_for_resource.
  unfold bind at 1.
  assert (Hprev : exists previous,
             try_except (deref_item (item_id r)) (fun _ => ret None) w
             = (Ok previous, w)).
  { unfold try_except, deref_item.
    destruct (item_id r) as [key|]; [| by exists None].
    unfold bind, gets. destruct (item_by_pk (items w) key) as [j|].
    - by exists (Some j).
    - by exists None. }
  destruct Hprev as (previous & ->).
  unfold bind at 1. rewrite Hex.
  destruct (item_differs previous (Some i)) eqn:Hd.
  - unfold save_resource_item. simpl. rewrite Hk.
    destruct previous as [prev|]; simpl.
    + eexists. split; [reflexivity |]. simpl. split; [done |]. split; [done |].
      right. exists (Some prev). unfold rematch_actions. simpl.
      by rewrite <- app_assoc.
    + eexists. split; [reflexivity |]. simpl. split; [done |]. split; [done |].
      right. by exists None.
  - exists w. split; [reflexivity |]. split; [done |]. split; [done |]. by left.
Qed.

(** *** Lookup-id candidates *)

(** The Item a candidate [(t, v)] matches: by its own primary id, else by the
    id of the resource. *)
Definition candidate_match (tbl : list Item) (model : string) (r : ExternalResource)
    (t v : string) : option Item :=
  or_else (item_by_primary_id tbl model (Some t) (Some v))
    (item_by_primary_id tbl model (id_type r) (id_value r)).

(** The Item a matched Item stands for: its merge target when it has one. *)
Definition live (tbl : list Item) (i : Item) : option Item :=
  match merged_to_item i with
  | None => Some i
  | Some k => item_by_pk tbl k
  end.

Lemma match_lookup_ids_miss model r t v rest w :
  candidate_match (items w) model r t v = None ->
  match_lookup_ids E model r ((t, v) :: rest) w = match_lookup_ids E model r rest w.
Proof.
  unfold candidate_match, or_else. intros Hc.
  cbn [match_lookup_ids]. unfold bind at 1, gets.
  destruct (item_by_primary_id (items w) model (Some t) (Some v)); [done |].
  by rewrite Hc.
Qed.

Lemma match_lookup_ids_hit model r t v rest w i0 m :
  candidate_match (items w) model r t v = Some i0 ->
  live (items w) i0 = Some m ->
  match_lookup_ids E model r ((t, v) :: rest) w
  = if negb (in_ideal E (primary_lookup_id_type m)) && in_ideal E (Some t)
    then (Ok (Some (set_primary_lookup_id m t v)),
          set_items (replace_item (set_primary_lookup_id m t v) (items w)) w)
    else (Ok (Some m), w).
Proof.
  unfold candidate_match, or_else, live. intros Hc Hl.
  assert (Hd : bind (deref_item (merged_to_item i0))
                 (fun target => ret (Some (default i0 target))) w = (Ok (Some m), w)).
  { unfold bind. destruct (merged_to_item i0) as [k|].
    - by rewrite (deref_item_found w k m).
    - rewrite deref_item_null. by injection Hl as ->. }
  cbn [match_lookup_ids]. unfold bind at 1, gets.
  destruct (item_by_primary_id (items w) model (Some t) (Some v)) as [x|].
  - injection Hc as ->. unfold bind at 1. rewrite Hd.
    by destruct (negb (in_ideal E (primary_lookup_id_type m)) && in_ideal E (Some t)).
  - rewrite Hc. unfold bind at 1. rewrite Hd.
    by destruct (negb (in_ideal E (primary_lookup_id_type m)) && in_ideal E (Some t)).
Qed.

Lemma match_lookup_ids_skip model r pre rest w :
  (forall t v, In (t, v) pre -> candidate_match (items w) model r t v = None) ->
  match_lookup_ids E model r (pre ++ rest) w = match_lookup_ids E model r rest w.
Proof.
  induction pre as [|[t v] pre IH]; intros Hnone; [done |].
  simpl app. rewrite match_lookup_ids_miss by (apply Hnone; by left).
  apply IH. intros t' v' Hin. apply Hnone. by right.
Qed.

Lemma replace_item_same_pk m' tbl j :
  In j (replace_item m' tbl) -> i_pk j = i_pk m' -> j = m'.
Proof.
  unfold replace_item. intros Hin Hpk. apply in_map_iff in Hin as (x & Hx & _).
  destruct (Z.eqb_spec (i_pk x) (i_pk m')); [done | congruence].
Qed.

Lemma replace_item_stored m m' tbl :
  i_pk m' = i_pk m -> In m tbl -> In m' (replace_item m' tbl).
Proof.
  intros Hpk Hin. unfold replace_item. apply in_map_iff. exists m.
  split; [| done]. rewrite Hpk. by rewrite Z.eqb_refl.
Qed.

(** C3. When no prematched link decides, and [(t, v)] is the first candidate
    that matches an Item, with [t] an ideal id type and the primary id type
    of the matched Item (of its merge target, when it has one) not ideal,
    the function returns that Item with its primary id set to [(t, v)], and
    the same Item is what the table holds under its key afterwards. *)
Theorem id_upgrade (c : SiteClass) (r : ExternalResource) (w : World)
    (model : string) (pre post : list (string * string)) (t v : string)
    (i0 m : Item) :
  fk_ok w ->
  (forall l, In l (prematched_resources r) -> link_owner w l = None) ->
  get_item_model E r (DEFAULT_MODEL c) = Some model ->
  get_lookup_ids E r (DEFAULT_MODEL c) = pre ++ (t, v) :: post ->
  (forall t' v', In (t', v') pre -> candidate_match (items w) model r t' v' = None) ->
  candidate_match (items w) model r t v = Some i0 ->
  live (items w) i0 = Some m ->
  in_ideal E (Some t) = true ->
  in_ideal E (primary_lookup_id_type m) = false ->
  let m' := set_primary_lookup_id m t v in
  let w' := set_items (replace_item m' (items w)) w in
  match_existing_item_for_resource E c r w = (Ok (Some m'), w') /\
  primary_lookup_id_type m' = Some t /\
  primary_lookup_id_value m' = Some v /\
  (forall j, In j (items w') -> i_pk j = i_pk m -> j = m') /\
  (In m (items w) -> In m' (items w')).
Proof.
  intros Hfk Hpre Hmodel Hids Hmiss Hhit Hlive Ht Hm m' w'.
  split; [| split; [done | split; [done | split]]].
  - unfold match_existing_item_for_resource, bind.
    rewrite match_prematched_first_owner by done.
    rewrite first_owner_none by done. rewrite Hmodel, Hids.
    rewrite match_lookup_ids_skip by done.
    rewrite (match_lookup_ids_hit model r t v post w i0 m) by done.
    by rewrite Ht, Hm.
  - intros j Hj Hpk. by apply (replace_item_same_pk m' (items w)).
  - intros Hin. by apply (replace_item_stored m).
Qed.

(** *** get_resource_ready *)

(** What [get_resource] returns in a given world; it has no effect. *)
Definition resource_of (s : Site) (w : World) : ExternalResource * Site :=
  match resource s with
  | Some r => (r, s)
  | None =>
    let r :=
      match resource_by_url (resources w) (s_url s) with
      | Some r => r
      | None =>
        match resource_by_id (resources w) (ID_TYPE (cls s)) (s_id_value s) with
        | Some r => r
        | None => new_resource (ID_TYPE (cls s)) (s_id_value s) (s_url s)
        end
      end in
    (r, with_resource s r)
  end.

Lemma get_resource_pure s w : get_resource s w = (Ok (resource_of s w), w).
Proof. unfold get_resource, resource_of. by destruct (resource s). Qed.

(** The update step writes to the resources table only. *)
Lemma update_step_frame s p pre ign w res w1 :
  update_step E s p pre ign w = (res, w1) ->
  items w1 = items w /\ log w1 = log w /\ actions w1 = actions w /\
  crawl_queue w1 = crawl_queue w /\ cache w1 = cache w.
Proof.
  unfold update_step.
  destruct (negb (ready E p) || ign); [| by intros [= _ <-]].
  unfold bind at 1.
  assert (Hrc : exists q, (match pre with
                           | IsContent rc => ret rc
                           | IsDict d => ret (ResourceContent_of_dict d)
                           | NoContent => lift (scrape (cls s) (s_url s) (s_id_value s))
                           end) w = (q, w)).
  { destruct pre; unfold ret, lift; eauto. }
  destruct Hrc as (q & ->). destruct q as [rc|e]; [| by intros [= _ <-]].
  unfold bind, gets, lift, modify, ret.
  destruct (update_content E p rc (resources w)) as [[p' tbl']|e];
    by intros [= _ <-].
Qed.

(** C6. When the resource is not ready after the scrape or preloaded-content
    step, [get_resource_ready] logs the failure and returns none: the world
    it leaves is the one left by that step with the error logged, so the
    Item table, the audit actions and the crawl queue are as they were before
    the call. *)
Theorem not_ready_is_terminal (reg : Registry) (s : Site)
    (auto_save auto_create auto_link : bool) (preloaded_content : Preloaded)
    (ignore_existing_content : bool) (w w1 : World) (p1 : ExternalResource) :
  update_step E (resource_of s w).2 (resource_of s w).1
    preloaded_content ignore_existing_content w = (Ok p1, w1) ->
  ready E p1 = false ->
  let out := get_resource_ready E reg s auto_save auto_create auto_link
               preloaded_content ignore_existing_content w in
  out.1 = Ok (None, with_resource (resource_of s w).2 p1) /\
  log out.2 = log w ++ [UnableToGetReady (s_url s)] /\
  resources out.2 = resources w1 /\
  items out.2 = items w /\
  actions out.2 = actions w /\
  crawl_queue out.2 = crawl_queue w.
Proof.
  intros Hup Hready out.
  destruct (update_step_frame _ _ _ _ _ _ _ Hup) as (Hi & Hl & Ha & Hq & _).
  assert (Hurl : s_url (resource_of s w).2 = s_url s).
  { unfold resource_of. by destruct (resource s). }
  assert (Hout : out = (Ok (None, with_resource (resource_of s w).2 p1),
                        (logger (UnableToGetReady (s_url s)) w1).2)).
  { subst out. unfold get_resource_ready, get_resource_ready_body.
    unfold bind at 1. rewrite get_resource_pure.
    destruct (resource_of s w) as [p0 s0] eqn:Hr. simpl in Hup, Hurl.
    unfold bind at 1. rewrite Hup. rewrite Hready. simpl.
    by rewrite Hurl. }
  rewrite Hout. simpl. by rewrite Hl, Hi, Ha, Hq.
Qed.

(** *** The crawl task *)

(** The link a log entry of the crawl loop reports on. *)
Definition crawl_outcome (e : LogEvent) : option Link :=
  match e with
  | Crawled w _ | CrawlFailed w | CrawlError w _ => Some w
  | _ => None
  end.

(** The links the crawl loop has reported on, oldest first. *)
Definition outcomes (l : list LogEvent) : list Link := omap crawl_outcome l.

(** An action that reports on no link, whether it returns or raises. *)
Definition quiet {A : Type} (m : M A) : Prop :=
  forall w, outcomes (log (m w).2) = outcomes (log w).

Lemma quiet_ret {A : Type} (a : A) : quiet (ret a).
Proof. done. Qed.

Lemma quiet_raise {A : Type} (e : exn) : quiet (@raise A e).
Proof. done. Qed.

Lemma quiet_lift {A : Type} (r : result A) : quiet (lift r).
Proof. done. Qed.

Lemma quiet_gets {A : Type} (f : World -> A) : quiet (gets f).
Proof. done. Qed.

Lemma quiet_modify (f : World -> World) :
  (forall w, log (f w) = log w) -> quiet (modify f).
Proof. intros Hf w. simpl. by rewrite Hf. Qed.

Lemma quiet_logger (e : LogEvent) : crawl_outcome e = None -> quiet (logger e).
Proof.
  intros He w. simpl. unfold outcomes. rewrite omap_app. simpl. rewrite He.
  by rewrite app_nil_r.
Qed.

Lemma quiet_bind {A B : Type} (m : M A) (k : A -> M B) :
  quiet m -> (forall a, quiet (k a)) -> quiet (bind m k).
Proof.
  intros Hm Hk w. unfold bind. specialize (Hm w).
  destruct (m w) as [[a|e] w']; simpl in *; [| done].
  by rewrite Hk.
Qed.

Lemma quiet_try {A : Type} (m : M A) (h : exn -> M A) :
  quiet m -> (forall e, quiet (h e)) -> quiet (try_except m h).
Proof.
  intros Hm Hh w. unfold try_except. specialize (Hm w).
  destruct (m w) as [[a|e] w']; simpl in *; [done |].
  by rewrite Hh.
Qed.

Ltac quiet_step :=
  match goal with
  | |- quiet (ret _) => apply quiet_ret
  | |- quiet (raise _) => apply quiet_raise
  | |- quiet (lift _) => apply quiet_lift
  | |- quiet (gets _) => apply quiet_gets
  | |- quiet (modify _) => apply quiet_modify; intros; reflexivity
  | |- quiet (logger _) => apply quiet_logger; reflexivity
  | |- quiet (bind _ _) => apply quiet_bind; [| intros ?]
  | |- quiet (try_except _ _) => apply quiet_try; [| intros ?]
  | |- quiet (match ?x with _ => _ end) => destruct x
  | |- quiet (let _ := _ in _) => cbv zeta
  | H : quiet ?m |- quiet ?m => exact H
  | H : forall a, quiet (?f a) |- quiet (?f _) => apply H
  | H : forall a b, quiet (?f a b) |- quiet (?f _ _) => apply H
  end.

Ltac quiet_auto := repeat quiet_step.

Lemma quiet_deref_item k : quiet (deref_item k).
Proof. unfold deref_item. quiet_auto. Qed.

Lemma quiet_save_item i : quiet (save_item i).
Proof. unfold save_item. quiet_auto. Qed.

Lemma quiet_create_item model t v md : quiet (create_item model t v md).
Proof. unfold create_item. quiet_auto. Qed.

Lemma quiet_save_resource r : quiet (save_resource r).
Proof. unfold save_resource. quiet_auto. Qed.

Lemma quiet_save_resource_item r : quiet (save_resource_item r).
Proof. unfold save_resource_item. quiet_auto. Qed.

Lemma quiet_log_action a : quiet (log_action a).
Proof. unfold log_action. quiet_auto. Qed.

Lemma quiet_enqueue_crawl k : quiet (enqueue_crawl k).
Proof. unfold enqueue_crawl. quiet_auto. Qed.

Lemma quiet_get_resource s : quiet (get_resource s).
Proof. unfold get_resource. quiet_auto. Qed.

Lemma quiet_owner_of r : quiet (owner_of r).
Proof. unfold owner_of. destruct r; [apply quiet_deref_item | quiet_auto]. Qed.

Lemma quiet_match_prematched links : quiet (match_prematched links).
Proof.
  induction links as [|l rest IH]; cbn [match_prematched]; [quiet_auto |].
  apply quiet_bind.
  - destruct (truthy_str (l_url l)).
    + apply quiet_bind; [quiet_auto | intros; apply quiet_owner_of].
    + destruct (truthy_str (l_id_type l)), (truthy_str (l_id_value l));
        try apply quiet_ret.
      apply quiet_bind; [quiet_auto | intros; apply quiet_owner_of].
  - intros [i|]; [quiet_auto | exact IH].
Qed.

Lemma quiet_match_lookup_ids model r ids : quiet (match_lookup_ids E model r ids).
Proof.
  induction ids as [|[t v] rest IH]; cbn [match_lookup_ids]; [quiet_auto |].
  apply quiet_bind; [quiet_auto | intros tbl].
  apply quiet_bind.
  - destruct (match item_by_primary_id tbl model (Some t) (Some v) with
              | Some i => Some i
              | None => item_by_primary_id tbl model (id_type r) (id_value r)
              end); [| quiet_auto].
    apply quiet_bind; [apply quiet_deref_item | intros; quiet_auto].
  - intros [m|]; [| exact IH].
    destruct (negb (in_ideal E (primary_lookup_id_type m)) && in_ideal E (Some t)).
    + apply quiet_bind; [apply quiet_save_item | intros; quiet_auto].
    + quiet_auto.
Qed.

Lemma quiet_match_existing c r : quiet (match_existing_item_for_resource E c r).
Proof.
  unfold match_existing_item_for_resource.
  apply quiet_bind; [apply quiet_match_prematched | intros [i|]; [quiet_auto |]].
  destruct (get_item_model E r (DEFAULT_MODEL c)); [| quiet_auto].
  apply quiet_match_lookup_ids.
Qed.

Lemma quiet_match_or_create c r : quiet (match_or_create_item_for_resource E c r).
Proof.
  unfold match_or_create_item_for_resource.
  apply quiet_bind.
  { apply quiet_try; [apply quiet_deref_item | intros; quiet_auto]. }
  intros previous. apply quiet_bind; [apply quiet_match_existing | intros matched].
  cbv zeta.
  assert (Hfin : forall it,
            quiet (if item_differs previous (Some it)
                   then bind (match previous with
                              | Some prev =>
                                log_action
                                  {| act_item := i_pk prev; act_name := "unmatch";
                                     act_old := str_resource E
                                                  (with_item r (Some (i_pk it)));
                                     act_new := "" |}
                              | None => ret tt
                              end)
                          (fun _ =>
                             bind (log_action
                                     {| act_item := i_pk it; act_name := "!match";
                                        act_old := "";
                                        act_new := str_resource E
                                                     (with_item r (Some (i_pk it))) |})
                               (fun _ =>
                                  bind (save_resource_item (with_item r (Some (i_pk it))))
                                    (fun _ => ret (Some it, with_item r (Some (i_pk it))))))
                   else ret (Some it, with_item r (Some (i_pk it))))).
  { intros it. destruct (item_differs previous (Some it)); [| quiet_auto].
    apply quiet_bind.
    - destruct previous; [apply quiet_log_action | quiet_auto].
    - intros _. apply quiet_bind; [apply quiet_log_action | intros _].
      apply quiet_bind; [apply quiet_save_resource_item | intros; quiet_auto]. }
  destruct (match matched with Some i => Some i | None => previous end) as [it|];
    [apply Hfin |].
  destruct (get_item_model E r (DEFAULT_MODEL c)) as [model|]; [| quiet_auto].
  destruct (get_best_lookup_id E model (get_all_lookup_ids E r)) as [t v].
  apply quiet_bind; [apply quiet_create_item | intros it; apply Hfin].
Qed.

Lemma quiet_get_item s : quiet (get_item E s).
Proof.
  unfold get_item. apply quiet_bind; [apply quiet_get_resource | intros [p s1]].
  destruct (negb (ready E p)); [quiet_auto |].
  apply quiet_bind; [apply quiet_match_or_create | intros [it p']; quiet_auto].
Qed.

Lemma quiet_get_redirected_url url allow_head : quiet (get_redirected_url E url allow_head).
Proof.
  unfold get_redirected_url. apply quiet_bind; [quiet_auto | intros u].
  assert (Hhead : quiet (if negb allow_head then ret url
                         else bind (match requests_head E url with
                                    | Some final => ret final
                                    | None => bind (logger (HeadTimeout url))
                                                (fun _ => ret url)
                                    end)
                                (fun u0 =>
                                   bind (modify (fun w =>
                                           set_cache
                                             (Cache.set (cache w) (now w)
                                                (redirect_key E url)
                                                (VStr (if String.eqb u0 url
                                                       then "" else u0)) 3600) w))
                                     (fun _ => ret u0)))).
  { destruct (negb allow_head); [quiet_auto |].
    apply quiet_bind; [destruct (requests_head E url); quiet_auto | intros; quiet_auto]. }
  destruct u as [[z|cached|l]|]; try exact Hhead.
  destruct (String.eqb cached ""); quiet_auto.
Qed.

Lemma quiet_get_site_by_url reg url d : quiet (get_site_by_url E reg url d).
Proof.
  unfold get_site_by_url.
  destruct (String.eqb url "" || negb (url_validate E url)); [quiet_auto |].
  apply quiet_bind; [apply quiet_get_redirected_url | intros u].
  destruct (or_else (get_class_by_url reg u) (get_fallback_class_by_url reg u));
    [quiet_auto |].
  destruct (negb (String.eqb u url)); [| quiet_auto].
  destruct (or_else (get_class_by_url reg url) (get_fallback_class_by_url reg url));
    quiet_auto.
Qed.

Lemma quiet_update_step s p pre ign : quiet (update_step E s p pre ign).
Proof.
  intros w. destruct (update_step E s p pre ign w) as [res w1] eqn:Hup.
  destruct (update_step_frame _ _ _ _ _ _ _ Hup) as (_ & Hl & _). simpl.
  by rewrite Hl.
Qed.

Section Body.

Variable linked : Site -> Preloaded -> M unit.
Variable reg : Registry.
Hypothesis quiet_linked : forall ls pre, quiet (linked ls pre).

Lemma quiet_link_required links : quiet (link_required E linked reg links).
Proof.
  induction links as [|l rest IH]; cbn [link_required]; [quiet_auto |].
  apply quiet_bind; [| intros _; exact IH].
  destruct (truthy_str (l_url l)); [| quiet_auto].
  apply quiet_bind; [apply quiet_get_site_by_url | intros [ls|]; quiet_auto].
Qed.

Lemma quiet_save_step s p held ign :
  quiet held -> quiet (save_step E s p held ign).
Proof.
  intros Hheld. unfold save_step.
  apply quiet_bind; [apply quiet_save_resource | intros p'].
  apply quiet_bind; [exact Hheld | intros [i|]; [| quiet_auto]].
  apply quiet_bind; [quiet_auto | intros tbl].
  apply quiet_bind; [quiet_auto | intros i1].
  apply quiet_bind; [quiet_auto | intros _].
  apply quiet_bind; [apply quiet_save_item | intros _].
  apply quiet_bind; [quiet_auto | intros itbl].
  apply quiet_bind; [quiet_auto | intros [b itbl']].
  apply quiet_bind; [quiet_auto | intros; quiet_auto].
Qed.

Lemma quiet_link_step p it : quiet (link_step E linked reg p it).
Proof.
  unfold link_step.
  apply quiet_bind; [apply quiet_link_required | intros _].
  apply quiet_bind.
  - destruct (related_resources p), (prematched_resources p);
      try apply quiet_enqueue_crawl. quiet_auto.
  - intros _. destruct it as [i|]; [| quiet_auto].
    apply quiet_bind; [quiet_auto | intros itbl].
    apply quiet_bind; [quiet_auto | intros; apply quiet_save_item].
Qed.

Lemma quiet_body s auto_save auto_create auto_link pre ign :
  quiet (get_resource_ready_body E linked reg s auto_save auto_create auto_link pre ign).
Proof.
  unfold get_resource_ready_body. cbv zeta.
  apply quiet_bind; [apply quiet_get_resource | intros [p0 s0]].
  apply quiet_bind; [apply quiet_update_step | intros p1].
  destruct (negb (ready E p1)); [quiet_auto |].
  apply quiet_bind.
  { destruct (auto_link || auto_create); [apply quiet_get_item | quiet_auto]. }
  intros [created s2].
  apply quiet_bind; [apply quiet_get_resource | intros [p2 s3]].
  apply quiet_bind.
  { destruct (auto_link || auto_create || auto_save); [| quiet_auto].
    apply quiet_save_step.
    destruct (auto_link || auto_create); [quiet_auto | apply quiet_deref_item]. }
  intros [p3 it].
  apply quiet_bind; [| intros; quiet_auto].
  destruct auto_link; [apply quiet_link_step | quiet_auto].
Qed.

End Body.

Lemma quiet_get_resource_ready reg s auto_save auto_create auto_link pre ign :
  quiet (get_resource_ready E reg s auto_save auto_create auto_link pre ign).
Proof.
  unfold get_resource_ready. apply quiet_body. intros ls pre'.
  apply quiet_bind; [| intros; quiet_auto].
  unfold get_resource_ready_unlinked. apply quiet_body. intros; quiet_auto.
Qed.

(** The body does not use the linked call unless [auto_link] is set, so the
    method with [auto_link=False] is the instance the linked call runs. *)
Lemma get_resource_ready_no_link reg s auto_save auto_create pre ign :
  get_resource_ready E reg s auto_save auto_create false pre ign
  = get_resource_ready_unlinked E reg s auto_save auto_create pre ign.
Proof. reflexivity. Qed.

(** An action that, when it returns, has reported on [l] once, and when it
    raises has reported on nothing. *)
Definition reports_once {A : Type} (l : Link) (m : M A) : Prop :=
  forall w,
    match m w with
    | (Ok _, w') => outcomes (log w') = outcomes (log w) ++ [l]
    | (Raise _, w') => outcomes (log w') = outcomes (log w)
    end.

Lemma reports_once_bind {A B : Type} l (m : M A) (k : A -> M B) :
  quiet m -> (forall a, reports_once l (k a)) -> reports_once l (bind m k).
Proof.
  intros Hm Hk w. unfold bind. specialize (Hm w).
  destruct (m w) as [[a|e] w1]; simpl in Hm; [| done].
  specialize (Hk a w1). destruct (k a w1) as [[b|e] w2]; by rewrite Hk, Hm.
Qed.

Lemma reports_once_logger l e :
  crawl_outcome e = Some l -> reports_once l (logger e).
Proof.
  intros He w. simpl. unfold outcomes. rewrite omap_app. simpl. by rewrite He.
Qed.

Lemma crawl_link_reports reg r l : reports_once l (crawl_link E reg r l).
Proof.
  unfold crawl_link. cbv zeta.
  apply reports_once_bind.
  { destruct (match truthy_str (l_id_value l), truthy_str (l_id_type l) with
              | Some v, Some t => get_site_by_id reg t v
              | _, _ => None
              end); [quiet_auto |].
    destruct (truthy_str (l_url l)); [apply quiet_get_site_by_url | quiet_auto]. }
  intros site. apply reports_once_bind.
  { destruct site as [st|]; [| quiet_auto].
    apply quiet_bind; [apply quiet_get_resource_ready | intros [res st1]].
    apply quiet_bind; [apply quiet_get_item | intros [item st2]].
    apply quiet_bind; [| intros; quiet_auto].
    destruct item as [i|]; [| quiet_auto]. destruct res as [rs|]; [| quiet_auto].
    destruct (link_in l (prematched_resources r)); [| quiet_auto].
    apply quiet_bind; [quiet_auto | intros itbl].
    apply quiet_bind; [quiet_auto | intros; quiet_auto]. }
  intros [i|]; by apply reports_once_logger.
Qed.

(** One turn of the loop: the link is reported on, and nothing is raised. *)
Lemma crawl_link_guarded reg r l w :
  exists w',
    try_except (crawl_link E reg r l) (fun e => logger (CrawlError l e)) w = (Ok tt, w') /\
    outcomes (log w') = outcomes (log w) ++ [l] /\
    (forall e w1, crawl_link E reg r l w = (Raise e, w1) ->
       w' = (logger (CrawlError l e) w1).2).
Proof.
  pose proof (crawl_link_reports reg r l w) as H. unfold try_except.
  destruct (crawl_link E reg r l w) as [[[]|e] w1].
  - exists w1. split; [done |]. split; [done |]. intros ? ? [=].
  - eexists. split; [reflexivity |]. simpl. split.
    + unfold outcomes in *. rewrite omap_app. simpl. by rewrite H.
    + by intros ? ? [= <- <-].
Qed.

Lemma crawl_links_complete reg r links w :
  exists w',
    crawl_links E reg r links w = (Ok tt, w') /\
    outcomes (log w') = outcomes (log w) ++ links.
Proof.
  revert w. induction links as [|l rest IH]; intros w.
  - exists w. split; [done |]. by rewrite app_nil_r.
  - destruct (crawl_link_guarded reg r l w) as (w1 & Hstep & Hout & _).
    destruct (IH w1) as (w2 & Hrest & Hout2).
    exists w2. cbn [crawl_links]. unfold bind. rewrite Hstep. split; [done |].
    by rewrite Hout2, Hout, <- app_assoc.
Qed.

(** C7. The crawl task never raises. For a stored resource every link of
    [related_resources] followed by [prematched_resources] is reported on
    once, in that order, whatever the processing of the links raises; a link
    whose processing raises is reported by the warning that carries the
    exception, and the loop goes on with the next link. When the resource is
    not found the task logs it and returns. *)
Theorem crawl_task_always_completes (reg : Registry) (resource_pk : option Z)
    (w : World) :
  exists w',
    crawl_related_resources_task E reg resource_pk w = (Ok tt, w') /\
    match resource_by_pk (resources w) resource_pk with
    | Some r =>
      outcomes (log w')
      = outcomes (log w) ++ related_resources r ++ prematched_resources r
    | None => log w' = log w ++ [CrawlResourceNotFound resource_pk]
    end /\
    (forall r l rest w0 e w1,
        crawl_link E reg r l w0 = (Raise e, w1) ->
        crawl_links E reg r (l :: rest) w0
        = crawl_links E reg r rest (logger (CrawlError l e) w1).2).
Proof.
  unfold crawl_related_resources_task, bind, gets.
  destruct (resource_by_pk (resources w) resource_pk) as [r|].
  - destruct (crawl_links_complete reg r
                (related_resources r ++ prematched_resources r) w) as (w' & H1 & H2).
    exists w'. split; [done |]. split; [done |].
    intros r0 l rest w0 e w1 Hraise. cbn [crawl_links]. unfold bind, try_except.
    by rewrite Hraise.
  - eexists. split; [reflexivity |]. split; [done |].
    intros r0 l rest w0 e w1 Hraise. cbn [crawl_links]. unfold bind, try_except.
    by rewrite Hraise.
Qed.

End WithEnv.

(** *** Concrete runs *)

Definition with_content (r : ExternalResource) (rc : ResourceContent) : ExternalResource :=
  {| pk := pk r; id_type := id_type r; id_value := id_value r; url := url r;
     item_id := item_id r; metadata := rc_metadata rc;
     other_lookup_ids := lookup_ids rc;
     related_resources := related_resources r;
     prematched_resources := prematched_resources r;
     required_resources := required_resources r |}.

(** Collaborators for the runs below: a resource is ready once it has
    metadata, updating its content stores it, and the Item methods leave
    the Item as it is. *)
Definition env0 : Env :=
  {| md5_hexdigest := fun s => s;
     url_validate := fun s => String.prefix "http" s;
     requests_head := fun u => Some u;
     IdealIdTypes := ["isbn"; "imdb"]%string;
     ready := fun r => match metadata r with [] => false | _ => true end;
     update_content := fun r rc tbl =>
       let r1 := with_content r rc in
       match pk r1 with
       | Some k =>
         Ok (r1, map (fun x => if optZ_eqb (pk x) (Some k) then r1 else x) tbl)
       | None =>
         let r2 := with_pk r1 (next_resource_pk tbl) in Ok (r2, tbl ++ [r2])
       end;
     get_item_model := fun _ d => d;
     get_lookup_ids := fun r _ => other_lookup_ids r;
     get_all_lookup_ids := fun r => other_lookup_ids r;
     get_best_lookup_id := fun _ ids =>
       match ids with
       | (t, v) :: _ => (Some t, Some v)
       | [] => (None, None)
       end;
     copy_metadata := fun _ md => md;
     merge_data_from_external_resources := fun i _ _ => Ok i;
     ap_object := fun _ => Ok tt;
     normalize_language := fun i => i;
     update_linked_items_from_external_resource := fun i _ _ => Ok i;
     merge_data_from_external_resource := fun _ _ tbl => Ok tbl;
     str_resource := fun r => default "" (url r) |}.

(** A scraper that fails on subject 1, finds nothing on subject 3 and finds
    a title elsewhere. *)
Definition scrape0 (url id_value : option string) : result ResourceContent :=
  match id_value with
  | Some "1"%string => Raise (Exception "DownloadError" "timeout")
  | Some "3"%string => AbstractSite.scrape url id_value
  | _ =>
    Ok {| lookup_ids := [("isbn", "9787020002207")]%string;
          rc_metadata := [("title"%string, VStr "Hyperion")];
          cover_image := None; cover_image_extention := None |}
  end.

Definition DoubanBook0 : SiteClass := DoubanBook.class scrape0.
Definition DoubanBook_Work0 : SiteClass := DoubanBook_Work.class scrape0.

Definition reg0 : Registry :=
  [(ID_TYPE DoubanBook0, DoubanBook0); (ID_TYPE DoubanBook_Work0, DoubanBook_Work0)].

Definition url_link (u : string) : Link :=
  {| l_url := Some u; l_id_type := None; l_id_value := None; l_content := None |}.

Definition item1 : Item :=
  {| i_pk := 10; class_name := "Edition";
     primary_lookup_id_type := Some "doubanbook"%string;
     primary_lookup_id_value := Some "2"%string;
     merged_to_item := None; i_metadata := [] |}.

(** Resource B, an edition page that owns [item1]. *)
Definition resource_b : ExternalResource :=
  {| pk := Some 1; id_type := Some "doubanbook"%string; id_value := Some "2"%string;
     url := Some "https://book.douban.com/subject/2/"%string;
     item_id := Some 10; metadata := [("title"%string, VStr "Hyperion")];
     other_lookup_ids := [("isbn", "9787020002207")]%string;
     related_resources := []; prematched_resources := [];
     required_resources := [] |}.

(** Resource A, a work page with a prematched link to B and two related
    links. *)
Definition resource_a : ExternalResource :=
  {| pk := Some 2; id_type := Some "doubanbook_work"%string;
     id_value := Some "7"%string;
     url := Some "https://book.douban.com/works/7/"%string;
     item_id := None; metadata := [("title"%string, VStr "Hyperion")];
     other_lookup_ids := [];
     related_resources :=
       [url_link "https://book.douban.com/subject/1/";
        url_link "https://book.douban.com/subject/4/"];
     prematched_resources := [url_link "https://book.douban.com/subject/2/"];
     required_resources := [] |}.

Definition world0 : World :=
  {| resources := [resource_b; resource_a]; items := [item1]; cache := ∅;
     now := 0; log := []; crawl_queue := []; actions := [] |}.

Lemma fk_ok_world0 : fk_ok world0.
Proof.
  intros r k [<-|[<-|[]]]; simpl; [| discriminate]. by intros [= <-].
Qed.

(** [E] with another answer to HEAD requests. *)
Definition with_head (E : Env) (head : string -> option string) : Env :=
  {| md5_hexdigest := md5_hexdigest E;
     url_validate := url_validate E;
     requests_head := head;
     IdealIdTypes := IdealIdTypes E;
     ready := ready E;
     update_content := update_content E;
     get_item_model := get_item_model E;
     get_lookup_ids := get_lookup_ids E;
     get_all_lookup_ids := get_all_lookup_ids E;
     get_best_lookup_id := get_best_lookup_id E;
     copy_metadata := copy_metadata E;
     merge_data_from_external_resources := merge_data_from_external_resources E;
     ap_object := ap_object E;
     normalize_language := normalize_language E;
     update_linked_items_from_external_resource :=
       update_linked_items_from_external_resource E;
     merge_data_from_external_resource := merge_data_from_external_resource E;
     str_resource := str_resource E |}.

(** A server that sends the page of work 7 to a page no adapter knows. *)
Definition env_moved : Env :=
  with_head env0 (fun u =>
    if String.eqb u "https://book.douban.com/works/7"
    then Some "https://www.douban.com/gone"%string else Some u).

(** The whole order at work: nothing is cached, so a HEAD request is made
    and its answer cached; neither class accepts the canonical URL, by
    pattern or by fallback; on the original URL DoubanBook, registered first,
    declines, DoubanBook_Work accepts, and the adapter is built from the
    original URL. *)
Lemma get_site_by_url_resolution_order_witness :
  get_site_by_url env_moved reg0 "https://book.douban.com/works/7" true world0
  = (Ok (Some (new_site DoubanBook_Work0
                 (Some "https://book.douban.com/works/7"%string) None)),
     set_cache (Cache.set ∅ 0 (redirect_key env_moved "https://book.douban.com/works/7")
                  (VStr "https://www.douban.com/gone") 3600) world0).
Proof.
  assert (Hvalid : "https://book.douban.com/works/7"%string <> EmptyString /\
                   url_validate env_moved "https://book.douban.com/works/7" = true)
    by (split; [discriminate | vm_compute; reflexivity]).
  assert (Hmiss : forall c, Cache.get (cache world0) (now world0)
                    (redirect_key env_moved "https://book.douban.com/works/7")
                    <> Some (VStr c))
    by (intros c; vm_compute; discriminate).
  assert (Hhead : requests_head env_moved "https://book.douban.com/works/7"
                  = Some "https://www.douban.com/gone"%string)
    by (vm_compute; reflexivity).
  destruct (proj2 (get_site_by_url_resolution_order env_moved reg0
                     "https://book.douban.com/works/7" true world0) Hvalid)
    as (u & w' & o & Hcan & Hres & ->).
  destruct (canonical_functional env_moved _ _ _ _ _ _ _ Hcan
              (head_answered env_moved "https://book.douban.com/works/7" true world0
                 "https://www.douban.com/gone" Hmiss eq_refl Hhead))
    as [-> ->].
  assert (Ho : o = Some (DoubanBook_Work0, "https://book.douban.com/works/7"%string)).
  { apply (resolves_functional reg0 _ _ _ _ Hres).
    apply by_original_pattern.
    - constructor; [vm_compute; reflexivity |].
      constructor; [vm_compute; reflexivity |]. constructor.
    - constructor; [vm_compute; reflexivity |].
      constructor; [vm_compute; reflexivity |]. constructor.
    - discriminate.
    - exists [DoubanBook0], []. split; [reflexivity |].
      split; [| vm_compute; reflexivity].
      constructor; [vm_compute; reflexivity | constructor]. }
  rewrite Ho. vm_compute. reflexivity.
Defined.

(** An empty URL, and one the validator refuses, give none. *)
Example get_site_by_url_invalid :
  get_site_by_url env0 reg0 "" true world0 = (Ok None, world0) /\
  get_site_by_url env0 reg0 "book.douban.com/works/7" true world0 = (Ok None, world0).
Proof. split; vm_compute; reflexivity. Qed.

(** A cached redirect is followed without a request: the mobile page is
    resolved by the pattern of DoubanBook on the cached canonical URL. *)
Example get_site_by_url_cached_redirect :
  let w := set_cache (Cache.set ∅ 0 (redirect_key env0 "https://m.douban.com/x/2")
                        (VStr "https://book.douban.com/subject/2/") 3600) world0 in
  get_site_by_url env0 reg0 "https://m.douban.com/x/2" false w
  = (Ok (Some (new_site DoubanBook0 None (Some "2"%string))), w).
Proof. vm_compute. reflexivity. Qed.

Example get_site_by_url_works :
  (get_site_by_url env0 reg0 "https://book.douban.com/works/7" true world0).1
  = Ok (Some {| cls := DoubanBook_Work0; s_id_value := Some "7"%string;
                s_url := Some "https://book.douban.com/works/7/"%string;
                resource := None |}).
Proof. vm_compute. reflexivity. Qed.

Lemma prematched_short_circuit_witness :
  match_existing_item_for_resource env0 DoubanBook_Work0 resource_a world0
  = (Ok (Some item1), world0).
Proof.
  refine (proj1 (prematched_short_circuit env0 DoubanBook_Work0 resource_a world0
                   [] [] (url_link "https://book.douban.com/subject/2/") item1
                   fk_ok_world0 eq_refl _ eq_refl)).
  intros l' [].
Defined.

Example match_or_create_prematched :
  let out := match_or_create_item_for_resource env0 DoubanBook_Work0 resource_a world0 in
  out.1 = Ok (Some item1, with_item resource_a (Some 10)) /\
  items out.2 = [item1] /\
  actions out.2 = [ {| act_item := 10; act_name := "!match"; act_old := "";
                       act_new := "https://book.douban.com/works/7/" |} ].
Proof. vm_compute. repeat split. Qed.

(** A resource whose own id is the primary id of [item1], with an ISBN
    among its lookup ids. *)
Definition resource_c : ExternalResource :=
  {| pk := Some 3; id_type := Some "doubanbook"%string; id_value := Some "2"%string;
     url := Some "https://book.douban.com/subject/2/"%string;
     item_id := None; metadata := [("title"%string, VStr "Hyperion")];
     other_lookup_ids := [("isbn", "9787020002207")]%string;
     related_resources := []; prematched_resources := [];
     required_resources := [] |}.

Lemma id_upgrade_witness :
  match_existing_item_for_resource env0 DoubanBook0 resource_c world0
  = (Ok (Some (set_primary_lookup_id item1 "isbn" "9787020002207")),
     set_items [set_primary_lookup_id item1 "isbn" "9787020002207"] world0).
Proof.
  refine (proj1 (id_upgrade env0 DoubanBook0 resource_c world0 "Edition"
                   [] [] "isbn" "9787020002207" item1 item1
                   fk_ok_world0 _ eq_refl eq_refl _ eq_refl eq_refl eq_refl eq_refl)).
  - intros l [].
  - intros t' v' [].
Defined.

(** Subject 3 has no metadata after the scrape. *)
Definition site3 : Site := new_site DoubanBook0 None (Some "3"%string).

Lemma not_ready_is_terminal_witness :
  (get_resource_ready env0 reg0 site3 true true true NoContent false world0).1
  = Ok (None,
        with_resource site3
          (with_pk (new_resource (Some "doubanbook"%string) (Some "3"%string)
                      (Some "https://book.douban.com/subject/3/"%string)) 3)).
Proof.
  refine (proj1 (not_ready_is_terminal env0 reg0 site3 true true true NoContent false
                   world0 _ _ _ _));
    [vm_compute; reflexivity | reflexivity].
Defined.

(** The crawl of resource A: the first related link raises in the scraper,
    the second one and the prematched one are still processed. *)
Example crawl_goes_on_after_error :
  let out := crawl_related_resources_task env0 reg0 (Some 2) world0 in
  out.1 = Ok tt /\
  outcomes (log out.2)
  = [url_link "https://book.douban.com/subject/1/";
     url_link "https://book.douban.com/subject/4/";
     url_link "https://book.douban.com/subject/2/"] /\
  head (log out.2)
  = Some (CrawlError (url_link "https://book.douban.com/subject/1/")
            (Exception "DownloadError" "timeout")).
Proof. vm_compute. repeat split. Qed.

End SitesProofs.

(** ** More on the search pass: what the key deduplication keeps *)

Module SearchInvariants.
Import Search SearchProofs.

Lemma enumerate_snoc (l : list Item) (x : Item) :
  enumerate (l ++ [x]) = enumerate l ++ [(length l, x)].
Proof.
  unfold enumerate. rewrite imap_app. simpl. by rewrite Nat.add_0_r.
Qed.

Lemma dedup_pass_snoc (l : list Item) (x : Item) :
  dedup_pass (l ++ [x]) = dedup_step (dedup_pass l) (length l, x).
Proof. unfold dedup_pass. by rewrite enumerate_snoc, foldl_app. Qed.

Lemma claim_keys_lookup keys ks r k :
  claim_keys keys ks r !! k = if bool_decide (k ∈ ks) then Some r else keys !! k.
Proof.
  unfold claim_keys. revert keys. induction ks as [|k0 ks IH]; intros keys; [done |].
  simpl. rewrite IH. destruct (decide (k = k0)) as [->|Hne].
  - rewrite lookup_insert_eq. rewrite (bool_decide_eq_true_2 (k0 ∈ k0 :: ks)) by left.
    by case_bool_decide.
  - rewrite lookup_insert_ne by done.
    destruct (decide (k ∈ ks)) as [Hin|Hnin].
    + rewrite !bool_decide_eq_true_2; [done | by right | done].
    + rewrite !bool_decide_eq_false_2; [done | | done].
      intros Hin. apply elem_of_cons in Hin as [?|?]; done.
Qed.

Lemma find_dup_by_Some keys ks r :
  find_dup_by keys ks = Some r -> exists k, In k ks /\ keys !! k = Some r.
Proof.
  induction ks as [|k ks IH]; [done |]. simpl.
  destruct (keys !! k) as [r'|] eqn:Hk.
  - intros [= ->]. exists k. split; [by left | done].
  - intros H. destruct (IH H) as (k' & Hin & Hk'). exists k'. split; [by right | done].
Qed.

Lemma find_dup_by_None keys ks :
  find_dup_by keys ks = None -> forall k, In k ks -> keys !! k = None.
Proof.
  induction ks as [|k0 ks IH]; [done |]. simpl.
  destruct (keys !! k0) eqn:Hk; [done |].
  intros H k [<-|Hin]; [done | by apply IH].
Qed.

(** No key of [a] is a key of any element of [l]. *)
Definition keys_apart (a : Item) (l : list Item) : Prop :=
  forall b k, In b l -> In k (my_key a) -> ~ In k (my_key b).

(** No two elements of the list claim a common key. *)
Fixpoint keys_disjoint (l : list Item) : Prop :=
  match l with
  | [] => True
  | a :: l' => keys_apart a l' /\ keys_disjoint l'
  end.

Lemma keys_disjoint_snoc l x :
  keys_disjoint l -> (forall a, In a l -> keys_apart a [x]) -> keys_disjoint (l ++ [x]).
Proof.
  induction l as [|a l IH]; intros Hd Hx; simpl.
  - split; [| done]. by intros b k [].
  - destruct Hd as [Ha Hd]. split.
    + intros b k Hb Hk. apply in_app_or in Hb as [Hb|Hb].
      * by apply (Ha b k).
      * apply (Hx a); [by left | done | done].
    + apply IH; [done |]. intros a' Ha'. apply Hx. by right.
Qed.

Lemma keys_disjoint_sublist l1 l2 :
  sublist l1 l2 -> keys_disjoint l2 -> keys_disjoint l1.
Proof.
  induction 1 as [|x l1 l2 Hs IH|x l1 l2 Hs IH]; simpl; [done | |].
  - intros [Hx Hd]. split; [| by apply IH].
    intros b k Hb. apply Hx. apply list_elem_of_In.
    eapply elem_of_sublist; [by apply list_elem_of_In | exact Hs].
  - intros [_ Hd]. by apply IH.
Qed.

(** The objects of [l] with an object appended to the [dupe_to] of one of
    them. *)
Definition all_dupes (h : dupes) (l : list obj) : list Item :=
  concat (map (fun o => dupe_to h (fst o)) l).

Lemma all_dupes_add_fresh h l r i :
  ~ In r (map fst l) -> all_dupes (add_dupe h r i) l = all_dupes h l.
Proof.
  unfold all_dupes. induction l as [|o l IH]; [done |]. intros Hnin.
  assert (Hne : r <> fst o) by (intros ->; apply Hnin; by left).
  assert (Hnin' : ~ In r (map fst l)) by (intros Hin; apply Hnin; by right).
  simpl. rewrite (IH Hnin'). f_equal.
  unfold dupe_to at 1, add_dupe. by rewrite lookup_insert_ne.
Qed.

Lemma all_dupes_add h l r i :
  NoDup (map fst l) -> In r (map fst l) ->
  Permutation (all_dupes (add_dupe h r i) l) (i :: all_dupes h l).
Proof.
  unfold all_dupes. induction l as [|o l IH]; [done |]. simpl.
  intros Hnd Hin. apply NoDup_cons in Hnd as [Hfresh Hnd].
  destruct (decide (fst o = r)) as [Heq|Hne].
  - subst r. rewrite dupe_to_add_same.
    fold (all_dupes (add_dupe h (fst o) i) l). fold (all_dupes h l).
    rewrite all_dupes_add_fresh by (by rewrite <- list_elem_of_In).
    rewrite <- app_assoc. simpl.
    by rewrite <- Permutation_middle.
  - destruct Hin as [?|Hin]; [done |].
    assert (Hsame : dupe_to (add_dupe h r i) (fst o) = dupe_to h (fst o)).
    { unfold dupe_to at 1, add_dupe. by rewrite lookup_insert_ne. }
    rewrite Hsame, (IH Hnd Hin). by rewrite <- Permutation_middle.
Qed.

(** What holds after the loop has gone through the results [l]. *)
Record pass_inv (l : list Item) (st : pass_state) : Prop := {
  inv_sublist : sublist (items st) (enumerate l);
  inv_values : forall k r, keys st !! k = Some r -> In r (map fst (items st));
  inv_claimed : forall o k, In o (items st) -> In k (my_key (snd o)) ->
                  keys st !! k <> None;
  inv_disjoint : keys_disjoint (map snd (items st));
  inv_heap : forall r, dupe st !! r <> None -> In r (map fst (items st));
  inv_refs : forall o, In o (items st) -> (fst o < length l)%nat;
  inv_nodup : NoDup (map fst (items st));
  inv_perm : Permutation l (map snd (items st) ++ all_dupes (dupe st) (items st));
  inv_urls : urls st = concat (map external_resources l)
}.

Lemma pass_inv_init : pass_inv [] pass_init.
Proof.
  split; simpl; try done; try constructor.
Qed.

Lemma fresh_ref l st :
  pass_inv l st -> ~ In (length l) (map fst (items st)).
Proof.
  intros Hinv Hin. apply in_map_iff in Hin as (o & Ho & Hin).
  pose proof (inv_refs _ _ Hinv o Hin). lia.
Qed.

Lemma all_dupes_snoc_fresh h l o :
  h !! fst o = None -> all_dupes h (l ++ [o]) = all_dupes h l.
Proof.
  intros Hn. unfold all_dupes. rewrite map_app, concat_app. simpl.
  unfold dupe_to at 2. rewrite Hn. simpl. by rewrite !app_nil_r.
Qed.

(** The state after appending the object to the emitted list. *)
Lemma pass_inv_emit l st x keys' :
  pass_inv l st ->
  (forall k r, keys' !! k = Some r ->
     keys st !! k = Some r \/ (r = length l /\ In k (my_key x))) ->
  (forall k, keys st !! k <> None -> keys' !! k <> None) ->
  (forall k, In k (my_key x) -> keys' !! k <> None) ->
  (forall k, In k (my_key x) -> keys st !! k = None) ->
  pass_inv (l ++ [x])
    {| keys := keys'; items := items st ++ [(length l, x)]; dupe := dupe st;
       urls := urls st ++ external_resources x |}.
Proof.
  intros Hinv Hvals Hmono Hnew Hfree.
  pose proof (fresh_ref l st Hinv) as Hfresh.
  assert (Hnoheap : dupe st !! length l = None).
  { destruct (dupe st !! length l) eqn:Hh; [| done].
    exfalso. apply Hfresh. apply (inv_heap _ _ Hinv). by rewrite Hh. }
  split; simpl.
  - rewrite enumerate_snoc. apply sublist_app; [apply Hinv | done].
  - intros k r Hk. rewrite map_app. apply in_or_app.
    destruct (Hvals k r Hk) as [Hold|[-> _]].
    + left. by apply (inv_values _ _ Hinv k).
    + right. by left.
  - intros o k Ho Hk. apply in_app_or in Ho as [Ho|[<-|[]]].
    + apply Hmono. by apply (inv_claimed _ _ Hinv o).
    + by apply Hnew.
  - rewrite map_app. simpl. apply keys_disjoint_snoc; [apply Hinv |].
    intros a Ha b k [<-|[]] Hka Hkx.
    apply in_map_iff in Ha as (o & <- & Ho).
    apply (inv_claimed _ _ Hinv o k Ho Hka). by apply Hfree.
  - intros r Hr. rewrite map_app. apply in_or_app. left. by apply (inv_heap _ _ Hinv).
  - intros o Ho. rewrite length_app. simpl.
    apply in_app_or in Ho as [Ho|[<-|[]]]; simpl; [| lia].
    pose proof (inv_refs _ _ Hinv o Ho). lia.
  - rewrite map_app. simpl. apply NoDup_app. split; [apply Hinv |]. split.
    + intros r Hr Hr'. apply list_elem_of_singleton in Hr'. subst r.
      apply Hfresh. by apply list_elem_of_In.
    + apply NoDup_singleton.
  - rewrite map_app. simpl. rewrite (all_dupes_snoc_fresh _ _ (length l, x)) by done.
    rewrite (inv_perm _ _ Hinv) at 1.
    rewrite <- !app_assoc. apply Permutation_app_head. apply Permutation_app_comm.
  - rewrite (inv_urls _ _ Hinv), map_app, concat_app. simpl. by rewrite app_nil_r.
Qed.

Lemma pass_inv_step l st x :
  pass_inv l st -> pass_inv (l ++ [x]) (dedup_step st (length l, x)).
Proof.
  intros Hinv. unfold dedup_step.
  destruct (my_key x) as [|k0 ks] eqn:Hmk.
  - simpl. apply pass_inv_emit; try done.
    + intros k r Hk. by left.
    + rewrite Hmk. by intros k [].
    + rewrite Hmk. by intros k [].
  - rewrite <- Hmk.
    destruct (find_dup_by (keys st) (my_key x)) as [r|] eqn:Hfind;
      cbn [keys items dupe urls].
    + destruct (find_dup_by_Some _ _ _ Hfind) as (kr & Hkr & Hr).
      pose proof (inv_values _ _ Hinv kr r Hr) as Hrin.
      split; cbn [keys items dupe urls].
      * rewrite enumerate_snoc. apply sublist_inserts_r. apply Hinv.
      * intros k r'. rewrite claim_keys_lookup. case_bool_decide.
        -- by intros [= <-].
        -- apply (inv_values _ _ Hinv).
      * intros o k Ho Hk. rewrite claim_keys_lookup. case_bool_decide; [done |].
        by apply (inv_claimed _ _ Hinv o).
      * apply Hinv.
      * intros r'. unfold add_dupe. destruct (decide (r = r')) as [<-|Hne].
        -- done.
        -- rewrite lookup_insert_ne by done. apply (inv_heap _ _ Hinv).
      * intros o Ho. rewrite length_app. simpl.
        pose proof (inv_refs _ _ Hinv o Ho). lia.
      * apply Hinv.
      * rewrite (all_dupes_add _ _ r x (inv_nodup _ _ Hinv) Hrin).
        rewrite (inv_perm _ _ Hinv) at 1.
        rewrite <- app_assoc. apply Permutation_app_head.
        symmetry. apply Permutation_cons_append.
      * rewrite (inv_urls _ _ Hinv), map_app, concat_app. simpl. by rewrite app_nil_r.
    + apply pass_inv_emit; try done.
      * intros k r. rewrite claim_keys_lookup. case_bool_decide as Hin.
        -- intros [= <-]. right. split; [done |]. by apply list_elem_of_In.
        -- by left.
      * intros k. rewrite claim_keys_lookup. by case_bool_decide.
      * intros k Hk. rewrite claim_keys_lookup.
        rewrite bool_decide_eq_true_2; [done | by apply list_elem_of_In].
      * by apply find_dup_by_None.
Qed.

Lemma dedup_pass_inv (l : list Item) : pass_inv l (dedup_pass l).
Proof.
  induction l as [|x l IH] using rev_ind; [apply pass_inv_init |].
  rewrite dedup_pass_snoc. by apply pass_inv_step.
Qed.

Lemma map_snd_enumerate (l : list Item) : map snd (enumerate l) = l.
Proof.
  induction l as [|x l IH] using rev_ind; [done |].
  rewrite enumerate_snoc, map_app. simpl. by f_equal.
Qed.

Lemma py_remove_sublist x l : sublist (py_remove x l) l.
Proof.
  induction l as [|o l IH]; simpl; [constructor |].
  destruct (item_eqb (snd o) x); [by apply sublist_cons | by apply sublist_skip].
Qed.

Lemma hide_fold_sublist ss its h :
  sublist (fst (foldl hide_step (its, h) ss)) its.
Proof.
  revert its h. induction ss as [|s ss IH]; intros its h; [done |].
  simpl. unfold hide_step at 2. simpl.
  destruct (show (snd s)) as [sh|]; [| apply IH].
  destruct (py_in sh its); [| apply IH].
  etransitivity; [apply IH | apply py_remove_sublist].
Qed.

Lemma map_fst_emit its h : map fst (emit its h) = map snd its.
Proof. unfold emit. rewrite map_map. done. Qed.

Lemma sublist_map {A B : Type} (f : A -> B) (l1 l2 : list A) :
  sublist l1 l2 -> sublist (map f l1) (map f l2).
Proof.
  induction 1; simpl; [constructor | by apply sublist_skip | by apply sublist_cons].
Qed.

(** X2. The key-deduplication loop hides results, it never loses or
    repeats one: the results of the index are, up to order, the emitted
    objects together with the contents of their [dupe_to] lists. *)
Theorem dedup_pass_conserves (l : list Item) :
  Permutation l
    (map snd (items (dedup_pass l))
     ++ concat (map (fun o => dupe_to (dupe (dedup_pass l)) (fst o))
                  (items (dedup_pass l)))).
Proof. apply (inv_perm _ _ (dedup_pass_inv l)). Qed.

Section WithIndex.

Variable Query : Type.
Variable CatalogQueryParser : Keywords -> Z -> QueryArgs -> Query.
Variable query_bool : Query -> bool.
Variable query_q : Query -> Keywords.
Variable index_search : Query -> SearchResult.
Variable format_keywords : Keywords -> string.

Local Abbreviation query_index :=
  (query_index Query CatalogQueryParser query_bool query_q index_search format_keywords).

(** The emitted objects are a subsequence of the first-pass list. *)
Lemma emitted_sublist keywords categories page prepare_external exclude per_page
    now (w : World Query) :
  invalid_input keywords page = false ->
  query_bool (CatalogQueryParser keywords page (query_args categories exclude per_page))
  = true ->
  sublist
    (map fst (o_items (fst (query_index keywords categories page prepare_external
                              exclude per_page now w))))
    (map snd (items (dedup_pass
       (r_items (index_search
          (CatalogQueryParser keywords page (query_args categories exclude per_page))))))).
Proof.
  intros Hv Hq. unfold Search.query_index. rewrite Hv, Hq. simpl.
  unfold hide_shows.
  set (st := dedup_pass _).
  pose proof (hide_fold_sublist (List.filter is_season (items st)) (items st) (dupe st))
    as Hs.
  destruct (foldl hide_step (items st, dupe st) _) as [its h]. simpl in *.
  destruct prepare_external; simpl; rewrite map_fst_emit; by apply sublist_map.
Qed.

(** X1. No two emitted results claim a common key: an item that shares its
    identifier (ISBN, IMDb code or barcode) or its work with an earlier
    result is never emitted beside it. *)
Theorem emitted_keys_disjoint keywords categories page prepare_external exclude
    per_page now (w : World Query) :
  keys_disjoint
    (map fst (o_items (fst (query_index keywords categories page prepare_external
                              exclude per_page now w)))).
Proof.
  destruct (invalid_input keywords page) eqn:Hv.
  { unfold Search.query_index. by rewrite Hv. }
  destruct (query_bool (CatalogQueryParser keywords page
                          (query_args categories exclude per_page))) eqn:Hq.
  2:{ unfold Search.query_index. by rewrite Hv, Hq. }
  eapply keys_disjoint_sublist; [by apply emitted_sublist |].
  apply (inv_disjoint _ _ (dedup_pass_inv _)).
Qed.

(** X3. The emitted results are a subsequence of the results of the index:
    the pass keeps the ranking order and emits nothing the index did not
    return. *)
Theorem emitted_in_index_order keywords categories page prepare_external exclude
    per_page now (w : World Query) :
  sublist
    (map fst (o_items (fst (query_index keywords categories page prepare_external
                              exclude per_page now w))))
    (r_items (index_search
       (CatalogQueryParser keywords page (query_args categories exclude per_page)))).
Proof.
  destruct (invalid_input keywords page) eqn:Hv.
  { unfold Search.query_index. rewrite Hv. apply sublist_nil_l. }
  destruct (query_bool (CatalogQueryParser keywords page
                          (query_args categories exclude per_page))) eqn:Hq.
  2:{ unfold Search.query_index. rewrite Hv, Hq. apply sublist_nil_l. }
  etransitivity; [by apply emitted_sublist |].
  rewrite <- (map_snd_enumerate (r_items _)) at 2.
  apply sublist_map. apply (inv_sublist _ _ (dedup_pass_inv _)).
Qed.

(** The key under which the site urls of a search are cached. *)
Definition search_cache_key (categories : option (list string)) (keywords : Keywords)
    : string :=
  "search_" +:+ join "," (default [] categories) +:+ "_" +:+ format_keywords keywords.

(** X4. With [prepare_external], a search that reaches the index caches for
    300 seconds, under the key of its categories and keywords, a list without
    repetition that holds the url of every external resource of every result
    of the index, the hidden duplicates included, and every url cached there
    before. *)
Theorem search_caches_all_urls keywords categories page exclude per_page now
    (w : World Query) :
  invalid_input keywords page = false ->
  query_bool (CatalogQueryParser keywords page (query_args categories exclude per_page))
  = true ->
  let q := CatalogQueryParser keywords page (query_args categories exclude per_page) in
  let w' := snd (query_index keywords categories page true exclude per_page now w) in
  exists l,
    cache Query w' !! search_cache_key categories keywords
    = Some (Cache.Entry (VList l) (now + 300)) /\
    NoDup l /\
    (forall i u, In i (r_items (index_search q)) -> In u (external_resources i) ->
       In u l) /\
    (forall old u,
       Cache.get (cache Query w) now (search_cache_key categories keywords)
       = Some (VList old) -> In u old -> In u l).
Proof.
  intros Hv Hq q w'. change (query_bool q = true) in Hq.
  subst w'. unfold Search.query_index. rewrite Hv. fold q.
  rewrite Hq. simpl. unfold hide_shows.
  destruct (foldl hide_step _ _) as [its h]. simpl.
  fold (search_cache_key categories keywords).
  eexists. split; [apply lookup_insert_eq |].
  split; [apply NoDup_remove_dups |].
  rewrite (inv_urls _ _ (dedup_pass_inv (r_items (index_search q)))).
  split.
  - intros i u Hi Hu. apply list_elem_of_In, elem_of_remove_dups, list_elem_of_In.
    apply in_or_app. right. apply in_concat. exists (external_resources i).
    split; [by apply in_map | done].
  - intros old u Hold Hu. rewrite Hold.
    apply list_elem_of_In, elem_of_remove_dups, list_elem_of_In.
    apply in_or_app. by left.
Qed.

End WithIndex.

Lemma search_caches_all_urls_witness :
  exists l,
    cache _ (snd (query_index1 (KwStr "breaking") None 1 true None 0 0 world0))
      !! search_cache_key format1 None (KwStr "breaking")
    = Some (Cache.Entry (VList l) 300) /\
    In "https://www.imdb.com/title/tt0903747/"%string l.
Proof.
  destruct (search_caches_all_urls (Keywords * Z) parser1 (fun _ => true) fst index1
              format1 (KwStr "breaking") None 1 None 0 0 world0 eq_refl eq_refl)
    as (l & Hl & _ & Hall & _).
  exists l. split; [exact Hl |].
  apply (Hall show1); [by left | by left].
Defined.

End SearchInvariants.

(** ** More on fetch admission: locks over time, idempotent enqueue, polling *)

Module FetchAdmissionExtra.
Import FetchAdmission FetchAdmissionProofs.

Lemma held_lock_kept DEBUG user url now c k :
  Cache.locked c now k = true ->
  (get_fetch_lock DEBUG user url now c).2 !! k = c !! k.
Proof.
  intros Hk.
  destruct (get_fetch_lock_outcome DEBUG user url now c) as [Ha|Ha Hu|Ha Hu Hne];
    simpl; [done | |].
  - unfold Cache.set. rewrite lookup_insert_ne; [done | congruence].
  - unfold Cache.set. rewrite !lookup_insert_ne; [done | congruence | congruence].
Qed.

(** X5. Test-and-set: a lock that is held when [get_fetch_lock] runs is left
    exactly as it is, whoever asks and for whatever URL; a denied attempt
    neither renews nor shortens it. *)
Theorem live_lock_untouched DEBUG user url now c k :
  Cache.locked c now k = true ->
  (get_fetch_lock DEBUG user url now c).2 !! k = c !! k.
Proof. apply held_lock_kept. Qed.

Lemma live_lock_untouched_witness :
  (get_fetch_lock false bob book_url 10 cache1).2 !! url_key book_url
  = cache1 !! url_key book_url.
Proof. apply (live_lock_untouched false bob book_url 10 cache1). reflexivity. Defined.

(** A stream of calls to [get_fetch_lock], each at its own instant. *)
Record request : Type := { rq_user : option User; rq_url : string; rq_time : Z }.

Fixpoint run_requests (DEBUG : bool) (reqs : list request) (c : Cache.t)
    : list bool * Cache.t :=
  match reqs with
  | [] => ([], c)
  | r :: rest =>
    let '(b, c1) := get_fetch_lock DEBUG (rq_user r) (rq_url r) (rq_time r) c in
    let '(bs, c2) := run_requests DEBUG rest c1 in
    (b :: bs, c2)
  end.

#[local] Instance User_eq_dec : EqDecision User.
Proof. solve_decision. Defined.

(** How many of the requests of actor [a] were admitted. *)
Fixpoint admissions (a : option User) (reqs : list request) (answers : list bool) : nat :=
  match reqs, answers with
  | r :: rest, b :: bs =>
    (if bool_decide (rq_user r = a) && b then 1 else 0) + admissions a rest bs
  | _, _ => 0
  end.

(** The gate of [a] is closed until the end of the window that starts at [t0]. *)
Definition closed_until (DEBUG : bool) (a : option User) (t0 : Z) (c : Cache.t) : Prop :=
  exists e, c !! actor_key a = Some e /\ truthy (Cache.value e) = true /\
            t0 + actor_ttl DEBUG a <= Cache.expiry e.

Lemma closed_locked DEBUG a t0 c t :
  closed_until DEBUG a t0 c -> t < t0 + actor_ttl DEBUG a ->
  Cache.locked c t (actor_key a) = true.
Proof.
  intros (e & He & Hv & Hexp) Ht. unfold Cache.locked, Cache.get. rewrite He.
  destruct (Z.ltb_spec t (Cache.expiry e)); [done | lia].
Qed.

Lemma closed_stays DEBUG a t0 c user url t :
  closed_until DEBUG a t0 c -> t < t0 + actor_ttl DEBUG a ->
  closed_until DEBUG a t0 (get_fetch_lock DEBUG user url t c).2.
Proof.
  intros Hc Ht. pose proof (closed_locked _ _ _ _ _ Hc Ht) as Hl.
  destruct Hc as (e & He & Hv & Hexp). exists e.
  by rewrite (held_lock_kept DEBUG user url t c _ Hl).
Qed.

Lemma pass_closes DEBUG a t0 c url t :
  t0 <= t -> Cache.locked c t (actor_key a) = false ->
  closed_until DEBUG a t0 (get_fetch_lock DEBUG a url t c).2.
Proof.
  intros Ht Hopen.
  destruct (get_fetch_lock_outcome DEBUG a url t c) as [Ha|Ha Hu|Ha Hu Hne];
    [congruence | |]; simpl; exists (Cache.Entry (VInt 1) (t + actor_ttl DEBUG a)).
  - split; [apply lookup_insert_eq |]. split; [done | simpl; lia].
  - split; [| split; [done | simpl; lia]].
    unfold Cache.set. rewrite lookup_insert_ne by done. apply lookup_insert_eq.
Qed.

Lemma closed_admits_none DEBUG a t0 reqs c :
  (forall r, In r reqs -> rq_time r < t0 + actor_ttl DEBUG a) ->
  closed_until DEBUG a t0 c ->
  admissions a reqs (run_requests DEBUG reqs c).1 = 0%nat.
Proof.
  revert c. induction reqs as [|r rest IH]; intros c Hwin Hc; [done |].
  assert (Ht : rq_time r < t0 + actor_ttl DEBUG a) by (apply Hwin; by left).
  pose proof (closed_stays DEBUG a t0 c (rq_user r) (rq_url r) (rq_time r) Hc Ht) as Hc'.
  cbn [run_requests].
  destruct (get_fetch_lock DEBUG (rq_user r) (rq_url r) (rq_time r) c) as [b c1] eqn:Hg.
  simpl in Hc'.
  specialize (IH c1 (fun r' Hr' => Hwin r' (or_intror Hr')) Hc').
  destruct (run_requests DEBUG rest c1) as [bs c2]. simpl in *. rewrite IH.
  case_bool_decide as Hu; [| done]. subst a.
  rewrite actor_locked_denies in Hg by (by eapply closed_locked).
  by injection Hg as <- _.
Qed.

(** X6. Per-actor rate limit: among any calls to [get_fetch_lock] made at
    instants of one window of the actor's TTL, by this actor and by others
    and for any URLs, at most one call of the actor is admitted. *)
Theorem actor_rate_limit DEBUG (a : option User) (t0 : Z) (reqs : list request)
    (c : Cache.t) :
  (forall r, In r reqs -> t0 <= rq_time r < t0 + actor_ttl DEBUG a) ->
  (admissions a reqs (run_requests DEBUG reqs c).1 <= 1)%nat.
Proof.
  revert c. induction reqs as [|r rest IH]; intros c Hwin; [simpl; lia |].
  assert (Ht : t0 <= rq_time r < t0 + actor_ttl DEBUG a) by (apply Hwin; by left).
  assert (Hwin' : forall r', In r' rest -> t0 <= rq_time r' < t0 + actor_ttl DEBUG a)
    by (intros r' Hr'; apply Hwin; by right).
  cbn [run_requests].
  destruct (get_fetch_lock DEBUG (rq_user r) (rq_url r) (rq_time r) c) as [b c1] eqn:Hg.
  pose proof (IH c1 Hwin') as IH1.
  destruct (decide (rq_user r = a)) as [Hu|Hu].
  - destruct (Cache.locked c (rq_time r) (actor_key a)) eqn:Hl.
    + rewrite Hu, actor_locked_denies in Hg by done. injection Hg as <- <-.
      destruct (run_requests DEBUG rest c) as [bs c2]. simpl in *.
      rewrite andb_false_r. simpl. exact IH1.
    + assert (Hc1 : closed_until DEBUG a t0 c1).
      { pose proof (pass_closes DEBUG a t0 c (rq_url r) (rq_time r)
                      (proj1 Ht) Hl) as Hp.
        rewrite <- Hu in Hp at 2. by rewrite Hg in Hp. }
      pose proof (closed_admits_none DEBUG a t0 rest c1
                    (fun r' Hr' => proj2 (Hwin' r' Hr')) Hc1) as Hz.
      destruct (run_requests DEBUG rest c1) as [bs c2]. simpl in *. rewrite Hz.
      destruct (bool_decide (rq_user r = a) && b); lia.
  - destruct (run_requests DEBUG rest c1) as [bs c2]. simpl in *.
    rewrite bool_decide_eq_false_2 by done. simpl. exact IH1.
Qed.

Lemma actor_rate_limit_witness :
  (admissions bob
     [ {| rq_user := bob; rq_url := book_url; rq_time := 0 |};
       {| rq_user := alice; rq_url := book_url; rq_time := 1 |};
       {| rq_user := bob; rq_url := "https://book.douban.com/subject/2/"; rq_time := 2 |} ]
     (run_requests false
        [ {| rq_user := bob; rq_url := book_url; rq_time := 0 |};
          {| rq_user := alice; rq_url := book_url; rq_time := 1 |};
          {| rq_user := bob; rq_url := "https://book.douban.com/subject/2/";
             rq_time := 2 |} ] ∅).1 <= 1)%nat.
Proof.
  apply (actor_rate_limit false bob 0).
  change (actor_ttl false bob) with 3.
  intros r [<-|[<-|[<-|[]]]]; simpl; lia.
Defined.

Section WithHash.
Variable md5_hexdigest : string -> string.

Local Abbreviation enqueue_fetch := (enqueue_fetch md5_hexdigest).
Local Abbreviation job_id_of := (job_id_of md5_hexdigest).

(** X7. Idempotent enqueue: the job id depends on the URL alone, and once
    [enqueue_fetch] has run for a URL, running it again for that URL, for any
    user and either kind of fetch, returns the same id and leaves the queue
    as it is, as long as the job is queued or started. *)
Theorem enqueue_fetch_idempotent url is_refetch user is_refetch' user' (q : Queue) :
  let first := enqueue_fetch url is_refetch user q in
  first.1 = job_id_of url /\
  in_progress first.2 (job_id_of url) = true /\
  enqueue_fetch url is_refetch' user' first.2 = (job_id_of url, first.2).
Proof.
  assert (Hp : in_progress (enqueue_fetch url is_refetch user q).2 (job_id_of url) = true).
  { unfold FetchAdmission.enqueue_fetch.
    destruct (in_progress q (job_id_of url)) eqn:Hq; simpl; [done |].
    unfold in_progress, enqueue. simpl. by rewrite lookup_insert_eq. }
  split; [| split; [exact Hp |]].
  - unfold FetchAdmission.enqueue_fetch. by destruct (in_progress q (job_id_of url)).
  - unfold FetchAdmission.enqueue_fetch at 1. by rewrite Hp.
Qed.

End WithHash.

End FetchAdmissionExtra.

(** ** Polling a fetch job (catalog/search/views.py, fetch_refresh) *)

Module FetchRefresh.

Inductive response : Type :=
| Failed                                              (* _fetch_failed.html *)
| HxRedirect (item_url : string)
| Refresh (job_id : string) (retry : Z) (delay : Z).  (* _fetch_refresh.html *)

(** What [Job.fetch(id).return_value()] gives: [None] when fetching the job
    raises, [Some None] when the job has no return value yet. *)
Definition job_result : Type := option (option string).

(** [fetch_refresh(request, job_id)]; [retry] is [int_] of the request's
    [retry] parameter, 0 when it is absent. *)
Definition fetch_refresh (job : job_result) (job_id : string) (retry : Z) : response :=
  let item_url :=
    match job with
    | Some v => v
    | None => Some "-"%string
    end in
  match Sites.truthy_str item_url with
  | Some u => if String.eqb u "-" then Failed else HxRedirect u
  | None =>
    let retry := retry + 1 in
    if 10 <? retry then Failed else Refresh job_id retry (retry * 2)
  end.

(** The responses a client gets that polls again with the [retry] it was
    handed, for at most [n] requests. *)
Fixpoint poll (n : nat) (job : job_result) (job_id : string) (retry : Z) : list response :=
  match n with
  | O => []
  | S n' =>
    let resp := fetch_refresh job job_id retry in
    resp :: match resp with
            | Refresh _ r _ => poll n' job job_id r
            | _ => []
            end
  end.

Definition unfinished (job : job_result) : Prop :=
  job = Some None \/ job = Some (Some ""%string).

Lemma poll_unfinished (m : nat) (n : nat) job job_id :
  unfinished job -> (m < n)%nat ->
  poll n job job_id (10 - Z.of_nat m)
  = map (fun k => Refresh job_id k (k * 2)) (seqZ (11 - Z.of_nat m) (Z.of_nat m))
    ++ [Failed].
Proof.
  intros Hjob. revert n. induction m as [|m IH]; intros n Hn.
  - destruct n as [|n]; [lia |]. simpl.
    unfold fetch_refresh. destruct Hjob as [-> | ->]; simpl; reflexivity.
  - destruct n as [|n]; [lia |]. cbn [poll].
    assert (Hstep : fetch_refresh job job_id (10 - Z.of_nat (S m))
                    = Refresh job_id (10 - Z.of_nat m) ((10 - Z.of_nat m) * 2)).
    { unfold fetch_refresh.
      replace (10 - Z.of_nat (S m) + 1) with (10 - Z.of_nat m) by lia.
      assert (Hlt : (10 <? 10 - Z.of_nat m) = false) by (apply Z.ltb_ge; lia).
      destruct Hjob as [-> | ->]; simpl; by rewrite Hlt. }
    rewrite Hstep, IH by lia.
    rewrite (seqZ_cons (11 - Z.of_nat (S m))) by lia. simpl.
    replace (11 - Z.of_nat (S m)) with (10 - Z.of_nat m) by lia.
    replace (Z.succ (10 - Z.of_nat m)) with (11 - Z.of_nat m) by lia.
    replace (Z.pred (Z.of_nat (S m))) with (Z.of_nat m) by lia.
    reflexivity.
Qed.

(** X8. Bounded polling: while the job has produced no result, a client
    that polls again with the retry count it was handed is told to refresh
    with the counts retry+1, ..., 10, each with a delay of twice the count,
    and is then given the failure page; from a fresh start that is ten
    refreshes. *)
Theorem polling_gives_up job job_id (retry : Z) (n : nat) :
  unfinished job -> 0 <= retry <= 10 -> (Z.to_nat (10 - retry) < n)%nat ->
  poll n job job_id retry
  = map (fun k => Refresh job_id k (k * 2)) (seqZ (retry + 1) (10 - retry)) ++ [Failed].
Proof.
  intros Hjob Hr Hn.
  pose proof (poll_unfinished (Z.to_nat (10 - retry)) n job job_id Hjob Hn) as H.
  rewrite Z2Nat.id in H by lia.
  replace (10 - (10 - retry)) with retry in H by lia.
  replace (11 - (10 - retry)) with (retry + 1) in H by lia.
  exact H.
Qed.

Lemma polling_gives_up_witness :
  length (poll 20 (Some None) "fetch_abc" 0) = 11%nat.
Proof.
  rewrite (polling_gives_up (Some None) "fetch_abc" 0 20);
    [reflexivity | by left | lia | vm_compute; lia].
Defined.

End FetchRefresh.

(** ** More of the site manager: the registry *)

Module Registry.
Import Sites.

(** [SiteManager.get_site_cls_by_id_type(typ)] *)
Definition get_site_cls_by_id_type (reg : Registry) (typ : option string)
    : result SiteClass :=
  match registry_get reg typ with
  | Some c => Ok c
  | None => Raise (Exception "ValueError" "Site not found")
  end.

(** [SiteManager.get_all_sites()] *)
Definition get_all_sites (reg : Registry) : list SiteClass := values reg.

(** The [@SiteManager.register] decorators of the adapter modules, run in
    the order the classes are defined. *)
Fixpoint register_all (targets : list SiteClass) (reg : Registry) : result Registry :=
  match targets with
  | [] => Ok reg
  | c :: rest =>
    match register c reg with
    | Ok reg' => register_all rest reg'
    | Raise e => Raise e
    end
  end.

Definition entries (targets : list SiteClass) : Registry :=
  map (fun c => (ID_TYPE c, c)) targets.

Lemma opt_eqb_eq (a b : option string) : opt_eqb a b = true <-> a = b.
Proof.
  destruct a as [x|], b as [y|]; simpl; try (split; congruence).
  rewrite String.eqb_eq. split; congruence.
Qed.

Lemma registry_get_None reg t :
  registry_get reg t = None <-> ~ In t (map fst reg).
Proof.
  unfold registry_get. induction reg as [|[k c] reg IH]; simpl; [tauto |].
  destruct (opt_eqb k t) eqn:Hk.
  - apply opt_eqb_eq in Hk. split; [done | intros H; exfalso; apply H; by left].
  - rewrite IH. split.
    + intros Hn [Heq|Hin]; [| done]. apply opt_eqb_eq in Heq. congruence.
    + intros Hn Hin. apply Hn. by right.
Qed.

Lemma registry_get_app reg reg' t :
  registry_get (reg ++ reg') t
  = match registry_get reg t with
    | Some c => Some c
    | None => registry_get reg' t
    end.
Proof.
  unfold registry_get. induction reg as [|[k c] reg IH]; simpl; [done |].
  by destruct (opt_eqb k t).
Qed.

Lemma register_all_Ok targets reg reg' :
  register_all targets reg = Ok reg' ->
  reg' = reg ++ entries targets /\
  List.NoDup (map ID_TYPE targets) /\
  (forall c, In c targets -> ~ In (ID_TYPE c) (map fst reg)).
Proof.
  revert reg. induction targets as [|c rest IH]; intros reg; simpl.
  - intros [= <-]. rewrite app_nil_r. split; [done |]. split; [constructor | done].
  - unfold register. destruct (registry_get reg (ID_TYPE c)) eqn:Hc; [done |].
    intros H. destruct (IH _ H) as (-> & Hnd & Hfree).
    apply registry_get_None in Hc.
    split; [by rewrite <- app_assoc |]. split.
    + constructor; [| done]. intros Hin. apply in_map_iff in Hin as (c' & Heq & Hin).
      apply (Hfree c' Hin). rewrite map_app. apply in_or_app. right. left. done.
    + intros c' [<-|Hin]; [exact Hc |]. intros Hin'. apply (Hfree c' Hin).
      rewrite map_app. apply in_or_app. by left.
Qed.

Lemma register_all_NoDup targets reg :
  List.NoDup (map ID_TYPE targets) ->
  (forall c, In c targets -> ~ In (ID_TYPE c) (map fst reg)) ->
  register_all targets reg = Ok (reg ++ entries targets).
Proof.
  revert reg. induction targets as [|c rest IH]; intros reg Hnd Hfree; simpl.
  - by rewrite app_nil_r.
  - inversion Hnd as [|? ? Hc Hnd']; subst.
    unfold register.
    rewrite (proj2 (registry_get_None reg (ID_TYPE c))) by (apply Hfree; by left).
    rewrite IH; [by rewrite <- app_assoc | done |].
    intros c' Hin. rewrite map_app. intros Hin'. apply in_app_or in Hin' as [Hin'|[Heq|[]]].
    + apply (Hfree c'); [by right | done].
    + simpl in Heq. apply Hc. rewrite Heq. by apply in_map.
Qed.

Lemma registry_get_entries targets c :
  List.NoDup (map ID_TYPE targets) -> In c targets ->
  registry_get (entries targets) (ID_TYPE c) = Some c.
Proof.
  unfold registry_get, entries. induction targets as [|x rest IH]; [done |].
  intros Hnd Hin. inversion Hnd as [|? ? Hx Hnd']; subst. simpl.
  destruct (opt_eqb (ID_TYPE x) (ID_TYPE c)) eqn:Hk.
  - apply opt_eqb_eq in Hk. destruct Hin as [->|Hin]; [done |].
    exfalso. apply Hx. rewrite Hk. by apply in_map.
  - destruct Hin as [->|Hin]; [| by apply IH].
    assert (opt_eqb (ID_TYPE c) (ID_TYPE c) = true) by (by apply opt_eqb_eq).
    congruence.
Qed.

(** X9. Registration from an empty registry succeeds exactly when no two
    classes declare the same ID_TYPE; the registry then lists the classes in
    registration order, [get_site_cls_by_id_type] gives back the class
    registered under each ID_TYPE and raises for any other id type. *)
Theorem registry_is_registration_order (targets : list SiteClass) :
  (List.NoDup (map ID_TYPE targets) ->
   register_all targets [] = Ok (entries targets)) /\
  (forall reg, register_all targets [] = Ok reg ->
     List.NoDup (map ID_TYPE targets) /\
     get_all_sites reg = targets /\
     (forall c, In c targets -> get_site_cls_by_id_type reg (ID_TYPE c) = Ok c) /\
     (forall t, ~ In t (map ID_TYPE targets) ->
        exists e, get_site_cls_by_id_type reg t = Raise e)) /\
  (~ List.NoDup (map ID_TYPE targets) ->
   exists e, register_all targets [] = Raise e).
Proof.
  split; [| split].
  - intros Hnd. rewrite register_all_NoDup; [done | done |]. by intros c _ [].
  - intros reg Hreg. destruct (register_all_Ok _ _ _ Hreg) as (-> & Hnd & _).
    simpl. split; [done |]. split.
    + unfold get_all_sites, values, entries. rewrite map_map. simpl. apply map_id.
    + split.
      * intros c Hin. unfold get_site_cls_by_id_type.
        by rewrite registry_get_entries.
      * intros t Ht. unfold get_site_cls_by_id_type.
        rewrite (proj2 (registry_get_None (entries targets) t)); [eauto |].
        unfold entries. by rewrite map_map.
  - intros Hdup. destruct (register_all targets []) as [reg|e] eqn:Hreg; [| eauto].
    destruct (register_all_Ok _ _ _ Hreg) as (_ & Hnd & _). done.
Qed.

Lemma registry_is_registration_order_witness :
  register_all [SitesProofs.DoubanBook0; SitesProofs.DoubanBook_Work0] []
  = Ok SitesProofs.reg0.
Proof.
  apply (proj1 (registry_is_registration_order
                  [SitesProofs.DoubanBook0; SitesProofs.DoubanBook_Work0])).
  repeat constructor; simpl; intuition discriminate.
Defined.

End Registry.

(** ** What a match of a URL pattern tells about the URL *)

Module RegexFacts.
Import Regex Sites DoubanBookProofs.

(** The texts a piece can match. *)
Definition piece_lang (p : piece) (v : string) : Prop :=
  match p_quant p with
  | Once => exists a, v = String a EmptyString /\ accepts (p_class p) a = true
  | OneOrMore => v <> EmptyString /\ all_chars (accepts (p_class p)) v = true
  | ZeroOrOne =>
    v = EmptyString \/ exists a, v = String a EmptyString /\ accepts (p_class p) a = true
  end.

Lemma m_plus_inv {R : Type} p (s : string) (k : string -> option R) (r : R) :
  m_plus p s k = Some r ->
  exists v s', s = v +:+ s' /\ v <> EmptyString /\ all_chars p v = true /\ k s' = Some r.
Proof.
  revert r. induction s as [|a s IH]; intros r; simpl; [done |].
  destruct (p a) eqn:Ha; [| done].
  destruct (m_plus p s k) as [r0|] eqn:Hm.
  - intros [= <-]. destruct (IH r0 eq_refl) as (v & s' & -> & Hne & Hall & Hk).
    exists (String a v), s'. repeat split; [done | | done]. simpl. by rewrite Ha, Hall.
  - intros Hk. exists (String a EmptyString), s. repeat split; [done | | done].
    simpl. by rewrite Ha.
Qed.

Lemma m_piece_inv {R : Type} (p : piece) (s : string) (k : string -> option R) (r : R) :
  m_piece p s k = Some r ->
  exists v s', s = v +:+ s' /\ piece_lang p v /\ k s' = Some r.
Proof.
  unfold m_piece, piece_lang. destruct (p_quant p).
  - destruct s as [|a s]; [done |]. destruct (accepts (p_class p) a) eqn:Ha; [| done].
    intros Hk. exists (String a EmptyString), s. eauto.
  - intros Hm. apply m_plus_inv in Hm as (v & s' & -> & Hne & Hall & Hk). eauto 6.
  - destruct s as [|a s].
    + intros Hk. exists EmptyString, EmptyString. eauto.
    + destruct (accepts (p_class p) a) eqn:Ha.
      * destruct (k s) as [r0|] eqn:Hks.
        -- intros [= <-]. exists (String a EmptyString), s. eauto 7.
        -- intros Hk. exists EmptyString, (String a s). eauto.
      * intros Hk. exists EmptyString, (String a s). eauto.
Qed.

Lemma m_nodes_atom_inv p r s g gs :
  m_nodes (Atom p :: r) s g = Some gs ->
  exists v s', s = v +:+ s' /\ piece_lang p v /\ m_nodes r s' g = Some gs.
Proof. simpl. apply m_piece_inv. Qed.

(** A literal character in the pattern is the next character of the text. *)
Lemma m_nodes_lit_inv c r s g gs :
  m_nodes (Atom (Piece (CLit c) Once) :: r) s g = Some gs ->
  exists s', s = String c s' /\ m_nodes r s' g = Some gs.
Proof.
  intros H. apply m_nodes_atom_inv in H as (v & s' & -> & (a & -> & Ha) & Hm).
  simpl in Ha. apply Ascii.eqb_eq in Ha as ->. by exists s'.
Qed.

(** A leading [\w+] takes a non-empty run of word characters. *)
Lemma m_nodes_word_inv r s g gs :
  m_nodes (Atom (Piece CWord OneOrMore) :: r) s g = Some gs ->
  exists v s', s = v +:+ s' /\ v <> EmptyString /\ all_chars is_word v = true /\
               m_nodes r s' g = Some gs.
Proof.
  intros H. apply m_nodes_atom_inv in H as (v & s' & -> & (Hne & Hall) & Hm). eauto 6.
Qed.

(** A group [(\d+)] captures a non-empty run of digits. *)
Lemma m_nodes_digits_inv r s g gs :
  m_nodes (Group [Piece CDigit OneOrMore] :: r) s g = Some gs ->
  exists v s', s = v +:+ s' /\ v <> EmptyString /\ all_digits v = true /\
               m_nodes r s' (g ++ [v]) = Some gs.
Proof.
  simpl. unfold m_piece. simpl. intros H.
  apply m_plus_inv in H as (v & s' & -> & Hne & Hall & Hm).
  rewrite consumed_prefix in Hm. exists v, s'. rewrite all_digits_chars. eauto.
Qed.

(** Every group of the pattern is [(\d+)]. *)
Definition digit_groups (r : regex) : Prop :=
  Forall (fun n => match n with
                   | Group g => g = [Piece CDigit OneOrMore]
                   | Atom _ => True
                   end) r.

Definition digit_run (v : string) : Prop := v <> EmptyString /\ all_digits v = true.

Lemma m_nodes_captures r s g gs :
  digit_groups r -> m_nodes r s g = Some gs ->
  exists new, gs = g ++ new /\ Forall digit_run new.
Proof.
  intros Hr. revert s g. induction Hr as [|n r Hn Hr IH]; intros s g.
  - simpl. intros [= <-]. exists []. by rewrite app_nil_r.
  - destruct n as [p|grp].
    + intros H. apply m_nodes_atom_inv in H as (v & s' & _ & _ & Hm). by apply (IH s').
    + subst grp. intros H.
      apply m_nodes_digits_inv in H as (v & s' & _ & Hne & Hall & Hm).
      destruct (IH s' _ Hm) as (new & -> & Hnew).
      exists (v :: new). rewrite <- app_assoc. split; [done |]. by constructor.
Qed.

(** Patterns of the fragment whose groups are all [(\d+)]. *)
Definition digit_patterns (patterns : list string) : Prop :=
  Forall (fun p => exists r, parse p = Some r /\ digit_groups r) patterns.

Lemma first_match_captures patterns url gs :
  digit_patterns patterns -> first_match patterns url = Some gs -> Forall digit_run gs.
Proof.
  induction 1 as [|p ps (r & Hp & Hr) Hps IH]; [done |]. simpl.
  destruct (re_match p url) as [u|] eqn:Hm; [| exact IH].
  intros [= <-]. unfold re_match in Hm. rewrite Hp in Hm.
  destruct (m_nodes_captures r url [] u Hr Hm) as (new & -> & Hnew). done.
Qed.

Lemma url_to_id_digit_run patterns url v :
  digit_patterns patterns -> AbstractSite.url_to_id patterns url = Some v -> digit_run v.
Proof.
  intros Hp. unfold AbstractSite.url_to_id.
  destruct (first_match patterns url) as [[|g gs]|] eqn:Hm; try done.
  intros [= <-]. pose proof (first_match_captures _ _ _ Hp Hm) as Hall.
  by inversion Hall.
Qed.

Lemma digit_patterns_book : digit_patterns DoubanBook.URL_PATTERNS.
Proof.
  repeat constructor; eexists; (split; [vm_compute; reflexivity |]);
    repeat constructor.
Qed.

Lemma digit_patterns_work : digit_patterns DoubanBook_Work.URL_PATTERNS.
Proof.
  repeat constructor; eexists; (split; [vm_compute; reflexivity |]);
    repeat constructor.
Qed.

(** The pattern of DoubanBook_Work on the canonical URL of an identifier. *)
Lemma works_pattern_match (v : string) :
  v <> EmptyString -> all_digits v = true ->
  re_match "\w+://book\.douban\.com/works/(\d+)" (DoubanBook_Work.id_to_url v)
  = Some [v].
Proof.
  intros Hne Hd. rewrite all_digits_chars in Hd. unfold re_match.
  replace (parse "\w+://book\.douban\.com/works/(\d+)")
    with (Some (Atom (Piece CWord OneOrMore)
                :: literal "://book.douban.com/works/"
                ++ [Group [Piece CDigit OneOrMore]]))
    by (vm_compute; reflexivity).
  change (DoubanBook_Work.id_to_url v)
    with ("https" +:+ ("://book.douban.com/works/" +:+ (v +:+ "/"))).
  change (m_nodes (Atom (Piece CWord OneOrMore) :: ?r) ?s [])
    with (m_plus is_word s (fun s' => m_nodes r s' [])).
  apply m_plus_run; [done | reflexivity | reflexivity |].
  rewrite m_nodes_literal.
  change (m_nodes (Group [Piece CDigit OneOrMore] :: ?r) ?s [])
    with (m_plus is_digit s (fun s' => m_nodes r s' ([] ++ [consumed s s']))).
  apply m_plus_run; [done | done | reflexivity |].
  rewrite consumed_prefix. reflexivity.
Qed.

Lemma truthy_digit_run v : digit_run v -> truthy_str (Some v) = Some v.
Proof.
  intros [Hne _]. simpl. by destruct (String.eqb_spec v "").
Qed.

(** X10. DoubanBook_Work: for a non-empty string of decimal digits [v], the
    URL built from [v] is accepted by the adapter's pattern, [url_to_id]
    gives back [v], and the adapter built from that URL is the one built
    from the identifier. *)
Theorem douban_work_id_url_roundtrip scrape (v : string) :
  v <> EmptyString -> all_digits v = true ->
  let Work := DoubanBook_Work.class scrape in
  url_to_id Work (id_to_url Work v) = Some v /\
  validate_url Work (id_to_url Work v) = true /\
  new_site Work (Some (id_to_url Work v)) None = new_site Work None (Some v).
Proof.
  intros Hne Hd Work.
  pose proof (works_pattern_match v Hne Hd) as Hm.
  assert (Hid : AbstractSite.url_to_id DoubanBook_Work.URL_PATTERNS
                  (DoubanBook_Work.id_to_url v) = Some v).
  { unfold AbstractSite.url_to_id, DoubanBook_Work.URL_PATTERNS. simpl. by rewrite Hm. }
  split; [exact Hid |]. split.
  - simpl. unfold AbstractSite.validate_url, DoubanBook_Work.URL_PATTERNS. simpl.
    by rewrite Hm.
  - pose proof (truthy_digit_run v (conj Hne Hd)) as Hv.
    unfold new_site.
    change (url_to_id Work) with (AbstractSite.url_to_id DoubanBook_Work.URL_PATTERNS).
    change (id_to_url Work) with DoubanBook_Work.id_to_url.
    change (truthy_str None) with (@None string).
    change (truthy_str (Some (DoubanBook_Work.id_to_url v)))
      with (Some (DoubanBook_Work.id_to_url v)).
    rewrite Hv. cbn iota. by rewrite Hid, Hv.
Qed.

Lemma douban_work_id_url_roundtrip_witness :
  url_to_id (DoubanBook_Work.class AbstractSite.scrape)
    (id_to_url (DoubanBook_Work.class AbstractSite.scrape) "27") = Some "27"%string.
Proof.
  refine (proj1 (douban_work_id_url_roundtrip AbstractSite.scrape "27" _ _));
    [discriminate | reflexivity].
Defined.

(** Building an adapter from the URL of an adapter changes nothing, for a
    class whose patterns capture digit runs and whose [id_to_url] is read
    back by [url_to_id]. *)
Lemma new_site_canonical (c : SiteClass) (url : option string) :
  (forall u v, url_to_id c u = Some v -> digit_run v) ->
  (forall v, digit_run v ->
     url_to_id c (id_to_url c v) = Some v /\ id_to_url c v <> EmptyString) ->
  let s := new_site c url None in
  new_site c (s_url s) None = s /\
  (forall v, s_id_value s = Some v -> digit_run v /\ s_url s = Some (id_to_url c v)).
Proof.
  intros Hrun Hback s. subst s. unfold new_site.
  change (truthy_str None) with (@None string). cbn iota.
  destruct (truthy_str url) as [u|] eqn:Hu; [| by split].
  destruct (url_to_id c u) as [v|] eqn:Hid; [| by split].
  pose proof (Hrun u v Hid) as Hv. destruct (Hback v Hv) as [Hb Hne].
  rewrite (truthy_digit_run v Hv). cbn [s_url s_id_value].
  assert (Ht : truthy_str (Some (id_to_url c v)) = Some (id_to_url c v)).
  { simpl. by destruct (String.eqb_spec (id_to_url c v) ""). }
  rewrite Ht, Hb, (truthy_digit_run v Hv). split; [done |].
  by intros ? [= <-].
Qed.

(** X11. Canonical URLs: whatever ASCII URL a DoubanBook or DoubanBook_Work
    adapter is built from (desktop, mobile or app-dispatch form, with or
    without a trailing path), its identifier, when it has one, is a non-empty
    run of the digits 0 to 9, its URL is [id_to_url] of it, and building an
    adapter from that URL gives the same adapter again. (On a URL with digits
    of another script Python's [\d] captures those, and the identifier is not
    such a run.) *)
Theorem douban_urls_are_canonical scrape (url : option string) :
  (forall u, url = Some u -> is_ascii u = true) ->
  let Book := DoubanBook.class scrape in
  let Work := DoubanBook_Work.class scrape in
  (new_site Book (s_url (new_site Book url None)) None = new_site Book url None /\
   forall v, s_id_value (new_site Book url None) = Some v ->
     digit_run v /\ s_url (new_site Book url None) = Some (id_to_url Book v)) /\
  (new_site Work (s_url (new_site Work url None)) None = new_site Work url None /\
   forall v, s_id_value (new_site Work url None) = Some v ->
     digit_run v /\ s_url (new_site Work url None) = Some (id_to_url Work v)).
Proof.
  intros _ Book Work. split.
  - apply (new_site_canonical Book url).
    + intros u v. apply url_to_id_digit_run, digit_patterns_book.
    + intros v [Hne Hd]. split; [| done].
      change (url_to_id Book (id_to_url Book v))
        with (AbstractSite.url_to_id DoubanBook.URL_PATTERNS (DoubanBook.id_to_url v)).
      unfold AbstractSite.url_to_id, DoubanBook.URL_PATTERNS. simpl.
      by rewrite (subject_pattern_match v Hne Hd).
  - apply (new_site_canonical Work url).
    + intros u v. apply url_to_id_digit_run, digit_patterns_work.
    + intros v [Hne Hd]. split; [| done].
      change (url_to_id Work (id_to_url Work v))
        with (AbstractSite.url_to_id DoubanBook_Work.URL_PATTERNS
                (DoubanBook_Work.id_to_url v)).
      unfold AbstractSite.url_to_id, DoubanBook_Work.URL_PATTERNS. simpl.
      by rewrite (works_pattern_match v Hne Hd).
Qed.

Lemma douban_urls_are_canonical_witness :
  new_site (DoubanBook.class AbstractSite.scrape)
    (s_url (new_site (DoubanBook.class AbstractSite.scrape)
              (Some "https://m.douban.com/book/subject/1084336/?from=x"%string) None))
    None
  = new_site (DoubanBook.class AbstractSite.scrape)
      (Some "https://m.douban.com/book/subject/1084336/?from=x"%string) None.
Proof.
  refine (proj1 (proj1 (douban_urls_are_canonical AbstractSite.scrape
                          (Some "https://m.douban.com/book/subject/1084336/?from=x"%string)
                          _))).
  intros u [= <-]. vm_compute. reflexivity.
Defined.

Example mobile_url_is_canonicalized :
  s_url (new_site (DoubanBook.class AbstractSite.scrape)
           (Some "https://m.douban.com/book/subject/1084336/?from=x"%string) None)
  = Some "https://book.douban.com/subject/1084336/"%string.
Proof. vm_compute. reflexivity. Qed.

End RegexFacts.

(** ** The two adapters of douban_book.py do not overlap *)

Module DoubanAdapters.
Import Regex Sites DoubanBookProofs RegexFacts.

Lemma append_cons a v s : String a v +:+ s = String a (v +:+ s).
Proof. reflexivity. Qed.

Lemma append_nil s : EmptyString +:+ s = s.
Proof. reflexivity. Qed.

(** A run of word characters before a colon is determined by the text. *)
Lemma word_run_unique v1 v2 x y :
  all_chars is_word v1 = true -> all_chars is_word v2 = true ->
  v1 +:+ String ":" x = v2 +:+ String ":" y -> v1 = v2 /\ x = y.
Proof.
  revert v2. induction v1 as [|a v1 IH]; intros [|b v2] H1 H2;
    rewrite ?append_cons, ?append_nil; intros Heq.
  - by injection Heq as ->.
  - injection Heq as <- _. simpl in H2. discriminate.
  - injection Heq as -> _. simpl in H1. discriminate.
  - injection Heq as -> Heq. simpl in H1, H2.
    apply andb_true_iff in H1 as [_ H1]. apply andb_true_iff in H2 as [_ H2].
    destruct (IH v2 H1 H2 Heq) as [-> ->]. done.
Qed.

Lemma validate_first_match patterns url :
  AbstractSite.validate_url patterns url = true ->
  exists gs, first_match patterns url = Some gs.
Proof.
  unfold AbstractSite.validate_url. destruct (first_match patterns url); [eauto | done].
Qed.

Lemma first_match_in patterns url gs :
  first_match patterns url = Some gs ->
  exists p, In p patterns /\ re_match p url = Some gs.
Proof.
  induction patterns as [|p ps IH]; [done |]. simpl.
  destruct (re_match p url) as [u|] eqn:Hm.
  - intros [= <-]. exists p. split; [by left | done].
  - intros H. destruct (IH H) as (p' & Hin & Hp'). exists p'. split; [by right | done].
Qed.

(** Reads the pattern of a match and takes the leading [\w+] off it. *)
Ltac open_match H v s Hv :=
  unfold re_match in H;
  match type of H with
  | context [parse ?p] =>
    let r := eval vm_compute in (parse p) in change (parse p) with r in H
  end;
  cbv iota in H;
  apply m_nodes_word_inv in H as (v & s & ? & _ & Hv & H).

Ltac peel H :=
  let s' := fresh "s" in
  let Heq := fresh "Heq" in
  apply m_nodes_lit_inv in H as (s' & Heq & H);
  first [ discriminate Heq
        | injection Heq as Heq; subst
        | subst ].

(** The patterns of the two adapters accept no common text. *)
Lemma patterns_disjoint (url : string) :
  ~ (AbstractSite.validate_url DoubanBook.URL_PATTERNS url = true /\
     AbstractSite.validate_url DoubanBook_Work.URL_PATTERNS url = true).
Proof.
  intros [Hb Hw].
  apply validate_first_match in Hb as (gb & Hb).
  apply validate_first_match in Hw as (gw & Hw).
  apply first_match_in in Hb as (pb & Hpb & Hb).
  apply first_match_in in Hw as (pw & Hpw & Hw).
  destruct Hpw as [<-|[]].
  open_match Hw v2 s2 Hv2. subst url.
  apply m_nodes_lit_inv in Hw as (x2 & -> & Hw).
  destruct Hpb as [<-|[<-|[<-|[<-|[]]]]];
    open_match Hb v1 s1 Hv1;
    apply m_nodes_lit_inv in Hb as (x1 & -> & Hb);
    match goal with
    | Heq : _ +:+ String ":" _ = _ +:+ String ":" _ |- _ =>
      apply word_run_unique in Heq as [-> ->]; [| done | done]
    end;
    repeat peel Hw; repeat peel Hb.
Qed.

(** X12. No URL is accepted by both DoubanBook and DoubanBook_Work, so the
    class [get_class_by_url] finds among the two does not depend on the
    order in which they were registered. *)
Theorem douban_adapters_disjoint scrape (url : string) :
  let Book := DoubanBook.class scrape in
  let Work := DoubanBook_Work.class scrape in
  ~ (validate_url Book url = true /\ validate_url Work url = true) /\
  get_class_by_url [(ID_TYPE Book, Book); (ID_TYPE Work, Work)] url
  = get_class_by_url [(ID_TYPE Work, Work); (ID_TYPE Book, Book)] url.
Proof.
  intros Book Work.
  assert (Hdis : ~ (validate_url Book url = true /\ validate_url Work url = true))
    by apply patterns_disjoint.
  split; [exact Hdis |].
  unfold get_class_by_url, values. cbn [map snd List.find].
  destruct (validate_url Book url) eqn:Hb, (validate_url Work url) eqn:Hw;
    try reflexivity.
  exfalso. by apply Hdis.
Qed.

End DoubanAdapters.

(** ** More on item matching: what a match may change *)

Module MatchingExtra.
Import Sites SitesProofs.
Local Open Scope m_scope.

Section WithEnv.

Variable E : Env.

Lemma deref_item_world k w : (deref_item k w).2 = w.
Proof.
  unfold deref_item. destruct k as [key|]; [| done].
  unfold bind, gets. by destruct (item_by_pk (items w) key).
Qed.

Lemma deref_item_In k w i : (deref_item k w).1 = Ok (Some i) -> In i (items w).
Proof.
  unfold deref_item. destruct k as [key|]; [| done].
  unfold bind, gets, item_by_pk. destruct (List.find _ (items w)) as [j|] eqn:Hf; [| done].
  intros [= <-]. by apply List.find_some in Hf as [? _].
Qed.

(** The walk over the prematched links only reads. *)
Lemma match_prematched_world links w : (match_prematched links w).2 = w.
Proof.
  induction links as [|l rest IH]; [done |].
  cbn [match_prematched]. unfold bind at 1.
  assert (Hstep : forall o, (owner_of o w).2 = w).
  { intros [r|]; [apply deref_item_world | done]. }
  destruct (truthy_str (l_url l)) as [u|].
  - unfold bind at 1, gets.
    pose proof (Hstep (resource_by_url (resources w) (Some u))) as Hw.
    destruct (owner_of _ w) as [[[i|]|e] w1]; simpl in Hw; subst w1; try done.
  - destruct (truthy_str (l_id_type l)) as [t|], (truthy_str (l_id_value l)) as [v|];
      try exact IH.
    unfold bind at 1, gets.
    pose proof (Hstep (resource_by_id (resources w) (Some t) (Some v))) as Hw.
    destruct (owner_of _ w) as [[[i|]|e] w1]; simpl in Hw; subst w1; try done.
Qed.

(** What a run of the candidate loop can do to the world: nothing, or one
    promotion of a stored Item, which is then the Item returned. *)
Definition promotes (w : World) (out : result (option Item) * World) : Prop :=
  out.2 = w \/
  exists m t v,
    In m (items w) /\
    in_ideal E (Some t) = true /\
    in_ideal E (primary_lookup_id_type m) = false /\
    out.1 = Ok (Some (set_primary_lookup_id m t v)) /\
    out.2 = set_items (replace_item (set_primary_lookup_id m t v) (items w)) w.

Lemma item_by_primary_id_In tbl model t v i :
  item_by_primary_id tbl model t v = Some i -> In i tbl.
Proof. unfold item_by_primary_id. intros H. by apply List.find_some in H as [? _]. Qed.

Lemma match_lookup_ids_promotes model r ids w :
  promotes w (match_lookup_ids E model r ids w).
Proof.
  induction ids as [|[t v] rest IH]; [by left |].
  cbn [match_lookup_ids]. unfold bind at 1, gets.
  set (first := match item_by_primary_id (items w) model (Some t) (Some v) with
                | Some i => Some i
                | None => item_by_primary_id (items w) model (id_type r) (id_value r)
                end).
  assert (Hfirst : forall i, first = Some i -> In i (items w)).
  { intros i. subst first.
    destruct (item_by_primary_id (items w) model (Some t) (Some v)) eqn:H1.
    - intros [= <-]. by apply item_by_primary_id_In in H1.
    - apply item_by_primary_id_In. }
  unfold bind at 1. destruct first as [i0|]; [| exact IH].
  unfold bind at 1.
  pose proof (deref_item_world (merged_to_item i0) w) as Hw.
  pose proof (deref_item_In (merged_to_item i0) w) as Hin.
  destruct (deref_item (merged_to_item i0) w) as [[target|e] w1]; simpl in Hw, Hin;
    subst w1; [| by left].
  assert (Hm : In (default i0 target) (items w)).
  { destruct target as [m|]; simpl; [by apply Hin | by apply Hfirst]. }
  unfold ret at 1.
  destruct (in_ideal E (primary_lookup_id_type (default i0 target))) eqn:Hideal;
    cbn [negb andb]; [by left |].
  destruct (in_ideal E (Some t)) eqn:Ht; [| by left].
  right. exists (default i0 target), t, v. by repeat split.
Qed.

(** X13. [match_existing_item_for_resource] either leaves the world as it
    is, or makes one change: it sets the primary lookup id of one stored
    Item, whose id type was not ideal, to a candidate of an ideal type, and
    returns that Item. It creates and deletes nothing, never replaces an
    ideal id, and touches neither the resources nor the logs. *)
Theorem match_existing_only_promotes (c : SiteClass) (r : ExternalResource) (w : World) :
  let out := match_existing_item_for_resource E c r w in
  (out.2 = w \/
   exists m t v,
     In m (items w) /\
     in_ideal E (Some t) = true /\
     in_ideal E (primary_lookup_id_type m) = false /\
     out.1 = Ok (Some (set_primary_lookup_id m t v)) /\
     out.2 = set_items (replace_item (set_primary_lookup_id m t v) (items w)) w) /\
  map i_pk (items out.2) = map i_pk (items w) /\
  resources out.2 = resources w /\
  log out.2 = log w /\
  actions out.2 = actions w.
Proof.
  intros out.
  assert (Hp : promotes w out).
  { subst out. unfold match_existing_item_for_resource, bind.
    pose proof (match_prematched_world (prematched_resources r) w) as Hw.
    destruct (match_prematched (prematched_resources r) w) as [[[i|]|e] w1];
      simpl in Hw; subst w1; try (by left).
    destruct (get_item_model E r (DEFAULT_MODEL c)); [| by left].
    apply match_lookup_ids_promotes. }
  split; [exact Hp |].
  destruct Hp as [-> | (m & t & v & _ & _ & _ & _ & ->)]; [done |].
  simpl. split; [| done].
  unfold replace_item. rewrite map_map. apply map_ext. intros j.
  destruct (Z.eqb_spec (i_pk j) (i_pk (set_primary_lookup_id m t v))); [| done].
  done.
Qed.

(** *** Nothing matches *)

Lemma match_lookup_ids_all_miss model r ids w :
  (forall t v, In (t, v) ids -> candidate_match (items w) model r t v = None) ->
  match_lookup_ids E model r ids w = (Ok None, w).
Proof.
  intros Hmiss. rewrite <- (app_nil_r ids).
  by rewrite match_lookup_ids_skip.
Qed.

(** No prematched link has an owner, and either the model is unknown or no
    candidate matches. *)
Definition nothing_matches (c : SiteClass) (r : ExternalResource) (w : World) : Prop :=
  (forall l, In l (prematched_resources r) -> link_owner w l = None) /\
  match get_item_model E r (DEFAULT_MODEL c) with
  | None => True
  | Some model =>
    forall t v, In (t, v) (get_lookup_ids E r (DEFAULT_MODEL c)) ->
      candidate_match (items w) model r t v = None
  end.

Lemma match_existing_none c r w :
  fk_ok w -> nothing_matches c r w ->
  match_existing_item_for_resource E c r w = (Ok None, w).
Proof.
  intros Hfk [Hpre Hids]. unfold match_existing_item_for_resource, bind.
  rewrite match_prematched_first_owner by done.
  rewrite first_owner_none by done.
  destruct (get_item_model E r (DEFAULT_MODEL c)); [| done].
  by apply match_lookup_ids_all_miss.
Qed.

Lemma item_by_pk_key tbl k i : item_by_pk tbl k = Some i -> i_pk i = k.
Proof.
  unfold item_by_pk. intros H. apply List.find_some in H as [_ H].
  by apply Z.eqb_eq in H.
Qed.

Lemma with_item_same r : with_item r (item_id r) = r.
Proof. by destruct r. Qed.

(** X14. When nothing matches, a resource keeps what it has:
    [match_or_create_item_for_resource] returns the Item the resource
    already points to and changes nothing, no audit action included; and when
    the resource has no Item and its model cannot be determined it returns
    none, again without any effect. *)
Theorem no_match_keeps_previous_item (c : SiteClass) (r : ExternalResource) (w : World) :
  fk_ok w -> nothing_matches c r w ->
  (forall k prev, item_id r = Some k -> item_by_pk (items w) k = Some prev ->
     match_or_create_item_for_resource E c r w = (Ok (Some prev, r), w)) /\
  (item_id r = None -> get_item_model E r (DEFAULT_MODEL c) = None ->
     match_or_create_item_for_resource E c r w = (Ok (None, r), w)).
Proof.
  intros Hfk Hnone. pose proof (match_existing_none c r w Hfk Hnone) as Hex.
  split.
  - intros k prev Hk Hprev. unfold match_or_create_item_for_resource.
    unfold bind at 1, try_except. rewrite Hk, (deref_item_found w k prev Hprev).
    unfold bind at 1. rewrite Hex.
    assert (Hsame : item_differs (Some prev) (Some prev) = false).
    { simpl. by rewrite String.eqb_refl, Z.eqb_refl. }
    rewrite Hsame. rewrite (item_by_pk_key _ _ _ Hprev), <- Hk, with_item_same. done.
  - intros Hk Hmodel. unfold match_or_create_item_for_resource.
    unfold bind at 1, try_except. rewrite Hk. simpl.
    unfold bind at 1. rewrite Hex. rewrite Hmodel. rewrite <- Hk, with_item_same. done.
Qed.

(** *** A new Item *)

Lemma next_item_pk_fresh tbl j : In j tbl -> i_pk j < next_item_pk tbl.
Proof.
  unfold next_item_pk. induction tbl as [|x tbl IH]; [done |].
  simpl. intros [->|Hin]; [lia |]. specialize (IH Hin). lia.
Qed.

(** X15. When nothing matches a stored resource that has no Item and whose
    model is known, exactly one Item is created: it gets a primary key above
    every key of the table, the class of the model, the primary id chosen by
    [get_best_lookup_id] and a copy of the metadata; the resource row is
    pointed at it and one [!match] action is recorded. *)
Theorem no_match_creates_one_item (c : SiteClass) (r : ExternalResource) (w : World)
    (model : string) (k : Z) (t v : option string) :
  fk_ok w -> nothing_matches c r w ->
  item_id r = None -> pk r = Some k ->
  get_item_model E r (DEFAULT_MODEL c) = Some model ->
  get_best_lookup_id E model (get_all_lookup_ids E r) = (t, v) ->
  let it := {| i_pk := next_item_pk (items w); class_name := model;
               primary_lookup_id_type := t; primary_lookup_id_value := v;
               merged_to_item := None;
               i_metadata := copy_metadata E model (metadata r) |} in
  let r' := with_item r (Some (i_pk it)) in
  let out := match_or_create_item_for_resource E c r w in
  out.1 = Ok (Some it, r') /\
  items out.2 = items w ++ [it] /\
  (forall j, In j (items w) -> i_pk j < i_pk it) /\
  actions out.2
  = actions w ++ [ {| act_item := i_pk it; act_name := "!match"; act_old := "";
                      act_new := str_resource E r' |} ] /\
  resources out.2
  = map (fun x => if optZ_eqb (pk x) (Some k) then with_item x (Some (i_pk it)) else x)
      (resources w) /\
  log out.2 = log w.
Proof.
  intros Hfk Hnone Hitem Hpk Hmodel Hbest it r' out.
  pose proof (match_existing_none c r w Hfk Hnone) as Hex.
  assert (Hout : out = (Ok (Some it, r'),
                        {| resources := map (fun x => if optZ_eqb (pk x) (Some k)
                                                      then with_item x (Some (i_pk it))
                                                      else x) (resources w);
                           items := items w ++ [it]; cache := cache w; now := now w;
                           log := log w; crawl_queue := crawl_queue w;
                           actions := actions w
                             ++ [ {| act_item := i_pk it; act_name := "!match";
                                     act_old := ""; act_new := str_resource E r' |} ] |})).
  { subst out. unfold match_or_create_item_for_resource.
    unfold bind at 1, try_except. rewrite Hitem. simpl.
    unfold bind at 1. rewrite Hex. rewrite Hmodel, Hbest.
    unfold bind at 1, create_item, bind, gets, modify, ret. simpl.
    unfold save_resource_item, log_action, modify. simpl. rewrite Hpk. done. }
  rewrite Hout. simpl. repeat split; try done.
  intros j Hj. by apply next_item_pk_fresh.
Qed.

End WithEnv.

(** A stored edition page without an Item whose ids match nothing, and the
    same page owned by [item1]. *)
Definition resource_d : ExternalResource :=
  {| pk := Some 4; id_type := Some "doubanbook"%string; id_value := Some "5"%string;
     url := Some "https://book.douban.com/subject/5/"%string;
     item_id := None; metadata := [("title"%string, VStr "Endymion")];
     other_lookup_ids := [("isbn", "9780553572940")]%string;
     related_resources := []; prematched_resources := [];
     required_resources := [] |}.

Definition resource_e : ExternalResource := with_item resource_d (Some 10).

Definition world_d : World := set_resources [resource_b; resource_a; resource_d] world0.

Definition world_e : World := set_resources [resource_b; resource_a; resource_e] world0.

Lemma fk_ok_world_d : fk_ok world_d.
Proof.
  intros r k [<-|[<-|[<-|[]]]]; simpl; try discriminate. by intros [= <-].
Qed.

Lemma fk_ok_world_e : fk_ok world_e.
Proof.
  intros r k [<-|[<-|[<-|[]]]]; simpl; try discriminate; by intros [= <-].
Qed.

Lemma nothing_matches_d w :
  items w = [item1] -> nothing_matches env0 DoubanBook0 resource_d w.
Proof.
  intros Hw. split; [intros l [] |]. simpl. rewrite Hw.
  intros t v [[= <- <-]|[]]. reflexivity.
Qed.

Lemma nothing_matches_e w :
  items w = [item1] -> nothing_matches env0 DoubanBook0 resource_e w.
Proof.
  intros Hw. split; [intros l [] |]. simpl. rewrite Hw.
  intros t v [[= <- <-]|[]]. reflexivity.
Qed.

Lemma no_match_keeps_previous_item_witness :
  match_or_create_item_for_resource env0 DoubanBook0 resource_e world_e
  = (Ok (Some item1, resource_e), world_e).
Proof.
  refine (proj1 (no_match_keeps_previous_item env0 DoubanBook0 resource_e world_e
                   fk_ok_world_e (nothing_matches_e world_e eq_refl))
            10 item1 eq_refl eq_refl).
Defined.

Lemma no_match_creates_one_item_witness :
  items (match_or_create_item_for_resource env0 DoubanBook0 resource_d world_d).2
  = [item1;
     {| i_pk := 11; class_name := "Edition";
        primary_lookup_id_type := Some "isbn"%string;
        primary_lookup_id_value := Some "9780553572940"%string;
        merged_to_item := None;
        i_metadata := [("title"%string, VStr "Endymion")] |}].
Proof.
  refine (proj1 (proj2 (no_match_creates_one_item env0 DoubanBook0 resource_d world_d
                          "Edition" 4 (Some "isbn"%string)
                          (Some "9780553572940"%string)
                          fk_ok_world_d (nothing_matches_d world_d eq_refl)
                          eq_refl eq_refl eq_refl eq_refl))).
Defined.

End MatchingExtra.

(** ** The redirect cache of the site manager (get_redirected_url) *)

Module RedirectCache.
Import Sites SitesProofs.
Local Open Scope m_scope.

(** The same world at another instant. *)
Definition at_time (t : Z) (w : World) : World :=
  {| resources := resources w; items := items w; cache := cache w; now := t;
     log := log w; crawl_queue := crawl_queue w; actions := actions w |}.

Section WithEnv.

Variable E : Env.

(** What a HEAD request answers for [url]: the final URL, or [url] itself
    when the request fails. *)
Definition head_answer (url : string) : string := default url (requests_head E url).

Lemma get_redirected_url_fresh url w :
  Cache.get (cache w) (now w) (redirect_key E url) = None ->
  let out := get_redirected_url E url true w in
  out.1 = Ok (head_answer url) /\
  cache out.2
  = Cache.set (cache w) (now w) (redirect_key E url)
      (VStr (if String.eqb (head_answer url) url then "" else head_answer url)) 3600 /\
  now out.2 = now w.
Proof.
  intros Hc out. subst out. unfold get_redirected_url, bind, gets, head_answer.
  rewrite Hc. simpl. by destruct (requests_head E url).
Qed.

(** X16. The redirect lookup remembers its answer for an hour. After a
    lookup that had to ask (nothing cached), every lookup of the same URL
    during the next 3600 seconds gives the same answer, whether or not it is
    allowed to send a request, and changes nothing; a failed request counts
    as an answer (the URL itself). From 3600 seconds on the entry is gone: a
    lookup that may not ask gives the URL back. The final URL must not be the
    empty string, which the cache reads as no redirect. *)
Theorem redirect_answer_is_cached (url : string) (w : World) (t : Z) (allow_head : bool) :
  Cache.get (cache w) (now w) (redirect_key E url) = None ->
  requests_head E url <> Some EmptyString ->
  let out := get_redirected_url E url true w in
  out.1 = Ok (head_answer url) /\
  (now w <= t < now w + 3600 ->
   get_redirected_url E url allow_head (at_time t out.2)
   = (Ok (head_answer url), at_time t out.2)) /\
  (now w + 3600 <= t ->
   get_redirected_url E url false (at_time t out.2) = (Ok url, at_time t out.2)).
Proof.
  intros Hc Hne out.
  destruct (get_redirected_url_fresh url w Hc) as (H1 & H2 & H3).
  fold out in H1, H2, H3. split; [exact H1 |]. split.
  - intros Ht.
    rewrite (get_redirected_url_cached E url allow_head (at_time t out.2)
               (if String.eqb (head_answer url) url then "" else head_answer url)).
    + destruct (String.eqb_spec (head_answer url) url) as [Heq|Hdiff]; simpl.
      * by rewrite Heq.
      * destruct (String.eqb_spec (head_answer url) "") as [He|_]; [| done].
        exfalso. unfold head_answer in He, Hdiff.
        destruct (requests_head E url) as [f|]; simpl in He, Hdiff; [| done].
        apply Hne. by rewrite He.
    + cbn [cache now at_time]. rewrite H2, Cache.get_set_eq.
      destruct (Z.ltb_spec t (now w + 3600)); [done | lia].
  - intros Ht. apply get_redirected_url_no_head.
    cbn [cache now at_time]. rewrite H2, Cache.get_set_eq.
    destruct (Z.ltb_spec t (now w + 3600)); [lia | done].
Qed.

End WithEnv.

(** A server that redirects the mobile page to the desktop one. *)
Definition env_redirect : Env :=
  {| md5_hexdigest := md5_hexdigest env0;
     url_validate := url_validate env0;
     requests_head := fun u =>
       if String.eqb u "https://m.douban.com/book/subject/2/"
       then Some "https://book.douban.com/subject/2/"%string else Some u;
     IdealIdTypes := IdealIdTypes env0;
     ready := ready env0;
     update_content := update_content env0;
     get_item_model := get_item_model env0;
     get_lookup_ids := get_lookup_ids env0;
     get_all_lookup_ids := get_all_lookup_ids env0;
     get_best_lookup_id := get_best_lookup_id env0;
     copy_metadata := copy_metadata env0;
     merge_data_from_external_resources := merge_data_from_external_resources env0;
     ap_object := ap_object env0;
     normalize_language := normalize_language env0;
     update_linked_items_from_external_resource :=
       update_linked_items_from_external_resource env0;
     merge_data_from_external_resource := merge_data_from_external_resource env0;
     str_resource := str_resource env0 |}.

Lemma redirect_answer_is_cached_witness :
  let w1 := (get_redirected_url env_redirect "https://m.douban.com/book/subject/2/"
               true world0).2 in
  get_redirected_url env_redirect "https://m.douban.com/book/subject/2/" false
    (at_time 3599 w1)
  = (Ok "https://book.douban.com/subject/2/"%string, at_time 3599 w1).
Proof.
  refine (proj1 (proj2 (redirect_answer_is_cached env_redirect
                          "https://m.douban.com/book/subject/2/" world0 3599 false
                          eq_refl _)) _).
  - discriminate.
  - simpl. lia.
Defined.

End RedirectCache.

(** ** Looking a Douban page up by URL and by identifier *)

Module DoubanLookup.
Import Regex Sites DoubanBookProofs SitesProofs RegexFacts DoubanAdapters.
Local Open Scope m_scope.

(** An adapter built from the canonical URL of an identifier is the adapter
    built from the identifier, when [url_to_id] reads the URL back. *)
Lemma new_site_of_id_url (c : SiteClass) (v : string) :
  v <> EmptyString -> id_to_url c v <> EmptyString ->
  url_to_id c (id_to_url c v) = Some v ->
  new_site c (Some (id_to_url c v)) None = new_site c None (Some v).
Proof.
  intros Hv Hu Hid. unfold new_site.
  assert (Htv : truthy_str (Some v) = Some v).
  { simpl. by destruct (String.eqb_spec v ""). }
  assert (Htu : truthy_str (Some (id_to_url c v)) = Some (id_to_url c v)).
  { simpl. by destruct (String.eqb_spec (id_to_url c v) ""). }
  change (truthy_str None) with (@None string).
  rewrite Htu, Htv. cbn iota. by rewrite Hid, Htv.
Qed.

Section WithEnv.

Variable E : Env.
Variable scrape : option string -> option string -> result ResourceContent.

Local Abbreviation Book := (DoubanBook.class scrape).
Local Abbreviation Work := (DoubanBook_Work.class scrape).

(** The registry after the two classes of douban_book.py have registered. *)
Definition registry : Registry := [(ID_TYPE Book, Book); (ID_TYPE Work, Work)].

Lemma get_site_by_url_accepted (reg : Registry) (c : SiteClass) (url : string) (w : World) :
  url <> EmptyString -> url_validate E url = true ->
  Cache.get (cache w) (now w) (redirect_key E url) = None ->
  get_class_by_url reg url = Some c ->
  get_site_by_url E reg url false w = (Ok (Some (new_site c (Some url) None)), w).
Proof.
  intros Hne Hok Hc Hcls. unfold get_site_by_url.
  apply String.eqb_neq in Hne. rewrite Hne, Hok. simpl.
  unfold bind. rewrite (get_redirected_url_no_head E url w Hc).
  by rewrite Hcls.
Qed.

(** X17. The two ways to reach a Douban page agree. For a non-empty run of
    digits [v] and either adapter of douban_book.py, [get_site_by_id] gives the
    adapter of the identifier, and [get_site_by_url] on the canonical URL of
    [v] (a valid URL with no redirect cached, looked up without a HEAD
    request) gives the very same adapter and touches nothing. *)
Theorem douban_by_url_is_by_id (c : SiteClass) (t v : string) (w : World) :
  In c [Book; Work] -> ID_TYPE c = Some t ->
  v <> EmptyString -> all_digits v = true ->
  url_validate E (id_to_url c v) = true ->
  Cache.get (cache w) (now w) (redirect_key E (id_to_url c v)) = None ->
  get_site_by_id registry t v = Some (new_site c None (Some v)) /\
  get_site_by_url E registry (id_to_url c v) false w
  = (Ok (get_site_by_id registry t v), w).
Proof.
  intros Hin Ht Hne Hd Hok Hc.
  assert (Hid : get_site_by_id registry t v = Some (new_site c None (Some v))).
  { destruct Hin as [<-|[<-|[]]]; injection Ht as <-; reflexivity. }
  split; [exact Hid |]. rewrite Hid.
  destruct Hin as [<-|[<-|[]]].
  - pose proof (subject_pattern_match v Hne Hd) as Hm.
    assert (Hval : validate_url Book (id_to_url Book v) = true).
    { change (AbstractSite.validate_url DoubanBook.URL_PATTERNS (DoubanBook.id_to_url v)
              = true).
      unfold AbstractSite.validate_url, DoubanBook.URL_PATTERNS. simpl. by rewrite Hm. }
    rewrite (get_site_by_url_accepted registry Book); try done.
    + f_equal. f_equal. f_equal. apply new_site_of_id_url; try done.
      change (AbstractSite.url_to_id DoubanBook.URL_PATTERNS (DoubanBook.id_to_url v)
              = Some v).
      unfold AbstractSite.url_to_id, DoubanBook.URL_PATTERNS. simpl. by rewrite Hm.
    + unfold get_class_by_url, registry, values. cbn [map snd List.find].
      by rewrite Hval.
  - pose proof (works_pattern_match v Hne Hd) as Hm.
    assert (Hval : validate_url Work (id_to_url Work v) = true).
    { change (AbstractSite.validate_url DoubanBook_Work.URL_PATTERNS
                (DoubanBook_Work.id_to_url v) = true).
      unfold AbstractSite.validate_url, DoubanBook_Work.URL_PATTERNS. simpl.
      by rewrite Hm. }
    assert (Hnb : validate_url Book (id_to_url Work v) = false).
    { destruct (validate_url Book (id_to_url Work v)) eqn:Hb; [| done].
      exfalso. by apply (patterns_disjoint (id_to_url Work v)). }
    rewrite (get_site_by_url_accepted registry Work); try done.
    + f_equal. f_equal. f_equal. apply new_site_of_id_url; try done.
      change (AbstractSite.url_to_id DoubanBook_Work.URL_PATTERNS
                (DoubanBook_Work.id_to_url v) = Some v).
      unfold AbstractSite.url_to_id, DoubanBook_Work.URL_PATTERNS. simpl. by rewrite Hm.
    + unfold get_class_by_url, registry, values. cbn [map snd List.find].
      by rewrite Hnb, Hval.
Qed.

End WithEnv.

Lemma douban_by_url_is_by_id_witness :
  get_site_by_url env0 (registry scrape0) "https://book.douban.com/works/7/" false world0
  = (Ok (get_site_by_id (registry scrape0) "doubanbook_work" "7"), world0).
Proof.
  refine (proj2 (douban_by_url_is_by_id env0 scrape0 (DoubanBook_Work.class scrape0)
                   "doubanbook_work" "7" world0 _ eq_refl _ eq_refl eq_refl eq_refl)).
  - right. left. reflexivity.
  - discriminate.
Defined.

End DoubanLookup.

(** ** When get_resource_ready does not scrape *)

Module ScrapeSkipped.
Import Sites SitesProofs.
Local Open Scope m_scope.

(** The class [c] with another scraper. *)
Definition with_scrape (c : SiteClass)
    (f : option string -> option string -> result ResourceContent) : SiteClass :=
  MkSiteClass (cls_name c) (ID_TYPE c) (URL_PATTERNS c) (DEFAULT_MODEL c)
    (validate_url c) (validate_url_fallback c) (id_to_url c) (url_to_id c)
    f (scrape_additional_data c).

(** The adapter [s] with another scraper. *)
Definition rescraped (f : option string -> option string -> result ResourceContent)
    (s : Site) : Site :=
  {| cls := with_scrape (cls s) f; s_id_value := s_id_value s; s_url := s_url s;
     resource := resource s |}.

(** An outcome with the adapter it carries changed by [g]. *)
Definition on_site {A : Type} (g : Site -> Site) (out : result (A * Site) * World)
    : result (A * Site) * World :=
  match out with
  | (Ok (a, s), w) => (Ok (a, g s), w)
  | (Raise e, w) => (Raise e, w)
  end.

Section WithEnv.

Variable E : Env.
Variable f : option string -> option string -> result ResourceContent.

Lemma get_resource_rescraped s w :
  get_resource (rescraped f s) w = on_site (rescraped f) (get_resource s w).
Proof.
  unfold get_resource. simpl. destruct (resource s) as [r|]; [done |].
  unfold bind, gets, ret. simpl. done.
Qed.

Lemma get_item_rescraped s w :
  get_item E (rescraped f s) w = on_site (rescraped f) (get_item E s w).
Proof.
  unfold get_item, bind. rewrite get_resource_rescraped.
  destruct (get_resource s w) as [[[p s1]|e] w1]; [| done]. simpl.
  destruct (ready E p); simpl; [| done].
  change (match_or_create_item_for_resource E (with_scrape (cls s1) f) p w1)
    with (match_or_create_item_for_resource E (cls s1) p w1).
  by destruct (match_or_create_item_for_resource E (cls s1) p w1) as [[[it p']|e] w2].
Qed.

(** The scrape or preloaded-content step does not look at the scraper when
    content was handed in, or when the resource is ready and its content is
    not to be ignored. *)
Lemma update_step_rescraped s p pre ign w :
  pre <> NoContent \/ (ign = false /\ ready E p = true) ->
  update_step E (rescraped f s) p pre ign w = update_step E s p pre ign w.
Proof.
  intros [Hpre | [-> Hr]]; unfold update_step.
  - by destruct pre.
  - by rewrite Hr.
Qed.

Section Body.

Variable linked : Site -> Preloaded -> M unit.
Variable reg : Registry.

Lemma get_resource_ready_body_rescraped s auto_save auto_create auto_link pre ign w :
  pre <> NoContent \/
  (ign = false /\
   forall p s1 w1, get_resource s w = (Ok (p, s1), w1) -> ready E p = true) ->
  get_resource_ready_body E linked reg (rescraped f s) auto_save auto_create auto_link
    pre ign w
  = on_site (rescraped f)
      (get_resource_ready_body E linked reg s auto_save auto_create auto_link pre ign w).
Proof.
  intros Hskip. unfold get_resource_ready_body.
  unfold bind at 1. rewrite get_resource_rescraped. symmetry. unfold bind at 1. symmetry.
  destruct (get_resource s w) as [[[p s1]|e] w1] eqn:Hg; [| done].
  cbn [on_site].
  assert (Hp : pre <> NoContent \/ (ign = false /\ ready E p = true)).
  { destruct Hskip as [? | [? Hr]]; [by left | right]. split; [done |]. by eapply Hr. }
  unfold bind at 1. rewrite (update_step_rescraped s1 p pre ign w1 Hp).
  symmetry. unfold bind at 1. symmetry.
  destruct (update_step E s1 p pre ign w1) as [[p1|e] w2]; [| done].
  destruct (ready E p1); cbn [negb].
  { (* ready *)
    change (with_resource (rescraped f s1) p1) with (rescraped f (with_resource s1 p1)).
    set (s2 := with_resource s1 p1).
    unfold bind at 1. symmetry. unfold bind at 1. symmetry.
    assert (Hc : (if auto_link || auto_create
                  then get_item E (rescraped f s2) else ret (None, rescraped f s2)) w2
                 = on_site (rescraped f)
                     ((if auto_link || auto_create
                       then get_item E s2 else ret (None, s2)) w2)).
    { destruct (auto_link || auto_create); [apply get_item_rescraped | done]. }
    rewrite Hc.
    destruct ((if auto_link || auto_create then get_item E s2 else ret (None, s2)) w2)
      as [[[created s3]|e] w3]; [| done].
    cbn [on_site].
    unfold bind at 1. rewrite get_resource_rescraped.
    symmetry. unfold bind at 1. symmetry.
    destruct (get_resource s3 w3) as [[[p4 s4]|e] w4]; [| done].
    cbn [on_site].
    unfold bind at 1. symmetry. unfold bind at 1. symmetry.
    change (save_step E (rescraped f s4)) with (save_step E s4).
    destruct ((if auto_link || auto_create || auto_save
               then save_step E s4 p4
                      (if auto_link || auto_create
                       then ret created else deref_item (item_id p4)) ign
               else ret (p4, None)) w4) as [[[p5 it]|e] w5]; [| done].
    unfold bind at 1. symmetry. unfold bind at 1. symmetry.
    destruct ((if auto_link then link_step E linked reg p5 it else ret tt) w5)
      as [[[]|e] w6]; done. }
  (* not ready *)
  unfold bind at 1. symmetry. unfold bind at 1. symmetry.
  done.
Qed.

End Body.

(** X18. Content at hand is never scraped again. When preloaded content is
    handed in, or when the stored resource is ready and its content is not
    to be ignored, [get_resource_ready] gives the same outcome (result,
    tables, cache, logs and queue) whatever the adapter's scraper is: swapping
    the scraper changes nothing but the class recorded in the adapter that
    is returned. *)
Theorem content_at_hand_skips_scrape (reg : Registry) (s : Site)
    (auto_save auto_create auto_link : bool) (pre : Preloaded) (ign : bool) (w : World) :
  pre <> NoContent \/
  (ign = false /\
   forall p s1 w1, get_resource s w = (Ok (p, s1), w1) -> ready E p = true) ->
  get_resource_ready E reg (rescraped f s) auto_save auto_create auto_link pre ign w
  = on_site (rescraped f)
      (get_resource_ready E reg s auto_save auto_create auto_link pre ign w).
Proof. apply get_resource_ready_body_rescraped. Qed.

End WithEnv.

(** The scraper of subject 1 fails, yet preloaded content gets the resource
    ready, as it would with a scraper that answers. *)
Lemma content_at_hand_skips_scrape_witness :
  let rc := {| lookup_ids := [("isbn", "9780553283686")]%string;
               rc_metadata := [("title"%string, VStr "Hyperion")];
               cover_image := None; cover_image_extention := None |} in
  let s := new_site (DoubanBook.class AbstractSite.scrape) None (Some "1"%string) in
  get_resource_ready env0 reg0 (rescraped scrape0 s) true true false (IsContent rc)
    false world0
  = on_site (rescraped scrape0)
      (get_resource_ready env0 reg0 s true true false (IsContent rc) false world0).
Proof.
  intros rc s.
  apply (content_at_hand_skips_scrape env0 scrape0 reg0 s true true false (IsContent rc)
           false world0).
  left. discriminate.
Defined.

End ScrapeSkipped.

(** ** The sites offered to external search (get_sites_for_search) *)

Module SearchSites.
Import Sites.

Section WithSettings.

(** Class attributes the record of a site class does not carry:
    [s.SITE_NAME.value] and [hasattr(s, "search_task")]. *)
Variable SITE_NAME : SiteClass -> string.
Variable has_search_task : SiteClass -> bool.

(** [{s.SITE_NAME.value: s for s in sites if hasattr(s, "search_task")}]:
    a later class takes the place of an earlier one of the same name. *)
Definition by_name (sites : list SiteClass) : gmap string SiteClass :=
  foldl (fun ss s => <[SITE_NAME s := s]> ss) ∅ (List.filter has_search_task sites).

(** [SiteManager.get_sites_for_search()]; [SEARCH_SITES] is the setting, a
    list of names. *)
Definition get_sites_for_search (SEARCH_SITES : list string) (reg : Registry)
    : list SiteClass :=
  if bool_decide (SEARCH_SITES = ["-"%string]) then []
  else
    let sites := Registry.get_all_sites reg in
    if bool_decide (SEARCH_SITES = ["*"%string]) || bool_decide (SEARCH_SITES = [])
    then List.filter has_search_task sites
    else
      let ss := by_name sites in
      omap (fun s => ss !! s) SEARCH_SITES.

(** The last class of [sites] that can be searched and carries the name. *)
Definition last_named (sites : list SiteClass) (name : string) : option SiteClass :=
  last (List.filter (fun c => has_search_task c && String.eqb (SITE_NAME c) name) sites).

Lemma foldl_insert_lookup (l : list SiteClass) (name : string) :
  foldl (fun (ss : gmap string SiteClass) s => <[SITE_NAME s := s]> ss) ∅ l !! name
  = last (List.filter (fun c => String.eqb (SITE_NAME c) name) l).
Proof.
  induction l as [|x l IH] using rev_ind; [done |].
  rewrite foldl_app, List.filter_app. simpl.
  destruct (String.eqb_spec (SITE_NAME x) name) as [->|Hne].
  - rewrite lookup_insert_eq. by rewrite last_snoc.
  - rewrite lookup_insert_ne by done. by rewrite app_nil_r.
Qed.

Lemma filter_filter_and (p q : SiteClass -> bool) (l : list SiteClass) :
  List.filter q (List.filter p l) = List.filter (fun c => p c && q c) l.
Proof.
  induction l as [|x l IH]; [done |]. simpl.
  destruct (p x); simpl; [| exact IH]. destruct (q x); by rewrite IH.
Qed.

Lemma by_name_lookup (sites : list SiteClass) (name : string) :
  by_name sites !! name = last_named sites name.
Proof.
  unfold by_name, last_named. by rewrite foldl_insert_lookup, filter_filter_and.
Qed.

Lemma last_In {A : Type} (l : list A) (x : A) : last l = Some x -> In x l.
Proof.
  intros H. apply last_Some in H as [l' ->]. apply in_or_app. right. by left.
Qed.

(** X19. Which sites are searched. Every class [get_sites_for_search]
    returns is registered and has a [search_task]. The setting ["-"] gives
    none; ["*"] or an empty setting gives all searchable classes in
    registration order; any other setting gives, for each listed name that a
    searchable class carries, in the order of the setting, one class: the
    last registered searchable class of that name. *)
Theorem search_sites_selection (SEARCH_SITES : list string) (reg : Registry) :
  (forall c, In c (get_sites_for_search SEARCH_SITES reg) ->
     In c (Registry.get_all_sites reg) /\ has_search_task c = true) /\
  (SEARCH_SITES = ["-"%string] -> get_sites_for_search SEARCH_SITES reg = []) /\
  (SEARCH_SITES = ["*"%string] \/ SEARCH_SITES = [] ->
   get_sites_for_search SEARCH_SITES reg
   = List.filter has_search_task (Registry.get_all_sites reg)) /\
  (SEARCH_SITES <> ["-"%string] -> SEARCH_SITES <> ["*"%string] -> SEARCH_SITES <> [] ->
   get_sites_for_search SEARCH_SITES reg
   = omap (last_named (Registry.get_all_sites reg)) SEARCH_SITES).
Proof.
  assert (Hexp : SEARCH_SITES <> ["-"%string] -> SEARCH_SITES <> ["*"%string] ->
                 SEARCH_SITES <> [] ->
                 get_sites_for_search SEARCH_SITES reg
                 = omap (last_named (Registry.get_all_sites reg)) SEARCH_SITES).
  { intros H1 H2 H3. unfold get_sites_for_search.
    rewrite !bool_decide_eq_false_2 by done. cbn [orb].
    clear H1 H2 H3.
    induction SEARCH_SITES as [|n names IH]; [done |]. csimpl.
    by rewrite by_name_lookup, IH. }
  split; [| split; [| split; [| exact Hexp]]].
  - intros c. destruct (decide (SEARCH_SITES = ["-"%string])) as [->|H1]; [done |].
    destruct (decide (SEARCH_SITES = ["*"%string])) as [->|H2].
    { unfold get_sites_for_search. simpl. intros H. by apply List.filter_In in H. }
    destruct (decide (SEARCH_SITES = [])) as [->|H3].
    { unfold get_sites_for_search. simpl. intros H. by apply List.filter_In in H. }
    rewrite Hexp by done. intros Hin.
    apply list_elem_of_In, list_elem_of_omap in Hin as (n & _ & Hn).
    unfold last_named in Hn. apply last_In, List.filter_In in Hn as [Hin Hc].
    apply andb_true_iff in Hc as [Hc _]. done.
  - intros ->. reflexivity.
  - intros [-> | ->]; reflexivity.
Qed.

End WithSettings.

End SearchSites.
